(** * odoo-depends: dependency graph, install order and upgrade impact

    A shallow embedding of the analysis core of [odoo_depends]
    ([analyzer.py] and [upgrade_analyzer.py]) and of the dependency tree
    and node colours of [visualizer.py], together with the parts of
    networkx 3.2 they call ([DiGraph], [reverse], [descendants],
    [ancestors], [topological_sort], [simple_cycles],
    [single_source_shortest_path_length]).

    Python values are modelled as follows.
    - [str] is [string] (a byte string; Python compares by code point,
      which is the order of the UTF-8 bytes).
    - [dict] is an association list in insertion order with the update
      discipline of Python ([dset] overwrites in place, appends a new key).
    - [set] is a duplicate-free list maintained by [set_add]; the program
      only tests membership, sorts or counts its sets, so the iteration
      order of a Python set is never observed ([get_statistics] apart,
      see there).
    - an exception is a value of [exn] carried by [outcome]. *)

From Stdlib Require Import String Ascii List ZArith Bool Arith Lia.
From Stdlib Require Import Permutation Relations DecimalString.
Import ListNotations.
Open Scope string_scope.
Open Scope list_scope.

Set Implicit Arguments.
Set Warnings "-register-all".

(* ================================================================== *)
(** * Part I. The embedding *)
(* ================================================================== *)

(** ** Python containers *)

Section PyDict.
Variable V : Type.

Definition dict := list (string * V).

Fixpoint dget (d : dict) (k : string) : option V :=
  match d with
  | [] => None
  | (k', v) :: d' => if String.eqb k' k then Some v else dget d' k
  end.

Definition dmem (d : dict) (k : string) : bool :=
  match dget d k with Some _ => true | None => false end.

(** [d[k] = v] *)
Fixpoint dset (d : dict) (k : string) (v : V) : dict :=
  match d with
  | [] => [(k, v)]
  | (k', v') :: d' =>
      if String.eqb k' k then (k', v) :: d' else (k', v') :: dset d' k v
  end.

(** [del d[k]] (on a key that is present) *)
Fixpoint ddel (d : dict) (k : string) : dict :=
  match d with
  | [] => []
  | (k', v') :: d' =>
      if String.eqb k' k then d' else (k', v') :: ddel d' k
  end.

Definition dkeys (d : dict) : list string := map fst d.

(** [d.update(other)] *)
Definition dupdate (d other : dict) : dict :=
  fold_left (fun acc kv => dset acc (fst kv) (snd kv)) other d.
End PyDict.

Arguments dget {V} d k.
Arguments dmem {V} d k.
Arguments dset {V} d k v.
Arguments ddel {V} d k.
Arguments dkeys {V} d.
Arguments dupdate {V} d other.

Definition mem (x : string) (l : list string) : bool :=
  existsb (String.eqb x) l.

(** [s.add(x)] *)
Definition set_add (x : string) (s : list string) : list string :=
  if mem x s then s else s ++ [x].

(** [s.update(xs)] *)
Definition set_update (s xs : list string) : list string :=
  fold_left (fun acc x => set_add x acc) xs s.

(** [set(xs)] *)
Definition set_of_list (xs : list string) : list string := set_update [] xs.

(** [a - b] and [a & b] on sets *)
Definition set_diff (a b : list string) : list string :=
  filter (fun x => negb (mem x b)) a.
Definition set_inter (a b : list string) : list string :=
  filter (fun x => mem x b) a.

(** [sorted(xs)] on strings: insertion into an ascending list. *)
Fixpoint insert_sorted (x : string) (l : list string) : list string :=
  match l with
  | [] => [x]
  | y :: l' => if String.leb x y then x :: l else y :: insert_sorted x l'
  end.

Definition sorted (l : list string) : list string :=
  fold_right insert_sorted [] l.

(** ** Exceptions *)

Inductive exn : Type :=
| ValueError (msg : string)
| RuntimeError (msg : string)
| NetworkXUnfeasible (msg : string).

Inductive outcome (A : Type) : Type :=
| Return (a : A)
| Raise (e : exn).

Arguments Return {A} a.
Arguments Raise {A} e.

Definition bind {A B} (m : outcome A) (f : A -> outcome B) : outcome B :=
  match m with
  | Return a => f a
  | Raise e => Raise e
  end.

Notation "x <- m ;; k" := (bind m (fun x => k))
  (at level 61, m at next level, right associativity).

(** ** networkx *)

Module nx.

(** Node attribute values. *)
Inductive pyval : Type :=
| PyStr (s : string)
| PyBool (b : bool).

Definition attrs := dict pyval.

(** [DiGraph]: [_node], [_succ] and [_pred].  No edge carries data
    here, so an inner adjacency dict is the ordered list of its keys. *)
Record DiGraph : Type := mkDiGraph {
  node_ : dict attrs;
  succ_ : dict (list string);
  pred_ : dict (list string)
}.

Definition empty : DiGraph := mkDiGraph [] [] [].

(** [n in G] *)
Definition has_node (G : DiGraph) (n : string) : bool := dmem (node_ G) n.

(** [len(G)] *)
Definition number_of_nodes (G : DiGraph) : nat := length (node_ G).

Definition adj (d : dict (list string)) (n : string) : list string :=
  match dget d n with Some l => l | None => [] end.

(** [G.neighbors(n)] and [G.predecessors(n)]. *)
Definition neighbors (G : DiGraph) (n : string) := adj (succ_ G) n.
Definition predecessors (G : DiGraph) (n : string) := adj (pred_ G) n.

(** [G.add_node(n, **attr)] *)
Definition add_node (G : DiGraph) (n : string) (attr : attrs) : DiGraph :=
  if dmem (succ_ G) n then
    mkDiGraph
      (dset (node_ G) n
            (dupdate (match dget (node_ G) n with Some a => a | None => [] end)
                     attr))
      (succ_ G) (pred_ G)
  else
    mkDiGraph (dset (node_ G) n (dupdate [] attr))
              (dset (succ_ G) n [])
              (dset (pred_ G) n []).

(** [G.add_edge(u, v)] *)
Definition add_edge (G : DiGraph) (u v : string) : DiGraph :=
  let G1 := if dmem (succ_ G) u then G else add_node G u [] in
  let G2 := if dmem (succ_ G1) v then G1 else add_node G1 v [] in
  mkDiGraph (node_ G2)
            (dset (succ_ G2) u (set_add v (adj (succ_ G2) u)))
            (dset (pred_ G2) v (set_add u (adj (pred_ G2) v))).

(** [G.edges]: for every node, in order, its successors in order. *)
Definition edges (G : DiGraph) : list (string * string) :=
  flat_map (fun ul => map (fun v => (fst ul, v)) (snd ul)) (succ_ G).

(** [G.reverse()] (a copy): the nodes with their attributes, then
    every edge [(u, v)] added as [(v, u)]. *)
Definition reverse (G : DiGraph) : DiGraph :=
  let H := fold_left (fun H na => add_node H (fst na) (snd na))
                     (node_ G) empty in
  fold_left (fun H uv => add_edge H (snd uv) (fst uv)) (edges G) H.

(** *** Breadth-first search ([generic_bfs_edges])

    [seen] is the set of visited nodes, [nxt] the next layer with the
    neighbours of each of its nodes, [yielded] the edges produced so
    far. *)
Record bfs_state : Type := mkBfs {
  seen : list string;
  nxt : list (string * list string);
  yielded : list (string * string)
}.

Section Bfs.
(** [neighbors]: [G.neighbors], or [G.predecessors] when reversed. *)
Variable nbrs : string -> list string.
(** [n = len(G)] *)
Variable n : nat.

(** [for child in children: if child not in seen: ...] *)
Fixpoint visit_children (parent : string) (children : list string)
         (st : bfs_state) : bfs_state :=
  match children with
  | [] => st
  | child :: rest =>
      visit_children parent rest
        (if mem child (seen st) then st
         else mkBfs (set_add child (seen st))
                    (nxt st ++ [(child, nbrs child)])
                    (yielded st ++ [(parent, child)]))
  end.

(** One layer: [for parent, children in this_parents_children]; the
    boolean tells that [len(seen) == n] ended the generator. *)
Fixpoint bfs_layer (this : list (string * list string))
         (st : bfs_state) : bfs_state * bool :=
  match this with
  | [] => (st, false)
  | (parent, children) :: rest =>
      let st' := visit_children parent children st in
      if Nat.eqb (length (seen st')) n then (st', true)
      else bfs_layer rest st'
  end.

(** [while next_parents_children and depth < depth_limit]; [budget]
    is [depth_limit - depth]. *)
Fixpoint bfs_while (budget : nat) (next : list (string * list string))
         (sn : list string) (out : list (string * string))
  : list (string * string) :=
  match budget with
  | O => out
  | S budget' =>
      match next with
      | [] => out
      | _ :: _ =>
          let '(st, returned) := bfs_layer next (mkBfs sn [] out) in
          if returned then yielded st
          else bfs_while budget' (nxt st) (seen st) (yielded st)
      end
  end.
End Bfs.

Definition generic_bfs_edges (G : DiGraph) (source : string)
           (nbrs : string -> list string) : list (string * string) :=
  let depth_limit := number_of_nodes G in
  bfs_while nbrs (number_of_nodes G) depth_limit
            [(source, nbrs source)] [source] [].

Definition bfs_edges (G : DiGraph) (source : string) (rev : bool)
  : list (string * string) :=
  generic_bfs_edges G source
    (if rev then predecessors G else neighbors G).

(** [{child for parent, child in nx.bfs_edges(G, source)}] *)
Definition descendants (G : DiGraph) (source : string) : list string :=
  set_of_list (map snd (bfs_edges G source false)).

Definition ancestors (G : DiGraph) (source : string) : list string :=
  set_of_list (map snd (bfs_edges G source true)).

(** *** Topological sort ([topological_generations]) *)

(** [G.in_degree()]: every node with the number of its predecessors. *)
Definition in_degree (G : DiGraph) : list (string * Z) :=
  map (fun v => (v, Z.of_nat (length (predecessors G v))))
      (dkeys (succ_ G)).

(** The body of [for child in G.neighbors(node)]. *)
Definition visit_child (st : dict Z * list string) (child : string)
  : outcome (dict Z * list string) :=
  let '(indegree_map, zero_indegree) := st in
  match dget indegree_map child with
  | None => Raise (RuntimeError "Graph changed during iteration")
  | Some d =>
      let d' := (d - 1)%Z in
      let indegree_map := dset indegree_map child d' in
      if (d' =? 0)%Z
      then Return (ddel indegree_map child, zero_indegree ++ [child])
      else Return (indegree_map, zero_indegree)
  end.

Fixpoint for_each {St A : Type} (f : St -> A -> outcome St)
         (l : list A) (st : St) : outcome St :=
  match l with
  | [] => Return st
  | a :: l' => st' <- f st a ;; for_each f l' st'
  end.

(** The body of [for node in this_generation]. *)
Definition visit_node (G : DiGraph) (st : dict Z * list string)
           (node : string) : outcome (dict Z * list string) :=
  if has_node G node
  then for_each visit_child (neighbors G node) st
  else Raise (RuntimeError "Graph changed during iteration").

(** [while zero_indegree: ...]; [None] when [fuel] iterations did not
    end the loop ([topological_sort_total] shows this never happens).
    [order] collects the generations yielded so far. *)
Fixpoint generations (fuel : nat) (G : DiGraph) (indegree_map : dict Z)
         (zero_indegree order : list string)
  : option (outcome (list string)) :=
  match fuel with
  | O => None
  | S fuel' =>
      match zero_indegree with
      | [] =>
          Some (match indegree_map with
                | [] => Return order
                | _ :: _ =>
                    Raise (NetworkXUnfeasible
                      "Graph contains a cycle or graph changed during iteration")
                end)
      | _ :: _ =>
          let this_generation := zero_indegree in
          match for_each (visit_node G) this_generation (indegree_map, [])
          with
          | Raise e => Some (Raise e)
          | Return (indegree_map', zero_indegree') =>
              generations fuel' G indegree_map' zero_indegree'
                          (order ++ this_generation)
          end
      end
  end.

(** [list(nx.topological_sort(G))].  [in_degree] lists every node once,
    so the dict comprehension of [indegree_map] is a filter. *)
Definition topological_sort (G : DiGraph) : option (outcome (list string)) :=
  let indegree_map := filter (fun vd => (0 <? snd vd)%Z) (in_degree G) in
  let zero_indegree :=
    map fst (filter (fun vd => (snd vd =? 0)%Z) (in_degree G)) in
  generations (2 + length indegree_map) G indegree_map zero_indegree [].

(** *** Elementary cycles ([simple_cycles])

    networkx first yields [[v]] for every self-loop, then searches the
    loop-free graph: it picks a node of a strongly connected component,
    yields every elementary cycle through it, removes it and goes on
    with the rest.  Which node it picks is the iteration order of a
    Python set; here the roots are taken in node order, so a cycle is
    listed from its first node in that order, where networkx may list a
    rotation of it and the cycles in another order.  The search returns
    elementary cycles only ([simple_cycles_sound]) and a rotation of
    every one ([simple_cycles_complete]). *)
Definition loopfree_neighbors (G : DiGraph) (u : string) : list string :=
  filter (fun v => negb (String.eqb v u)) (neighbors G u).

(** Every simple path from [cur], the last node of [path], back to
    [start] through nodes of [allowed] that are not on [path]. *)
Fixpoint cycle_search (fuel : nat) (G : DiGraph) (allowed : list string)
         (start : string) (path : list string) (cur : string)
  : list (list string) :=
  match fuel with
  | O => []
  | S fuel' =>
      flat_map
        (fun w =>
           if String.eqb w start then [path]
           else if mem w allowed && negb (mem w path)
                then cycle_search fuel' G allowed start (path ++ [w]) w
                else [])
        (loopfree_neighbors G cur)
  end.

Fixpoint directed_cycle_search (G : DiGraph) (nodes : list string)
  : list (list string) :=
  match nodes with
  | [] => []
  | v :: rest =>
      cycle_search (S (length rest)) G rest v [v] v
      ++ directed_cycle_search G rest
  end.

Definition simple_cycles (G : DiGraph) : list (list string) :=
  map (fun v => [v])
      (filter (fun v => mem v (neighbors G v)) (dkeys (succ_ G)))
  ++ directed_cycle_search G (dkeys (succ_ G)).

(** *** Shortest path lengths ([single_source_shortest_path_length])

    A breadth-first search by levels ([_single_shortest_path_length]).
    [sp_seen] is the set [seen], [sp_next] the list [nextlevel],
    [sp_out] the pairs yielded so far. *)
Record sp_state : Type := mkSp {
  sp_seen : list string;
  sp_next : list string;
  sp_out : list (string * nat)
}.

(** [for w in adj[v]: if w not in seen: seen.add(w);
     nextlevel.append(w); yield (w, level)] *)
Fixpoint sp_visit (level : nat) (ws : list string) (st : sp_state)
  : sp_state :=
  match ws with
  | [] => st
  | w :: rest =>
      sp_visit level rest
        (if mem w (sp_seen st) then st
         else mkSp (set_add w (sp_seen st))
                   (sp_next st ++ [w])
                   (sp_out st ++ [(w, level)]))
  end.

(** [for v in thislevel: ...] *)
Definition sp_level (adj : string -> list string) (level : nat)
           (thislevel : list string) (st : sp_state) : sp_state :=
  fold_left (fun st v => sp_visit level (adj v) st) thislevel st.

(** [while nextlevel and cutoff > level], the cutoff being infinite;
    [n] is [len(adj)].  [None] when [fuel] iterations did not end the
    loop. *)
Fixpoint sp_while (fuel : nat) (adj : string -> list string) (n : nat)
         (level : nat) (st : sp_state) : option (list (string * nat)) :=
  match fuel with
  | O => None
  | S fuel' =>
      match sp_next st with
      | [] => Some (sp_out st)
      | _ :: _ =>
          let level := S level in
          let thislevel := sp_next st in
          let st' :=
            sp_level adj level thislevel
                     (mkSp (sp_seen st) [] (sp_out st)) in
          if Nat.eqb (length (sp_seen st')) n then Some (sp_out st')
          else sp_while fuel' adj n level st'
      end
  end.

(** What the call gives: the dict of the lengths, or [NodeNotFound]. *)
Inductive sp_result : Type :=
| SpLengths (lengths : dict nat)
| NodeNotFound (msg : string).

Definition single_source_shortest_path_length (G : DiGraph)
           (source : string) : option sp_result :=
  if negb (has_node G source)
  then Some (NodeNotFound (String.append "Source "
                             (String.append source " is not in G")))
  else
    let firstlevel := [source] in
    let n := length (succ_ G) in
    match sp_while (S n) (neighbors G) n 0
                   (mkSp (set_of_list firstlevel) firstlevel
                         (map (fun v => (v, 0)) firstlevel))
    with
    | None => None
    | Some out =>
        Some (SpLengths
                (fold_left (fun d kv => dset d (fst kv) (snd kv)) out []))
    end.

End nx.

(** ** analyzer.py *)

Module analyzer.

Record OdooModule : Type := mkOdooModule {
  name : string;
  path : string;
  version : string;
  summary : string;
  description : string;
  author : string;
  category : string;
  depends : list string;
  data : list string;
  installable : bool;
  application : bool;
  auto_install : bool;
  license : string
}.

Definition CORE_MODULES : list string :=
  [ "base"; "web"; "mail"; "portal"; "auth_signup"; "contacts";
    "sale"; "purchase"; "stock"; "account"; "mrp"; "project";
    "hr"; "crm"; "website"; "point_of_sale"; "fleet"; "lunch";
    "calendar"; "note"; "board"; "fetchmail"; "bus"; "im_livechat";
    "utm"; "http_routing"; "digest"; "phone_validation";
    "base_import"; "base_setup"; "web_editor"; "web_tour";
    "iap"; "sms"; "snailmail"; "product"; "uom"; "analytic";
    "payment"; "delivery"; "rating"; "resource"; "survey" ].

(** The state of an [OdooModuleAnalyzer] instance. *)
Record OdooModuleAnalyzer : Type := mkAnalyzer {
  paths : list string;
  modules : dict OdooModule;
  graph : option nx.DiGraph
}.

(** [OdooModuleAnalyzer(paths)] *)
Definition __init__ (paths : option (list string)) : OdooModuleAnalyzer :=
  mkAnalyzer (match paths with Some l => l | None => [] end) [] None.

(** The attributes of the node of a scanned module. *)
Definition module_attrs (name : string) (module : OdooModule) : nx.attrs :=
  [ ("version", nx.PyStr (version module));
    ("category", nx.PyStr (category module));
    ("application", nx.PyBool (application module));
    ("is_core", nx.PyBool (mem name CORE_MODULES));
    ("installable", nx.PyBool (installable module));
    ("path", nx.PyStr (path module)) ].

Definition external_attrs (dep : string) : nx.attrs :=
  [ ("is_external", nx.PyBool true);
    ("is_core", nx.PyBool (mem dep CORE_MODULES)) ].

(** The body of [for dep in module.depends]. *)
Definition add_dependency (name : string) (G : nx.DiGraph) (dep : string)
  : nx.DiGraph :=
  let G := if nx.has_node G dep then G
           else nx.add_node G dep (external_attrs dep) in
  nx.add_edge G name dep.

(** The graph [build_dependency_graph] builds from [self.modules]. *)
Definition dependency_graph (modules : dict OdooModule) : nx.DiGraph :=
  let G := fold_left
             (fun G nm => nx.add_node G (fst nm) (module_attrs (fst nm) (snd nm)))
             modules nx.empty in
  fold_left
    (fun G nm => fold_left (add_dependency (fst nm)) (depends (snd nm)) G)
    modules G.

Definition build_dependency_graph (self : OdooModuleAnalyzer)
  : nx.DiGraph * OdooModuleAnalyzer :=
  let G := dependency_graph (modules self) in
  (G, mkAnalyzer (paths self) (modules self) (Some G)).

(** [if self.graph is None: self.build_dependency_graph()] *)
Definition ensure_graph (self : OdooModuleAnalyzer)
  : nx.DiGraph * OdooModuleAnalyzer :=
  match graph self with
  | None => build_dependency_graph self
  | Some G => (G, self)
  end.

Definition get_all_dependencies (self : OdooModuleAnalyzer)
           (module_name : string) (include_core : bool)
  : list string * OdooModuleAnalyzer :=
  let '(G, self) := ensure_graph self in
  if negb (nx.has_node G module_name) then ([], self)
  else
    let deps := nx.descendants G module_name in
    let deps := if negb include_core
                then filter (fun d => negb (mem d CORE_MODULES)) deps
                else deps in
    (deps, self).

Definition get_reverse_dependencies (self : OdooModuleAnalyzer)
           (module_name : string) : list string * OdooModuleAnalyzer :=
  let '(G, self) := ensure_graph self in
  if negb (nx.has_node G module_name) then ([], self)
  else (nx.ancestors G module_name, self).

(** [simple_cycles] raises nothing in this model, so the [except]
    branch of the source has no counterpart. *)
Definition find_circular_dependencies (self : OdooModuleAnalyzer)
  : list (list string) * OdooModuleAnalyzer :=
  let '(G, self) := ensure_graph self in
  (nx.simple_cycles G, self).

Definition find_missing_dependencies (self : OdooModuleAnalyzer)
  : dict (list string) :=
  fold_left
    (fun missing nm =>
       let missing_deps :=
         filter (fun dep => negb (dmem (modules self) dep)
                            && negb (mem dep CORE_MODULES))
                (depends (snd nm)) in
       match missing_deps with
       | [] => missing
       | _ :: _ => dset missing (fst nm) missing_deps
       end)
    (modules self) [].

(** [for name in module_names: required.add(name);
     required.update(self.get_all_dependencies(name))] *)
Fixpoint required_modules (self : OdooModuleAnalyzer)
         (module_names : list string) (required : list string)
  : list string * OdooModuleAnalyzer :=
  match module_names with
  | [] => (required, self)
  | name :: rest =>
      let required := set_add name required in
      let '(deps, self) := get_all_dependencies self name true in
      required_modules self rest (set_update required deps)
  end.

(** [get_install_order]: [None] only if the loop of the topological
    sort did not end within its bound, which never happens
    ([get_install_order_total]).  Only [NetworkXUnfeasible] is caught. *)
Definition get_install_order (self : OdooModuleAnalyzer)
           (module_names : option (list string))
  : option (outcome (list string) * OdooModuleAnalyzer) :=
  let '(G, self) := ensure_graph self in
  let reversed_graph := nx.reverse G in
  match nx.topological_sort reversed_graph with
  | None => None
  | Some (Raise (NetworkXUnfeasible _)) => Some (Return [], self)
  | Some (Raise e) => Some (Raise e, self)
  | Some (Return order) =>
      match module_names with
      | Some (n :: ns) =>
          let '(required, self) := required_modules self (n :: ns) [] in
          Some (Return (filter (fun m => mem m required) order), self)
      | _ => Some (Return order, self)
      end
  end.

(** *** Scanning

    The file system is a tree; a [Path] is the list of the components
    of an absolute, resolved path.  [iterdir] lists a directory in the
    order of its entries.  A directory without read permission is
    [Unreadable]: its entries are reached by name, so [exists] and
    [is_dir] answer as for any directory, and listing it raises
    [PermissionError].  Search permission is taken as granted
    everywhere, so [stat] raises nothing. *)
Inductive fsnode : Type :=
| File (content : string)
| Dir (entries : list (string * fsnode))
| Unreadable (entries : list (string * fsnode)).

Definition Path := list string.

(** What [_safe_parse_manifest] returns: the recognised keys of the
    manifest dict, each absent or with a value of the type the
    [OdooModule] dataclass declares. *)
Record Manifest : Type := mkManifest {
  m_version : option string;
  m_summary : option string;
  m_description : option string;
  m_author : option string;
  m_category : option string;
  m_depends : option (list string);
  m_data : option (list string);
  m_installable : option bool;
  m_application : option bool;
  m_auto_install : option bool;
  m_license : option string
}.

Definition get {A} (o : option A) (default : A) : A :=
  match o with Some a => a | None => default end.

(** [path.name] and [str(path)] *)
Definition path_name (p : Path) : string := last p "".
Definition path_str (p : Path) : string :=
  match p with
  | [] => "/"
  | _ :: _ => String.concat "" (map (fun c => String.append "/" c) p)
  end.

Section Scan.
(** The root of the file system, [Path(...).resolve()], and the
    manifest parser (Python's [ast.literal_eval] with the regular
    expression fallback), which the scan takes as given. *)
Variable root : fsnode.
Variable resolve : string -> Path.
Variable _safe_parse_manifest : string -> Path -> option Manifest.

Fixpoint lookup_from (n : fsnode) (p : Path) : option fsnode :=
  match p with
  | [] => Some n
  | c :: p' =>
      match n with
      | File _ => None
      | Dir entries | Unreadable entries =>
          match dget entries c with
          | Some n' => lookup_from n' p'
          | None => None
          end
      end
  end.

Definition lookup (p : Path) : option fsnode := lookup_from root p.

Definition exists_ (p : Path) : bool :=
  match lookup p with Some _ => true | None => false end.

Definition is_dir (p : Path) : bool :=
  match lookup p with
  | Some (Dir _) | Some (Unreadable _) => true
  | _ => false
  end.

(** What [iterdir] gives when the loop starts: the entries, or
    [PermissionError].  The scan lists directories only. *)
Inductive listing : Type :=
| Listed (items : list Path)
| PermissionError.

Definition iterdir (p : Path) : listing :=
  match lookup p with
  | Some (Dir entries) => Listed (map (fun e => p ++ [fst e]) entries)
  | Some (Unreadable _) => PermissionError
  | _ => Listed []
  end.

Definition _is_odoo_module (path : Path) : bool :=
  if negb (exists_ (path ++ ["__init__.py"])) then false
  else existsb (fun manifest => exists_ (path ++ [manifest]))
               ["__manifest__.py"; "__openerp__.py"].

Definition _parse_module (path : Path) : option OdooModule :=
  let manifest_path :=
    if exists_ (path ++ ["__manifest__.py"])
    then Some (path ++ ["__manifest__.py"])
    else if exists_ (path ++ ["__openerp__.py"])
         then Some (path ++ ["__openerp__.py"])
         else None in
  match manifest_path with
  | None => None
  | Some manifest_path =>
      match lookup manifest_path with
      | Some (File content) =>
          match _safe_parse_manifest content manifest_path with
          | None => None
          | Some manifest_data =>
              Some (mkOdooModule
                      (path_name path)
                      (path_str path)
                      (get (m_version manifest_data) "1.0")
                      (get (m_summary manifest_data) "")
                      (get (m_description manifest_data) "")
                      (get (m_author manifest_data) "")
                      (get (m_category manifest_data) "")
                      (get (m_depends manifest_data) [])
                      (get (m_data manifest_data) [])
                      (get (m_installable manifest_data) true)
                      (get (m_application manifest_data) false)
                      (get (m_auto_install manifest_data) false)
                      (get (m_license manifest_data) "LGPL-3"))
          end
      | _ => None (* [open] fails; the exception is swallowed *)
      end
  end.

(** [module = self._parse_module(p); if module: self.modules[...] = module] *)
Definition record_module (modules : dict OdooModule) (p : Path)
  : dict OdooModule :=
  match _parse_module p with
  | Some module => dset modules (name module) module
  | None => modules
  end.

(** The body of [for subitem in item.iterdir()]. *)
Definition scan_subitem (modules : dict OdooModule) (subitem : Path)
  : dict OdooModule :=
  if is_dir subitem && _is_odoo_module subitem
  then record_module modules subitem
  else modules.

(** The body of [for item in directory.iterdir()]; [None] where
    [item.iterdir()] raises [PermissionError], which happens before
    anything of [item] is recorded. *)
Definition scan_item (modules : dict OdooModule) (item : Path)
  : option (dict OdooModule) :=
  if is_dir item && negb (String.prefix "." (path_name item)) then
    if _is_odoo_module item then Some (record_module modules item)
    else
      match iterdir item with
      | Listed subitems => Some (fold_left scan_subitem subitems modules)
      | PermissionError => None
      end
  else Some modules.

(** The loop inside [try: ... except PermissionError: print(...)]: the
    exception ends the loop, the items after it are not visited, and
    what was recorded before stays. *)
Fixpoint scan_items (modules : dict OdooModule) (items : list Path)
  : dict OdooModule :=
  match items with
  | [] => modules
  | item :: rest =>
      match scan_item modules item with
      | Some modules => scan_items modules rest
      | None => modules
      end
  end.

Definition _scan_directory (modules : dict OdooModule) (directory : Path)
  : dict OdooModule :=
  if _is_odoo_module directory then record_module modules directory
  else
    match iterdir directory with
    | Listed items => scan_items modules items
    | PermissionError => modules
    end.

Definition scan_modules (self : OdooModuleAnalyzer)
  : dict OdooModule * OdooModuleAnalyzer :=
  let modules :=
    fold_left
      (fun modules base_path =>
         let base_path := resolve base_path in
         if negb (exists_ base_path) then modules
         else if is_dir base_path then _scan_directory modules base_path
              else modules)
      (paths self) [] in
  (modules, mkAnalyzer (paths self) modules (graph self)).
End Scan.


(** *** Paths, depth and statistics *)

(** [add_path(path)] *)
Definition add_path (self : OdooModuleAnalyzer) (path : string)
  : OdooModuleAnalyzer :=
  if negb (mem path (paths self))
  then mkAnalyzer (paths self ++ [path]) (modules self) (graph self)
  else self.

(** [get_dependency_depth]: the greatest of the lengths the search
    gives; [0] for a name that is no node, and for any exception.
    [None] only if the loop of the search did not end within its
    bound. *)
Definition get_dependency_depth (self : OdooModuleAnalyzer)
           (module_name : string) : option (nat * OdooModuleAnalyzer) :=
  let '(G, self) := ensure_graph self in
  if negb (nx.has_node G module_name) then Some (0, self)
  else
    match nx.single_source_shortest_path_length G module_name with
    | None => None
    | Some (nx.NodeNotFound _) => Some (0, self)
    | Some (nx.SpLengths lengths) =>
        Some (match lengths with
              | [] => 0
              | _ :: _ => list_max (map snd lengths)
              end, self)
    end.

(** [dep_counts[dep] += 1] on a [defaultdict(int)] *)
Definition count_dep (dep_counts : dict nat) (dep : string) : dict nat :=
  dset dep_counts dep
       (match dget dep_counts dep with Some c => c | None => 0 end + 1).

(** [sorted(items, key=lambda x: x[1], reverse=True)]: a stable sort, so
    items of equal count keep their order. *)
Fixpoint insert_by_count (x : string * nat) (l : list (string * nat))
  : list (string * nat) :=
  match l with
  | [] => [x]
  | y :: l' =>
      if Nat.leb (snd y) (snd x) then x :: l
      else y :: insert_by_count x l'
  end.

Definition sorted_by_count (l : list (string * nat)) : list (string * nat) :=
  fold_right insert_by_count [] l.

(** The dict [get_statistics] returns.  [external_dependencies],
    [core_dependencies] and [categories] list a Python set, in an order
    Python does not fix; they are given here in the order of insertion,
    and the properties proved of them speak of membership only. *)
Record Statistics : Type := mkStatistics {
  total_modules : nat;
  total_dependencies : nat;
  unique_dependencies : nat;
  external_dependencies : list string;
  core_dependencies : list string;
  missing_dependencies : dict (list string);
  circular_dependencies : list (list string);
  most_depended_modules : list (string * nat);
  applications : list string;
  categories : list string
}.

Definition get_statistics (self : OdooModuleAnalyzer)
  : Statistics * OdooModuleAnalyzer :=
  let '(_, self) := ensure_graph self in
  let total_modules := length (modules self) in
  let '(external_deps, all_deps) :=
    fold_left
      (fun '(external_deps, all_deps) nm =>
         (fold_left
            (fun external_deps dep =>
               if negb (dmem (modules self) dep)
               then set_add dep external_deps
               else external_deps)
            (depends (snd nm)) external_deps,
          all_deps ++ depends (snd nm)))
      (modules self) ([], []) in
  let dep_counts :=
    fold_left (fun dep_counts nm =>
                 fold_left count_dep (depends (snd nm)) dep_counts)
              (modules self) [] in
  let most_depended := firstn 10 (sorted_by_count dep_counts) in
  let missing := find_missing_dependencies self in
  let '(cycles, self) := find_circular_dependencies self in
  (mkStatistics
     total_modules
     (length all_deps)
     (length (set_of_list all_deps))
     external_deps
     (filter (fun d => mem d CORE_MODULES) external_deps)
     missing
     cycles
     most_depended
     (map name (filter application (map snd (modules self))))
     (set_of_list
        (filter (fun c => negb (String.eqb c ""))
                (map category (map snd (modules self))))),
   self).

End analyzer.

(** ** upgrade_analyzer.py *)

Module upgrade_analyzer.
Import analyzer.

(** *** The syntax trees [ModelAnalyzer] reads (Python's [ast]) *)

(** The value of an [ast.Constant].  [COther] is a constant of another
    type (float, bytes, ...), given by its [str()] and its truth value. *)
Inductive constant : Type :=
| CStr (s : string)
| CInt (z : Z)
| CBool (b : bool)
| CNone
| COther (str_ : string) (truth : bool).

Inductive expr : Type :=
| Constant (value : constant)
| Name (id : string)
| Attribute (value : expr) (attr : string)
| Call (func : expr) (args : list expr)
       (keywords : list (option string * expr))
| List_ (elts : list expr)
| Tuple (elts : list expr)
| Dict (keys : list (option expr)) (values : list expr)
| OtherExpr.

(** A statement of a class body; [_parse_class] only tells [Assign] and
    [FunctionDef] apart from the rest. *)
Inductive stmt : Type :=
| Assign (targets : list expr) (value : expr)
| FunctionDef (name : string)
| ClassDef (name : string) (body : list stmt)
| OtherStmt.

(** A Python object as [_get_value] returns it. *)
Inductive pyobj : Type :=
| OConst (c : constant)
| OList (l : list pyobj).

Definition None_ : pyobj := OConst CNone.

Definition string_of_Z (z : Z) : string :=
  NilEmpty.string_of_int (Z.to_int z).

(** [str(v)] and [bool(v)] of a constant *)
Definition str_constant (c : constant) : string :=
  match c with
  | CStr s => s
  | CInt z => string_of_Z z
  | CBool true => "True"
  | CBool false => "False"
  | CNone => "None"
  | COther s _ => s
  end.

Definition truth_constant (c : constant) : bool :=
  match c with
  | CStr s => negb (String.eqb s "")
  | CInt z => negb (Z.eqb z 0)
  | CBool b => b
  | CNone => false
  | COther _ t => t
  end.

Definition truth (o : pyobj) : bool :=
  match o with
  | OConst c => truth_constant c
  | OList l => match l with [] => false | _ :: _ => true end
  end.

Record ModelField : Type := mkModelField {
  f_name : string;
  field_type : string;
  comodel_name : pyobj;
  related : option string;
  compute : option string;
  store : bool;
  required : bool;
  readonly : bool;
  string_ : string
}.

Record OdooModel : Type := mkOdooModel {
  name : pyobj;
  inherit : list pyobj;
  inherits : dict string;
  description : string;
  fields : dict ModelField;
  methods : list string;
  module : string;
  file_path : string
}.

(** *** ModelAnalyzer *)

Definition FIELD_TYPES : list string :=
  [ "Char"; "Text"; "Html"; "Integer"; "Float"; "Monetary";
    "Boolean"; "Date"; "Datetime"; "Binary"; "Image";
    "Selection"; "Reference"; "Many2one"; "One2many"; "Many2many" ].

(** In the Python versions the package declares (3.9 to 3.12) [ast.Str]
    and [ast.NameConstant] are aliases of [ast.Constant], so their
    branches add nothing after the [Constant] test. *)
Definition _get_string_value (node : expr) : string :=
  match node with
  | Constant value => if truth_constant value then str_constant value else ""
  | _ => ""
  end.

Definition _get_bool_value (node : expr) : bool :=
  match node with
  | Constant value => truth_constant value
  | _ => false
  end.

Fixpoint _get_value (node : expr) : pyobj :=
  match node with
  | Constant value => OConst value
  | List_ elts => OList (map _get_value elts)
  | Tuple elts => OList (map _get_value elts)
  | _ => None_
  end.

Fixpoint zip {A B} (l : list A) (l' : list B) : list (A * B) :=
  match l, l' with
  | a :: l, b :: l' => (a, b) :: zip l l'
  | _, _ => []
  end.

Definition _parse_dict (keys : list (option expr)) (values : list expr)
  : dict string :=
  fold_left
    (fun result kv =>
       let k := match fst kv with
                | Some key => Some (_get_string_value key)
                | None => None
                end in
       let v := _get_string_value (snd kv) in
       match k with
       | Some k => if negb (String.eqb k "") then dset result k v else result
       | None => result
       end)
    (zip keys values) [].

Definition _is_field_definition (node : expr) : bool :=
  match node with
  | Call (Attribute (Name id) attr) _ _ =>
      if String.eqb id "fields" then mem attr FIELD_TYPES else false
  | _ => false
  end.

(** The body of [for keyword in node.keywords]. *)
Definition parse_keyword (field : ModelField) (keyword : option string * expr)
  : ModelField :=
  let value := snd keyword in
  let with_ c r cp st rq ro s :=
    mkModelField (f_name field) (field_type field) c r cp st rq ro s in
  let c := comodel_name field in
  let r := related field in
  let cp := compute field in
  let st := store field in
  let rq := required field in
  let ro := readonly field in
  let s := string_ field in
  match fst keyword with
  | None => field
  | Some arg =>
      if String.eqb arg "comodel_name"
      then with_ (OConst (CStr (_get_string_value value))) r cp st rq ro s
      else if String.eqb arg "related"
      then with_ c (Some (_get_string_value value)) cp st rq ro s
      else if String.eqb arg "compute"
      then with_ c r (Some (_get_string_value value)) st rq ro s
      else if String.eqb arg "store"
      then with_ c r cp (_get_bool_value value) rq ro s
      else if String.eqb arg "required"
      then with_ c r cp st (_get_bool_value value) ro s
      else if String.eqb arg "readonly"
      then with_ c r cp st rq (_get_bool_value value) s
      else if String.eqb arg "string"
      then with_ c r cp st rq ro (_get_string_value value)
      else field
  end.

Definition _parse_field (name : string) (node : expr) : option ModelField :=
  match node with
  | Call (Attribute _ field_type) args keywords =>
      if negb (mem field_type FIELD_TYPES) then None
      else
        let field :=
          mkModelField name field_type None_ None None true false false "" in
        let field := fold_left parse_keyword keywords field in
        let field :=
          if mem field_type ["Many2one"; "One2many"; "Many2many"] then
            match args with
            | Constant value :: _ =>
                mkModelField (f_name field) field_type
                             (OConst value) (related field) (compute field)
                             (store field) (required field) (readonly field)
                             (string_ field)
            | _ => field
            end
          else field in
        Some field
  | _ => None
  end.

(** The state of the loop of [_parse_class]. *)
Definition class_state := (OdooModel * bool)%type.

Definition set_fields (model : OdooModel) (fs : dict ModelField) : OdooModel :=
  mkOdooModel (name model) (inherit model) (inherits model)
              (description model) fs (methods model)
              (module model) (file_path model).

(** The first [if isinstance(item, ast.Assign)] branch, for one target. *)
Definition parse_target (value : expr) (st : class_state) (target : expr)
  : class_state :=
  let '(model, is_odoo_model) := st in
  match target with
  | Name attr_name =>
      if String.eqb attr_name "_name" then
        (mkOdooModel (OConst (CStr (_get_string_value value)))
                     (inherit model) (inherits model) (description model)
                     (fields model) (methods model)
                     (module model) (file_path model), true)
      else if String.eqb attr_name "_inherit" then
        match _get_value value with
        | OConst (CStr s) =>
            (mkOdooModel (name model) [OConst (CStr s)] (inherits model)
                         (description model) (fields model) (methods model)
                         (module model) (file_path model), true)
        | OList l =>
            (mkOdooModel (name model) l (inherits model)
                         (description model) (fields model) (methods model)
                         (module model) (file_path model), true)
        | _ => st
        end
      else if String.eqb attr_name "_inherits" then
        match value with
        | Dict keys values =>
            (mkOdooModel (name model) (inherit model)
                         (_parse_dict keys values)
                         (description model) (fields model) (methods model)
                         (module model) (file_path model), is_odoo_model)
        | _ => st
        end
      else if String.eqb attr_name "_description" then
        (mkOdooModel (name model) (inherit model) (inherits model)
                     (_get_string_value value) (fields model) (methods model)
                     (module model) (file_path model), is_odoo_model)
      else if mem attr_name FIELD_TYPES || _is_field_definition value then
        match _parse_field attr_name value with
        | Some field =>
            (set_fields model (dset (fields model) attr_name field),
             is_odoo_model)
        | None => st
        end
      else st
  | _ => st
  end.

(** The second [elif isinstance(item, ast.Assign)] branch, for one
    target. *)
Definition parse_field_target (value : expr) (st : class_state)
           (target : expr) : class_state :=
  let '(model, is_odoo_model) := st in
  match target with
  | Name id =>
      if _is_field_definition value then
        match _parse_field id value with
        | Some field =>
            (set_fields model (dset (fields model) id field), true)
        | None => st
        end
      else st
  | _ => st
  end.

(** [isinstance(item, ast.Assign)], with the parts of the statement. *)
Definition as_Assign (item : stmt) : option (list expr * expr) :=
  match item with
  | Assign targets value => Some (targets, value)
  | _ => None
  end.

(** The body of [for item in node.body]: the [if]/[elif] chain in the
    order of the source. *)
Definition parse_item (st : class_state) (item : stmt) : class_state :=
  match as_Assign item with
  | Some (targets, value) => fold_left (parse_target value) targets st
  | None =>
      match as_Assign item with
      | Some (targets, value) =>
          fold_left (parse_field_target value) targets st
      | None =>
          match item with
          | FunctionDef fname =>
              let '(model, is_odoo_model) := st in
              (mkOdooModel (name model) (inherit model) (inherits model)
                           (description model) (fields model)
                           (methods model ++ [fname])
                           (module model) (file_path model), is_odoo_model)
          | _ => st
          end
      end
  end.

(** [_parse_class(node, module_name, file_path)] on the body of the
    class definition [node]. *)
Definition _parse_class (body : list stmt) (module_name file_path' : string)
  : option OdooModel :=
  let model :=
    mkOdooModel (OConst (CStr "")) [] [] "" [] [] module_name file_path' in
  let '(model, is_odoo_model) := fold_left parse_item body (model, false) in
  let '(model, is_odoo_model) :=
    if negb (truth (name model)) && truth (OList (inherit model)) then
      (mkOdooModel
         (match inherit model with [x] => x | _ => None_ end)
         (inherit model) (inherits model) (description model)
         (fields model) (methods model) (module model) (file_path model),
       true)
    else (model, is_odoo_model) in
  if is_odoo_model then Some model else None.

(** *** UpgradeAnalyzer *)

Record VersionDiff : Type := mkVersionDiff {
  added_modules : list string;
  removed_modules : list string;
  (** [{"name": ..., "changes": ...}] *)
  modified_modules : list (string * list string);
  (** [{"module": ..., "added_dependencies": ...,
        "removed_dependencies": ...}] *)
  dependency_changes : list (string * list string * list string)
}.

Record UpgradeImpact : Type := mkUpgradeImpact {
  module_name : string;
  direct_dependents : list string;
  all_dependents : list string;
  affected_models : list string;
  risk_level : string;
  risk_factors : list string;
  recommendations : list string
}.

Record UpgradeAnalyzer : Type := mkUpgradeAnalyzer {
  source_analyzer : option OdooModuleAnalyzer;
  target_analyzer : option OdooModuleAnalyzer;
  models : dict OdooModel
}.

(** [UpgradeAnalyzer()] *)
Definition __init__ : UpgradeAnalyzer := mkUpgradeAnalyzer None None [].

Definition cat (l : list string) : string := String.concat "" l.

Definition string_of_nat (n : nat) : string :=
  NilEmpty.string_of_uint (Nat.to_uint n).

(** [set(a) != set(b)] *)
Definition set_neqb (a b : list string) : bool :=
  negb (forallb (fun x => mem x b) a && forallb (fun x => mem x a) b).

Definition _compare_module (source target : OdooModule) : list string :=
  let changes := [] in
  let changes :=
    if negb (String.eqb (analyzer.version source) (analyzer.version target))
    then changes ++ [cat ["版本变更: "; analyzer.version source; " → ";
                          analyzer.version target]]
    else changes in
  let changes :=
    if negb (String.eqb (analyzer.category source) (analyzer.category target))
    then changes ++ [cat ["分类变更: "; analyzer.category source; " → ";
                          analyzer.category target]]
    else changes in
  let changes :=
    if negb (Bool.eqb (analyzer.application source)
                      (analyzer.application target))
    then
      let status := if analyzer.application target then "是" else "否" in
      changes ++ [cat ["应用状态变更: "; status]]
    else changes in
  let changes :=
    if set_neqb (analyzer.depends source) (analyzer.depends target)
    then changes ++ ["依赖关系已变更"]
    else changes in
  changes.

Definition compare_versions (self : UpgradeAnalyzer) : outcome VersionDiff :=
  match source_analyzer self, target_analyzer self with
  | Some source, Some target =>
      let source_modules := set_of_list (dkeys (modules source)) in
      let target_modules := set_of_list (dkeys (modules target)) in
      let added := sorted (set_diff target_modules source_modules) in
      let removed := sorted (set_diff source_modules target_modules) in
      let common_modules := sorted (set_inter source_modules target_modules) in
      let modified :=
        fold_left
          (fun acc name =>
             match dget (modules source) name, dget (modules target) name with
             | Some source_mod, Some target_mod =>
                 match _compare_module source_mod target_mod with
                 | [] => acc
                 | changes => acc ++ [(name, changes)]
                 end
             | _, _ => acc
             end)
          common_modules [] in
      let dep_changes :=
        fold_left
          (fun acc name =>
             match dget (modules source) name, dget (modules target) name with
             | Some source_mod, Some target_mod =>
                 let source_deps := set_of_list (analyzer.depends source_mod) in
                 let target_deps := set_of_list (analyzer.depends target_mod) in
                 let added_deps := set_diff target_deps source_deps in
                 let removed_deps := set_diff source_deps target_deps in
                 match added_deps, removed_deps with
                 | [], [] => acc
                 | _, _ => acc ++ [(name, sorted added_deps, sorted removed_deps)]
                 end
             | _, _ => acc
             end)
          common_modules [] in
      Return (mkVersionDiff added removed modified dep_changes)
  | _, _ => Raise (ValueError "请先加载源版本和目标版本")
  end.

(** [for dep in impact.direct_dependents: all_dependents.add(dep);
     all_dependents.update(analyzer.get_reverse_dependencies(dep))] *)
Fixpoint collect_dependents (analyzer : OdooModuleAnalyzer)
         (direct : list string) (all_dependents : list string)
  : list string * OdooModuleAnalyzer :=
  match direct with
  | [] => (all_dependents, analyzer)
  | dep :: rest =>
      let all_dependents := set_add dep all_dependents in
      let '(rdeps, analyzer) := get_reverse_dependencies analyzer dep in
      collect_dependents analyzer rest (set_update all_dependents rdeps)
  end.

(** The risk tier and its factors from the two counts. *)
Definition assess_risk (module_name : string)
           (dependent_count model_count : nat) : string * list string :=
  let '(risk_level, risk_factors) :=
    if Nat.ltb 50 dependent_count || mem module_name CORE_MODULES then
      ("critical",
       [cat ["核心模块，"; string_of_nat dependent_count; " 个模块依赖此模块"]])
    else if Nat.ltb 20 dependent_count then
      ("high",
       [cat ["高影响模块，"; string_of_nat dependent_count; " 个模块依赖此模块"]])
    else if Nat.ltb 5 dependent_count then
      ("medium",
       [cat ["中等影响，"; string_of_nat dependent_count; " 个模块依赖此模块"]])
    else ("low", []) in
  if Nat.ltb 10 model_count then
    (if String.eqb risk_level "low" then "medium" else risk_level,
     risk_factors ++ [cat ["定义了 "; string_of_nat model_count; " 个模型"]])
  else (risk_level, risk_factors).

Definition recommend (risk_level : string) : list string :=
  if String.eqb risk_level "critical" then
    ["⚠️ 建议在测试环境充分测试后再升级"; "📋 制定详细的回滚计划";
     "📊 升级前备份数据库"]
  else if String.eqb risk_level "high" then
    ["🔍 仔细检查所有依赖模块的兼容性"; "📊 建议先在测试环境验证"]
  else if String.eqb risk_level "medium" then
    ["✅ 检查直接依赖模块的兼容性"]
  else ["✅ 可以安全升级"].

Section Impact.
(** [ModelAnalyzer().analyze_module(path)]: the models found in the
    source files under [path].  It reads the file system and runs
    Python's parser, which the assessment takes as given. *)
Variable analyze_module : string -> dict OdooModel.

Definition assess_upgrade_impact (self : UpgradeAnalyzer)
           (module_name : string) (analyzer : OdooModuleAnalyzer)
  : UpgradeImpact * OdooModuleAnalyzer :=
  match dget (modules analyzer) module_name with
  | None =>
      (mkUpgradeImpact module_name [] [] [] "critical"
                       [cat ["模块 "; module_name; " 不存在"]] [],
       analyzer)
  | Some module =>
      let '(rdeps, analyzer) :=
        get_reverse_dependencies analyzer module_name in
      let direct_dependents := sorted rdeps in
      let '(all_dependents, analyzer) :=
        collect_dependents analyzer direct_dependents [] in
      let all_dependents := sorted all_dependents in
      let affected_models :=
        sorted (dkeys (analyze_module (analyzer.path module))) in
      let dependent_count := length all_dependents in
      let model_count := length affected_models in
      let '(risk_level, risk_factors) :=
        assess_risk module_name dependent_count model_count in
      (mkUpgradeImpact module_name direct_dependents all_dependents
                       affected_models risk_level risk_factors
                       (recommend risk_level),
       analyzer)
  end.
End Impact.


(** *** Loading, relationships and upgrade order *)

Section Load.
(** The file system and the manifest parser, as for the scan. *)
Variable root : fsnode.
Variable resolve : string -> Path.
Variable _safe_parse_manifest : string -> Path -> option Manifest.

Definition load_source (self : UpgradeAnalyzer) (paths : list string)
  : UpgradeAnalyzer :=
  let source_analyzer := analyzer.__init__ (Some paths) in
  let source_analyzer :=
    snd (scan_modules root resolve _safe_parse_manifest source_analyzer) in
  let source_analyzer := snd (build_dependency_graph source_analyzer) in
  mkUpgradeAnalyzer (Some source_analyzer) (target_analyzer self)
                    (models self).

Definition load_target (self : UpgradeAnalyzer) (paths : list string)
  : UpgradeAnalyzer :=
  let target_analyzer := analyzer.__init__ (Some paths) in
  let target_analyzer :=
    snd (scan_modules root resolve _safe_parse_manifest target_analyzer) in
  let target_analyzer := snd (build_dependency_graph target_analyzer) in
  mkUpgradeAnalyzer (source_analyzer self) (Some target_analyzer)
                    (models self).
End Load.

(** [{"field": ..., "type": ..., "target": ...}] *)
Record Relationship : Type := mkRelationship {
  rel_field : string;
  rel_type : string;
  rel_target : pyobj
}.

(** [relationships[model_name].append(...)] on a [defaultdict(list)] *)
Definition add_relationship (relationships : dict (list Relationship))
           (model_name : string) (r : Relationship)
  : dict (list Relationship) :=
  dset relationships model_name
       (match dget relationships model_name with
        | Some l => l
        | None => []
        end ++ [r]).

Definition get_model_relationships (self : UpgradeAnalyzer)
  : dict (list Relationship) :=
  fold_left
    (fun relationships nm =>
       fold_left
         (fun relationships kf =>
            if truth (comodel_name (snd kf))
            then add_relationship relationships (fst nm)
                   (mkRelationship (fst kf) (field_type (snd kf))
                                   (comodel_name (snd kf)))
            else relationships)
         (fields (snd nm)) relationships)
    (models self) [].

(** [{"order": ..., "module": ..., "risk_level": ...,
      "dependents_count": ...}] *)
Record UpgradeStep : Type := mkUpgradeStep {
  step_order : nat;
  step_module : string;
  step_risk_level : string;
  dependents_count : nat
}.

Section UpgradeOrder.
Variable analyze_module : string -> dict OdooModel.

(** [for i, mod in enumerate(order)], from the index [i] on. *)
Fixpoint upgrade_steps (self : UpgradeAnalyzer) (i : nat)
         (order : list string) (analyzer : OdooModuleAnalyzer)
  : list UpgradeStep * OdooModuleAnalyzer :=
  match order with
  | [] => ([], analyzer)
  | mod_ :: rest =>
      let '(impact, analyzer) :=
        assess_upgrade_impact analyze_module self mod_ analyzer in
      let step :=
        mkUpgradeStep (i + 1) mod_ (risk_level impact)
                      (length (all_dependents impact)) in
      let '(steps, analyzer) := upgrade_steps self (S i) rest analyzer in
      (step :: steps, analyzer)
  end.

(** [get_upgrade_order]: [None] only if the install order is. *)
Definition get_upgrade_order (self : UpgradeAnalyzer)
           (modules : list string) (analyzer : OdooModuleAnalyzer)
  : option (outcome (list UpgradeStep) * OdooModuleAnalyzer) :=
  match get_install_order analyzer (Some modules) with
  | None => None
  | Some (Raise e, analyzer) => Some (Raise e, analyzer)
  | Some (Return order, analyzer) =>
      let '(result, analyzer) := upgrade_steps self 0 order analyzer in
      Some (Return result, analyzer)
  end.
End UpgradeOrder.

End upgrade_analyzer.

(** ** visualizer.py *)

Module visualizer.
Import analyzer.

Definition COLORS : dict string :=
  [ ("application", "#e74c3c");
    ("core", "#3498db");
    ("external", "#95a5a6");
    ("normal", "#2ecc71");
    ("not_installable", "#f39c12") ].

(** [self.COLORS[key]] for a key of the table. *)
Definition color (key : string) : string :=
  match dget COLORS key with Some c => c | None => "" end.

(** The truth value of [attrs.get(key, default)]. *)
Definition attr (attrs : nx.attrs) (key : string) (default : bool) : bool :=
  match dget attrs key with
  | Some (nx.PyBool b) => b
  | Some (nx.PyStr s) => negb (String.eqb s "")
  | None => default
  end.

Definition _get_node_color (node : string) (attrs : nx.attrs) : string :=
  if attr attrs "is_external" false then color "external"
  else if attr attrs "is_core" false then color "core"
  else if negb (attr attrs "installable" true) then color "not_installable"
  else if attr attrs "application" false then color "application"
  else color "normal".

(** The marker of a line of the tree. *)
Definition marker (attrs : nx.attrs) : string :=
  if attr attrs "is_core" false then "🔵"
  else if attr attrs "is_external" false then "⚪"
  else if attr attrs "application" false then "🔴"
  else "🟢".

(** [graph.nodes.get(child, {})] *)
Definition node_attrs (G : nx.DiGraph) (n : string) : nx.attrs :=
  match dget (nx.node_ G) n with Some a => a | None => [] end.

(** [_add_tree_nodes]: [max_depth] counts down to zero; every call gets
    a copy of [visited], so [visited] holds the nodes on the way from
    the root.  [lines] is the list the calls append to. *)
Fixpoint _add_tree_nodes (max_depth : nat) (G : nx.DiGraph) (node : string)
         (lines : list string) (prefix : string) (visited : list string)
  : list string :=
  match max_depth with
  | O => lines
  | S max_depth' =>
      if mem node visited then lines
      else
        let visited := set_add node visited in
        if negb (nx.has_node G node) then lines
        else
          let successors := nx.neighbors G node in
          snd (fold_left
                 (fun '(i, lines) child =>
                    let is_last := Nat.eqb i (length successors - 1) in
                    let connector := if is_last then "└── " else "├── " in
                    let line :=
                      String.concat ""
                        [prefix; connector; marker (node_attrs G child);
                         " "; child] in
                    let new_prefix :=
                      String.append prefix
                        (if is_last then "    " else "│   ") in
                    (S i,
                     _add_tree_nodes max_depth' G child (lines ++ [line])
                                     new_prefix visited))
                 successors (0, lines))
  end.

(** The lines of [generate_module_tree]; a [max_depth] of zero or less
    ends the first call at once. *)
Definition tree_lines (G : nx.DiGraph) (module_name : string)
           (max_depth : Z) : list string :=
  _add_tree_nodes (Z.to_nat max_depth) G module_name
                  [String.append "📦 " module_name] "" [].

Definition generate_module_tree (self : OdooModuleAnalyzer)
           (module_name : string) (max_depth : Z)
  : string * OdooModuleAnalyzer :=
  let '(G, self) := ensure_graph self in
  (String.concat (String (ascii_of_nat 10) "") (tree_lines G module_name max_depth),
   self).

End visualizer.

(** ** Vocabulary of the specification *)

Module spec.
Import analyzer.

(** [u] declares [v] as a dependency. *)
Definition depends_on (mods : dict OdooModule) (u v : string) : Prop :=
  exists m, In (u, m) mods /\ In v (depends m).

(** [u] depends on [v] through one or more declarations. *)
Definition depends_transitively (mods : dict OdooModule)
  : string -> string -> Prop :=
  clos_trans string (depends_on mods).

(** The dependency graph of [mods] has no cycle. *)
Definition acyclic (mods : dict OdooModule) : Prop :=
  forall x, ~ depends_transitively mods x x.

(** [x] counts among the dependents of [name]: another name that
    depends on [name] through one or more declarations, or [name]
    itself when it lies on a dependency cycle through another name. *)
Definition dependent_of (mods : dict OdooModule) (name x : string) : Prop :=
  (x <> name /\ depends_transitively mods x name)
  \/ (x = name
      /\ exists d, d <> name /\ depends_transitively mods name d
                   /\ depends_transitively mods d name).

Definition has_cycle (mods : dict OdooModule) : Prop :=
  exists x, depends_transitively mods x x.

(** The edge [u -> v] of a graph and its transitive closure. *)
Definition edge (G : nx.DiGraph) (u v : string) : Prop :=
  In v (nx.neighbors G u).

Definition reaches (G : nx.DiGraph) : string -> string -> Prop :=
  clos_trans string (edge G).

Definition nodes (G : nx.DiGraph) : list string := dkeys (nx.succ_ G).

(** [x] stands strictly before [y] in [l]. *)
Definition before (l : list string) (x y : string) : Prop :=
  exists l1 l2, l = l1 ++ y :: l2 /\ In x l1.

(** The analyzer has no graph yet, or the graph of its modules. *)
Definition graph_current (a : OdooModuleAnalyzer) : Prop :=
  graph a = None \/ graph a = Some (dependency_graph (modules a)).

(** The node of a scanned module, and the placeholder of a dependency
    that was not scanned. *)
Definition scanned_node (mods : dict OdooModule) (G : nx.DiGraph)
           (D : string) : Prop :=
  exists m, In (D, m) mods
            /\ dget (nx.node_ G) D = Some (module_attrs D m).

Definition external_node (mods : dict OdooModule) (G : nx.DiGraph)
           (D : string) : Prop :=
  ~ In D (dkeys mods)
  /\ dget (nx.node_ G) D = Some (external_attrs D)
  /\ dget (external_attrs D) "is_external" = Some (nx.PyBool true).

(** The invariants of a [DiGraph]: the three dicts have the same keys,
    adjacency has no repetition, and [_pred] mirrors [_succ]. *)
Record wf (G : nx.DiGraph) : Prop := mk_wf {
  wf_nodup : NoDup (dkeys (nx.succ_ G));
  wf_node_keys : dkeys (nx.node_ G) = dkeys (nx.succ_ G);
  wf_pred_keys : dkeys (nx.pred_ G) = dkeys (nx.succ_ G);
  wf_succ_nodup : forall u, NoDup (nx.neighbors G u);
  wf_pred_nodup : forall v, NoDup (nx.predecessors G v);
  wf_sym : forall u v,
      In v (nx.neighbors G u) <-> In u (nx.predecessors G v);
  wf_succ_dom : forall u v, In v (nx.neighbors G u) -> In u (dkeys (nx.succ_ G));
  wf_pred_dom : forall u v, In u (nx.predecessors G v) -> In v (dkeys (nx.succ_ G))
}.

(** What [add_edge] does first with each end point. *)
Definition ensure_node (G : nx.DiGraph) (u : string) : nx.DiGraph :=
  if dmem (nx.succ_ G) u then G else nx.add_node G u [].

(** What holds of the graph throughout the two loops of
    [build_dependency_graph]. *)
Record node_inv (mods : dict OdooModule) (G : nx.DiGraph) : Prop :=
  mk_node_inv {
    ni_wf : wf G;
    ni_scanned : forall x, In x (dkeys mods) -> In x (nodes G) ->
                           scanned_node mods G x;
    ni_external : forall x, In x (nodes G) -> ~ In x (dkeys mods) ->
                            dget (nx.node_ G) x = Some (external_attrs x)
  }.

(** The nodes of the scanned modules, before any edge. *)
Definition scanned_graph (mods : dict OdooModule) : nx.DiGraph :=
  fold_left (fun G nm => nx.add_node G (fst nm) (module_attrs (fst nm) (snd nm)))
            mods nx.empty.

(** Sample data for the examples. *)
Definition sample_module (n : string) (deps : list string) : OdooModule :=
  mkOdooModule n (String.append "/addons/" n) "1.0" "" "" "" "" deps []
               true false false "LGPL-3".

Definition analyzer_of (mods : list (string * list string))
  : OdooModuleAnalyzer :=
  mkAnalyzer []
    (map (fun nd => (fst nd, sample_module (fst nd) (snd nd))) mods) None.

Definition sample_analyzer : OdooModuleAnalyzer :=
  analyzer_of [("sale_ext", ["sale"])].

(** The nodes of the graph: the scanned modules and the names they
    depend on. *)
Definition graph_node (mods : dict OdooModule) (v : string) : Prop :=
  In v (dkeys mods) \/ exists u, depends_on mods u v.

(** A module analysis that finds no model, and one that finds two. *)
Definition no_models : string -> dict upgrade_analyzer.OdooModel :=
  fun _ => [].

Definition two_models : string -> dict upgrade_analyzer.OdooModel :=
  fun path =>
    [("z.one", upgrade_analyzer.mkOdooModel
                 (upgrade_analyzer.OConst (upgrade_analyzer.CStr "z.one"))
                 [] [] "" [] [] "z" path);
     ("z.two", upgrade_analyzer.mkOdooModel
                 (upgrade_analyzer.OConst (upgrade_analyzer.CStr "z.two"))
                 [] [] "" [] [] "z" path)].

(** The module [z] with the three dependents [a], [b] (through [a])
    and [c]; a module with [n] modules [m1], ..., [mn] that declare
    it. *)
Definition three_dependents : list (string * list string) :=
  [("z", []); ("a", ["z"]); ("b", ["a"]); ("c", ["z"])].

Definition star_dependents (n : nat) : list string :=
  map (fun i => String.append "m" (upgrade_analyzer.string_of_nat i))
      (seq 1 n).

Definition star (centre : string) (n : nat) : list (string * list string) :=
  (centre, []) :: map (fun d => (d, [centre])) (star_dependents n).

(** A file system with a module in a dot directory at each level, a
    resolution that splits at the slashes of [/addons], and a manifest
    parser that accepts every file. *)
Definition sample_module_dir : fsnode :=
  Dir [("__init__.py", File ""); ("__manifest__.py", File "{}")].

Definition sample_fs : fsnode :=
  Dir [("addons",
        Dir [(".git", sample_module_dir);
             ("grp", Dir [(".hidden", sample_module_dir)])])].

Definition sample_resolve (p : string) : Path :=
  if String.eqb p "/addons" then ["addons"] else [p].

Definition sample_parser (content : string) (p : Path) : option Manifest :=
  Some (mkManifest None None None None None None None None None None None).

(** Equality of two lists as sets. *)
Definition same_set (a b : list string) : Prop :=
  forall x, In x a <-> In x b.

(** Consecutive elements of [l] are related by [R]. *)
Fixpoint linked (R : string -> string -> Prop) (l : list string) : Prop :=
  match l with
  | [] => True
  | x :: t => match t with
              | [] => True
              | y :: _ => R x y /\ linked R t
              end
  end.

(** [c] lists distinct modules, each declaring the next as a
    dependency and the last declaring the first. *)
Definition dependency_cycle (mods : dict OdooModule) (c : list string)
  : Prop :=
  c <> [] /\ NoDup c /\ linked (depends_on mods) c
  /\ depends_on mods (last c "") (hd "" c).

(** A walk of [k] edges from [u] to [v]. *)
Fixpoint hops (R : string -> string -> Prop) (k : nat) (u v : string)
  : Prop :=
  match k with
  | O => u = v
  | S k' => exists w, R u w /\ hops R k' w v
  end.

(** The declared dependencies of [m] that are neither scanned nor core,
    as [find_missing_dependencies] selects them. *)
Definition missing_of (mods : dict OdooModule) (m : OdooModule)
  : list string :=
  filter (fun dep => negb (dmem mods dep) && negb (mem dep CORE_MODULES))
         (depends m).

(** Every element of [l] is at most the next one. *)
Definition ascending (l : list string) : Prop :=
  linked (fun a b => String.leb a b = true) l.

(** Sample analyzers with a graph, as [load_source] leaves them. *)
Definition loaded (mods : list (string * list string))
  : OdooModuleAnalyzer :=
  snd (build_dependency_graph (analyzer_of mods)).

Section Found.
Variable root : fsnode.
Variable resolve : string -> Path.

(** Where the scan of [paths] looks for a module: a scan path that is a
    module directory itself; below a scan path that is none, a
    directory whose name does not start with a dot and that is a module
    directory; or a module directory inside such a directory that is
    none. *)
Definition found_at (paths : list string) (p : Path) : Prop :=
  exists base,
    In base paths /\ is_dir root (resolve base) = true
    /\ _is_odoo_module root p = true
    /\ (p = resolve base
        \/ (_is_odoo_module root (resolve base) = false
            /\ exists c, p = resolve base ++ [c]
                 /\ is_dir root p = true
                 /\ String.prefix "." c = false)
        \/ (_is_odoo_module root (resolve base) = false
            /\ exists c c', p = resolve base ++ [c] ++ [c']
                 /\ is_dir root (resolve base ++ [c]) = true
                 /\ String.prefix "." c = false
                 /\ _is_odoo_module root (resolve base ++ [c]) = false
                 /\ is_dir root p = true)).

End Found.


(** The same with an unreadable directory listed before the module. *)
Definition locked_fs : fsnode :=
  Dir [("addons", Dir [("private", Unreadable []);
                       ("sale_ext", sample_module_dir)])].

(** The names of the function definitions of a class body, in order. *)
Definition function_names (body : list upgrade_analyzer.stmt)
  : list string :=
  flat_map (fun item => match item with
                        | upgrade_analyzer.FunctionDef fname => [fname]
                        | _ => []
                        end) body.

(** The attributes of a class that [_parse_class] reads for the model
    itself. *)
Definition class_attributes : list string :=
  ["_name"; "_inherit"; "_inherits"; "_description"].

(** The field assignments of a class body, in order: for every
    assignment [k = value], with [k] a plain name that is no class
    attribute, where [k] is the name of a field type or [value] is a
    call [fields.T(...)] of a field type [T], the field [_parse_field]
    reads from [value], if any. *)
Definition field_target (value : upgrade_analyzer.expr)
           (target : upgrade_analyzer.expr)
  : list (string * upgrade_analyzer.ModelField) :=
  match target with
  | upgrade_analyzer.Name k =>
      if mem k class_attributes then []
      else if mem k upgrade_analyzer.FIELD_TYPES
              || upgrade_analyzer._is_field_definition value
           then match upgrade_analyzer._parse_field k value with
                | Some field => [(k, field)]
                | None => []
                end
           else []
  | _ => []
  end.

Definition field_assignments (body : list upgrade_analyzer.stmt)
  : list (string * upgrade_analyzer.ModelField) :=
  flat_map (fun item => match item with
                        | upgrade_analyzer.Assign targets value =>
                            flat_map (field_target value) targets
                        | _ => []
                        end) body.

(** All declared dependencies, with repetition, in the order of the
    mapping, and the number of declarations of a name. *)
Definition declared (mods : dict OdooModule) : list string :=
  flat_map (fun nm => depends (snd nm)) mods.

Definition declarations (mods : dict OdooModule) (d : string) : nat :=
  count_occ string_dec (declared mods) d.

(** No element of [l] is followed by a greater one. *)
Fixpoint descending (l : list nat) : Prop :=
  match l with
  | [] => True
  | x :: t => (forall y, In y t -> y <= x) /\ descending t
  end.

(** The entries [get_model_relationships] makes for the fields [fs]:
    one for every field whose [comodel_name] is true, in order. *)
Definition relations_of
           (fs : dict upgrade_analyzer.ModelField)
  : list upgrade_analyzer.Relationship :=
  map (fun kf => upgrade_analyzer.mkRelationship
                   (fst kf)
                   (upgrade_analyzer.field_type (snd kf))
                   (upgrade_analyzer.comodel_name (snd kf)))
      (filter (fun kf => upgrade_analyzer.truth
                           (upgrade_analyzer.comodel_name (snd kf)))
              fs).

(** A line of the dependency tree that shows the name [v]: some prefix
    (indentation, connector and marker), a space and the name. *)
Definition tree_entry (line v : string) : Prop :=
  exists pre, line = String.append pre (String.append " " v).
End spec.

(** ** Invariants of the loops *)

Module inv.
Import spec.

Section Bfs.
Variable nbrs : string -> list string.
Variable all : list string.
Variable source : string.

(** The state of the search: [seen] is the source followed by the targets
    of the edges yielded, without repetition; every seen node is reached
    from the source; the next layer lists seen nodes with their
    neighbours. *)
Record bfs_inv (st : nx.bfs_state) : Prop := mk_bfs_inv {
  bi_seen : nx.seen st = source :: map snd (nx.yielded st);
  bi_nodup : NoDup (nx.seen st);
  bi_reach : forall x, In x (nx.seen st) ->
                       clos_refl_trans string (fun a b => In b (nbrs a))
                                       source x
                       /\ In x all;
  bi_nxt : forall p cs, In (p, cs) (nx.nxt st) ->
                        In p (nx.seen st) /\ cs = nbrs p
}.

(** Every seen node has all its neighbours seen, unless it still waits
    in the layer [F] or in the next one. *)
Definition bfs_closed (F : list string) (st : nx.bfs_state) : Prop :=
  forall x y, In x (nx.seen st) -> In y (nbrs x) ->
              In y (nx.seen st) \/ In x F \/ In x (map fst (nx.nxt st)).
End Bfs.

Section Kahn.
Variable G : nx.DiGraph.

(** The predecessors of [v] outside [P]. *)
Definition pending (P : list string) (v : string) : Z :=
  Z.of_nat (length (filter (fun u => negb (mem u P)) (nx.predecessors G v))).

(** [imap] holds exactly the nonzero values of [D]. *)
Definition imap_of (D : string -> Z) (imap : dict Z) : Prop :=
  NoDup (dkeys imap)
  /\ forall v, dget imap v = if (D v =? 0)%Z then None else Some (D v).

(** [P] are the nodes whose edges were removed, [S] those that reached
    in-degree zero, in that order. *)
Record kahn_inv (P S : list string) (imap : dict Z) : Prop := mk_kahn_inv {
  ki_nodup : NoDup S;
  ki_done : incl P S;
  ki_map : imap_of (pending P) imap;
  ki_mem : forall v, In v S <-> In v (nodes G) /\ pending P v = 0%Z;
  ki_before : forall u v, In v S -> In u (nx.predecessors G v) -> before S u v
}.

(** What the loop returns: the whole order, or a state in which some
    node still has a predecessor left. *)
Definition kahn_result (r : outcome (list string)) : Prop :=
  match r with
  | Return l => kahn_inv l l []
  | Raise e =>
      (exists msg, e = NetworkXUnfeasible msg)
      /\ exists P imap, kahn_inv P P imap /\ imap <> []
  end.

(** Consecutive elements are joined by edges. *)
Fixpoint chain (l : list string) : Prop :=
  match l with
  | [] => True
  | x :: t => match t with
              | [] => True
              | y :: _ => edge G x y /\ chain t
              end
  end.

(** The last element is joined to the first. *)
Definition closes (c : list string) : Prop :=
  edge G (last c "") (hd "" c).

(** A cycle that visits no node twice. *)
Definition elementary_cycle (c : list string) : Prop :=
  c <> [] /\ NoDup c /\ chain c /\ closes c.
End Kahn.

(** [c'] lists the elements of [c] from another starting point. *)
Definition rotation (c c' : list string) : Prop :=
  exists a b, c = a ++ b /\ c' = b ++ a.

(** What the loop of the sort never increases: the entries of
    [indegree_map] plus the nodes of the next generation. *)
Definition sort_measure (st : dict Z * list string) : nat :=
  length (fst st) + length (snd st).

Import upgrade_analyzer.

(** The targets through which [parse_target] marks the class as a
    model: [_name], and [_inherit] with a string, list or tuple. *)
Definition marks_model (value : expr) (target : expr) : bool :=
  match target with
  | Name attr_name =>
      if String.eqb attr_name "_name" then true
      else if String.eqb attr_name "_inherit" then
             match _get_value value with
             | OConst (CStr _) => true
             | OList _ => true
             | _ => false
             end
           else false
  | _ => false
  end.

Definition item_marks_model (item : stmt) : bool :=
  match item with
  | Assign targets value => existsb (marks_model value) targets
  | _ => false
  end.

(** A model with inherited names is already marked. *)
Definition flag_inv (st : class_state) : Prop :=
  inherit (fst st) = [] \/ snd st = true.

(** The count a [defaultdict(int)] holds for a key. *)
Definition count_of (c : dict nat) (d : string) : nat :=
  match dget c d with Some n => n | None => 0 end.

(** The keys of the counts are distinct, and no stored count is zero. *)
Definition counts_ok (c : dict nat) : Prop :=
  NoDup (dkeys c) /\ forall d, dget c d <> Some 0.

Section ShortestPaths.
Variable adj : string -> list string.
Variable all : list string.
Variable source : string.

(** A walk of [k] edges along [adj]. *)
Definition walk (k : nat) : string -> string -> Prop :=
  hops (fun a b => In b (adj a)) k.

(** At the head of the loop with the level [L]: the pairs yielded list
    the nodes seen, each with the length of a shortest walk from the
    source; every node within [L] edges is seen; the next level holds
    the nodes yielded with [L]. *)
Record sp_inv (L : nat) (st : nx.sp_state) : Prop := mk_sp_inv {
  si_fst : map fst (nx.sp_out st) = nx.sp_seen st;
  si_nodup : NoDup (nx.sp_seen st);
  si_all : incl (nx.sp_seen st) all;
  si_dist : forall v d, In (v, d) (nx.sp_out st) ->
                        d <= L /\ walk d source v
                        /\ forall j, j < d -> ~ walk j source v;
  si_within : forall v d, d <= L -> walk d source v ->
                          In v (nx.sp_seen st);
  si_next : forall v, In v (nx.sp_next st) <-> In (v, L) (nx.sp_out st)
}.

(** What the search returns: the nodes reached from the source, each
    once, with the length of a shortest walk. *)
Definition sp_final (out : list (string * nat)) : Prop :=
  NoDup (map fst out)
  /\ (forall v d, In (v, d) out ->
                  walk d source v /\ forall j, j < d -> ~ walk j source v)
  /\ (forall v k, walk k source v -> In v (map fst out)).
End ShortestPaths.
End inv.

(* ================================================================== *)
(** * Part II. Properties *)
(* ================================================================== *)

(** ** Python containers *)

Section DictFacts.
Variable V : Type.
Implicit Types (d : dict V) (k : string) (v : V).

Lemma dget_dset d k v k' :
  dget (dset d k v) k' = if String.eqb k k' then Some v else dget d k'.
Proof.
  induction d as [|[k0 v0] d IH]; simpl.
  - destruct (String.eqb k k'); reflexivity.
  - destruct (String.eqb k0 k) eqn:E0; simpl.
    + apply String.eqb_eq in E0; subst k0.
      destruct (String.eqb k k'); reflexivity.
    + destruct (String.eqb k0 k') eqn:E1.
      * apply String.eqb_eq in E1; subst k0.
        rewrite String.eqb_sym, E0. reflexivity.
      * exact IH.
Qed.

Lemma dget_Some_In d k v : dget d k = Some v -> In (k, v) d.
Proof.
  induction d as [|[k0 v0] d IH]; simpl; [discriminate|].
  destruct (String.eqb k0 k) eqn:E.
  - apply String.eqb_eq in E; subst. intros [= ->]. now left.
  - intros H. right. auto.
Qed.

Lemma dget_None_keys d k : dget d k = None <-> ~ In k (dkeys d).
Proof.
  induction d as [|[k0 v0] d IH]; simpl.
  - tauto.
  - destruct (String.eqb k0 k) eqn:E.
    + apply String.eqb_eq in E. split; [discriminate|]. intros H. tauto.
    + apply String.eqb_neq in E. rewrite IH. tauto.
Qed.

Lemma dmem_keys d k : dmem d k = true <-> In k (dkeys d).
Proof.
  unfold dmem. destruct (dget d k) eqn:E.
  - split; [|reflexivity]. intros _.
    apply dget_Some_In in E. apply (in_map fst) in E. exact E.
  - apply dget_None_keys in E. split; [discriminate|tauto].
Qed.

Lemma dmem_false_keys d k : dmem d k = false <-> ~ In k (dkeys d).
Proof.
  rewrite <- dmem_keys. destruct (dmem d k); split; congruence.
Qed.

Lemma In_dget_nodup d k v :
  NoDup (dkeys d) -> In (k, v) d -> dget d k = Some v.
Proof.
  induction d as [|[k0 v0] d IH]; simpl; [tauto|].
  intros ND [H|H].
  - inversion H; subst. now rewrite String.eqb_refl.
  - inversion ND as [|? ? Hn ND']; subst.
    destruct (String.eqb k0 k) eqn:E.
    + apply String.eqb_eq in E; subst. exfalso. apply Hn.
      apply (in_map fst) in H. exact H.
    + auto.
Qed.

Lemma dkeys_dset d k v :
  dkeys (dset d k v) = if dmem d k then dkeys d else dkeys d ++ [k].
Proof.
  unfold dmem.
  induction d as [|[k0 v0] d IH]; simpl; [reflexivity|].
  destruct (String.eqb k0 k) eqn:E; simpl; [reflexivity|].
  rewrite IH. destruct (dget d k); reflexivity.
Qed.

Lemma length_dset_present d k v :
  dmem d k = true -> length (dset d k v) = length d.
Proof.
  intros H. pose proof (dkeys_dset d k v) as K. rewrite H in K.
  apply (f_equal (@length _)) in K. unfold dkeys in K.
  now rewrite !length_map in K.
Qed.

Lemma length_ddel_present d k :
  dmem d k = true -> S (length (ddel d k)) = length d.
Proof.
  unfold dmem.
  induction d as [|[k0 v0] d IH]; simpl; [discriminate|].
  destruct (String.eqb k0 k) eqn:E; simpl; [reflexivity|].
  intros H. now rewrite IH.
Qed.

Lemma dget_ddel d k k' :
  NoDup (dkeys d) ->
  dget (ddel d k) k' = if String.eqb k k' then None else dget d k'.
Proof.
  induction d as [|[k0 v0] d IH]; simpl; intros ND.
  - now destruct (String.eqb k k').
  - inversion ND as [|? ? Hn ND']; subst.
    destruct (String.eqb k0 k) eqn:E.
    + apply String.eqb_eq in E; subst k0.
      destruct (String.eqb k k') eqn:E'; [|reflexivity].
      apply String.eqb_eq in E'; subst. now apply dget_None_keys.
    + simpl. destruct (String.eqb k0 k') eqn:E'.
      * apply String.eqb_eq in E'; subst.
        now rewrite String.eqb_sym, E.
      * now apply IH.
Qed.

Lemma dkeys_ddel_incl d k : incl (dkeys (ddel d k)) (dkeys d).
Proof.
  induction d as [|[k0 v0] d IH]; simpl; [easy|].
  destruct (String.eqb k0 k); simpl.
  - now apply incl_tl.
  - intros x [->|H]; [now left|right; now apply IH].
Qed.

Lemma nodup_dkeys_ddel d k : NoDup (dkeys d) -> NoDup (dkeys (ddel d k)).
Proof.
  induction d as [|[k0 v0] d IH]; simpl; intros ND; [constructor|].
  inversion ND as [|? ? Hn ND']; subst.
  destruct (String.eqb k0 k); simpl; [assumption|].
  constructor; [|auto]. intros H. apply Hn. now apply (dkeys_ddel_incl d k).
Qed.

Lemma nodup_dkeys_dset d k v : NoDup (dkeys d) -> NoDup (dkeys (dset d k v)).
Proof.
  intros ND. rewrite dkeys_dset. destruct (dmem d k) eqn:E; [assumption|].
  apply dmem_false_keys in E.
  apply NoDup_app; [assumption|repeat constructor; easy|].
  intros x Hx [<-|[]]. contradiction.
Qed.
End DictFacts.

Lemma mem_In x l : mem x l = true <-> In x l.
Proof.
  unfold mem. rewrite existsb_exists. split.
  - intros (y & Hy & E). apply String.eqb_eq in E. now subst.
  - intros H. exists x. split; [assumption|apply String.eqb_refl].
Qed.

Lemma mem_false x l : mem x l = false <-> ~ In x l.
Proof.
  rewrite <- mem_In. destruct (mem x l); split; congruence.
Qed.

Lemma set_add_In x s y : In y (set_add x s) <-> y = x \/ In y s.
Proof.
  unfold set_add. destruct (mem x s) eqn:E.
  - apply mem_In in E. split; [tauto|]. intros [->|H]; assumption.
  - rewrite in_app_iff. simpl. intuition congruence.
Qed.

Lemma set_add_nodup x s : NoDup s -> NoDup (set_add x s).
Proof.
  intros ND. unfold set_add. destruct (mem x s) eqn:E; [assumption|].
  apply mem_false in E. apply NoDup_app; [assumption|repeat constructor; easy|].
  intros y Hy [<-|[]]. contradiction.
Qed.

Lemma set_update_In xs : forall s y,
  In y (set_update s xs) <-> In y s \/ In y xs.
Proof.
  unfold set_update.
  induction xs as [|x xs IH]; simpl; intros s y; [tauto|].
  rewrite IH, set_add_In. intuition congruence.
Qed.

Lemma set_update_nodup xs : forall s, NoDup s -> NoDup (set_update s xs).
Proof.
  unfold set_update.
  induction xs as [|x xs IH]; simpl; intros s ND; [assumption|].
  apply IH. now apply set_add_nodup.
Qed.

Lemma set_of_list_In xs y : In y (set_of_list xs) <-> In y xs.
Proof. unfold set_of_list. rewrite set_update_In. simpl. tauto. Qed.

Lemma set_of_list_nodup xs : NoDup (set_of_list xs).
Proof. apply set_update_nodup. constructor. Qed.

Lemma insert_sorted_perm x l : Permutation (insert_sorted x l) (x :: l).
Proof.
  induction l as [|y l IH]; simpl; [reflexivity|].
  destruct (String.leb x y); [reflexivity|].
  rewrite IH. apply perm_swap.
Qed.

Lemma sorted_perm l : Permutation (sorted l) l.
Proof.
  induction l as [|x l IH]; simpl; [constructor|].
  rewrite insert_sorted_perm. now constructor.
Qed.

Lemma sorted_In l x : In x (sorted l) <-> In x l.
Proof.
  split; apply Permutation_in; [|symmetry]; apply sorted_perm.
Qed.

Lemma sorted_length l : length (sorted l) = length l.
Proof. apply Permutation_length, sorted_perm. Qed.

Lemma sorted_nodup l : NoDup l -> NoDup (sorted l).
Proof.
  intros ND. eapply Permutation_NoDup; [symmetry; apply sorted_perm|assumption].
Qed.

(** ** The invariants of [DiGraph] *)

Section GraphFacts.
Import spec.

Lemma adj_dset (d : dict (list string)) k l k' :
  nx.adj (dset d k l) k' = if String.eqb k k' then l else nx.adj d k'.
Proof.
  unfold nx.adj. rewrite dget_dset. now destruct (String.eqb k k').
Qed.

Lemma adj_dset_nil (d : dict (list string)) k k' :
  dmem d k = false -> nx.adj (dset d k []) k' = nx.adj d k'.
Proof.
  intros H. rewrite adj_dset. destruct (String.eqb k k') eqn:E; [|reflexivity].
  apply String.eqb_eq in E; subst. unfold nx.adj, dmem in *.
  now destruct (dget d k').
Qed.

Lemma adj_In_keys (d : dict (list string)) u v :
  In v (nx.adj d u) -> In u (dkeys d).
Proof.
  unfold nx.adj. destruct (dget d u) eqn:E; [|contradiction].
  intros _. apply dmem_keys. unfold dmem. now rewrite E.
Qed.

Lemma neighbors_add_node G n a x :
  nx.neighbors (nx.add_node G n a) x = nx.neighbors G x.
Proof.
  unfold nx.neighbors, nx.add_node.
  destruct (dmem (nx.succ_ G) n) eqn:E; simpl; [reflexivity|].
  now apply adj_dset_nil.
Qed.

Lemma wf_empty : wf nx.empty.
Proof.
  constructor; simpl; try reflexivity; try constructor;
    try (intros; constructor); try contradiction; tauto.
Qed.

Lemma wf_has_node G n : wf G -> nx.has_node G n = dmem (nx.succ_ G) n.
Proof.
  intros W. unfold nx.has_node.
  destruct (dmem (nx.succ_ G) n) eqn:E.
  - apply dmem_keys. rewrite (wf_node_keys W). now apply dmem_keys.
  - apply dmem_false_keys. rewrite (wf_node_keys W). now apply dmem_false_keys.
Qed.

Lemma wf_pred_mem G n : wf G -> dmem (nx.pred_ G) n = dmem (nx.succ_ G) n.
Proof.
  intros W.
  destruct (dmem (nx.succ_ G) n) eqn:E.
  - apply dmem_keys. rewrite (wf_pred_keys W). now apply dmem_keys.
  - apply dmem_false_keys. rewrite (wf_pred_keys W). now apply dmem_false_keys.
Qed.

Lemma predecessors_add_node G n a x :
  wf G -> nx.predecessors (nx.add_node G n a) x = nx.predecessors G x.
Proof.
  intros W. unfold nx.predecessors, nx.add_node.
  destruct (dmem (nx.succ_ G) n) eqn:E; simpl; [reflexivity|].
  apply adj_dset_nil. now rewrite wf_pred_mem.
Qed.

Lemma nodes_add_node G n a :
  nodes (nx.add_node G n a)
  = if dmem (nx.succ_ G) n then nodes G else nodes G ++ [n].
Proof.
  unfold nodes, nx.add_node.
  destruct (dmem (nx.succ_ G) n) eqn:E; simpl; [reflexivity|].
  now rewrite dkeys_dset, E.
Qed.

Lemma nodes_add_node_In G n a x :
  In x (nodes (nx.add_node G n a)) <-> x = n \/ In x (nodes G).
Proof.
  rewrite nodes_add_node. destruct (dmem (nx.succ_ G) n) eqn:E.
  - apply dmem_keys in E. split; [tauto|]. intros [->|H]; assumption.
  - rewrite in_app_iff. simpl. intuition congruence.
Qed.

Lemma wf_add_node G n a : wf G -> wf (nx.add_node G n a).
Proof.
  intros W.
  assert (Hs : forall x, nx.neighbors (nx.add_node G n a) x = nx.neighbors G x)
    by (intros; apply neighbors_add_node).
  assert (Hp : forall x, nx.predecessors (nx.add_node G n a) x
                         = nx.predecessors G x)
    by (intros; now apply predecessors_add_node).
  assert (Hk : forall x, In x (nodes G) -> In x (nodes (nx.add_node G n a)))
    by (intros; apply nodes_add_node_In; now right).
  constructor.
  - fold (nodes (nx.add_node G n a)). rewrite nodes_add_node.
    destruct (dmem (nx.succ_ G) n) eqn:E; [apply W|].
    apply dmem_false_keys in E.
    apply NoDup_app; [apply W|repeat constructor; easy|].
    intros y Hy [<-|[]]. contradiction.
  - unfold nx.add_node. destruct (dmem (nx.succ_ G) n) eqn:E; simpl.
    + rewrite dkeys_dset.
      replace (dmem (nx.node_ G) n) with true; [apply W|].
      symmetry. fold (nx.has_node G n). now rewrite wf_has_node.
    + rewrite !dkeys_dset, E.
      replace (dmem (nx.node_ G) n) with false.
      * now rewrite (wf_node_keys W).
      * symmetry. fold (nx.has_node G n). now rewrite wf_has_node.
  - unfold nx.add_node. destruct (dmem (nx.succ_ G) n) eqn:E; simpl.
    + apply W.
    + rewrite !dkeys_dset, E, wf_pred_mem, E by assumption.
      now rewrite (wf_pred_keys W).
  - intros u. rewrite Hs. apply W.
  - intros v. rewrite Hp. apply W.
  - intros u v. rewrite Hs, Hp. apply W.
  - intros u v. rewrite Hs. intros H. apply Hk. now apply (wf_succ_dom W u v).
  - intros u v. rewrite Hp. intros H. apply Hk. now apply (wf_pred_dom W u v).
Qed.
End GraphFacts.

Section EdgeFacts.
Import spec.

Lemma add_edge_unfold G u v :
  nx.add_edge G u v
  = let G2 := ensure_node (ensure_node G u) v in
    nx.mkDiGraph (nx.node_ G2)
      (dset (nx.succ_ G2) u (set_add v (nx.adj (nx.succ_ G2) u)))
      (dset (nx.pred_ G2) v (set_add u (nx.adj (nx.pred_ G2) v))).
Proof. reflexivity. Qed.

Lemma wf_ensure_node G u : wf G -> wf (ensure_node G u).
Proof.
  intros W. unfold ensure_node.
  destruct (dmem (nx.succ_ G) u); [assumption|now apply wf_add_node].
Qed.

Lemma neighbors_ensure_node G u x :
  nx.neighbors (ensure_node G u) x = nx.neighbors G x.
Proof.
  unfold ensure_node.
  destruct (dmem (nx.succ_ G) u); [reflexivity|apply neighbors_add_node].
Qed.

Lemma predecessors_ensure_node G u x :
  wf G -> nx.predecessors (ensure_node G u) x = nx.predecessors G x.
Proof.
  intros W. unfold ensure_node.
  destruct (dmem (nx.succ_ G) u); [reflexivity|now apply predecessors_add_node].
Qed.

Lemma nodes_ensure_node_In G u x :
  In x (nodes (ensure_node G u)) <-> x = u \/ In x (nodes G).
Proof.
  unfold ensure_node. destruct (dmem (nx.succ_ G) u) eqn:E.
  - apply dmem_keys in E. split; [tauto|]. intros [->|H]; assumption.
  - apply nodes_add_node_In.
Qed.

Lemma ensure_node_present G u :
  dmem (nx.succ_ G) u = true -> ensure_node G u = G.
Proof. unfold ensure_node. now intros ->. Qed.

Lemma nodes_add_edge G u v :
  nodes (nx.add_edge G u v) = nodes (ensure_node (ensure_node G u) v).
Proof.
  rewrite add_edge_unfold. unfold nodes. simpl.
  rewrite dkeys_dset.
  replace (dmem (nx.succ_ (ensure_node (ensure_node G u) v)) u) with true;
    [reflexivity|].
  symmetry. apply dmem_keys.
  apply nodes_ensure_node_In. right. apply nodes_ensure_node_In. now left.
Qed.

Lemma nodes_add_edge_In G u v x :
  In x (nodes (nx.add_edge G u v)) <-> In x (nodes G) \/ x = u \/ x = v.
Proof.
  rewrite nodes_add_edge, !nodes_ensure_node_In. tauto.
Qed.

Lemma neighbors_add_edge G u v x :
  nx.neighbors (nx.add_edge G u v) x
  = if String.eqb u x then set_add v (nx.neighbors G u)
    else nx.neighbors G x.
Proof.
  rewrite add_edge_unfold. unfold nx.neighbors at 1. simpl.
  rewrite adj_dset.
  fold (nx.neighbors (ensure_node (ensure_node G u) v) u).
  fold (nx.neighbors (ensure_node (ensure_node G u) v) x).
  now rewrite !neighbors_ensure_node.
Qed.

Lemma predecessors_add_edge G u v y :
  wf G ->
  nx.predecessors (nx.add_edge G u v) y
  = if String.eqb v y then set_add u (nx.predecessors G v)
    else nx.predecessors G y.
Proof.
  intros W. rewrite add_edge_unfold. unfold nx.predecessors at 1. simpl.
  rewrite adj_dset.
  fold (nx.predecessors (ensure_node (ensure_node G u) v) v).
  fold (nx.predecessors (ensure_node (ensure_node G u) v) y).
  rewrite !predecessors_ensure_node; auto using wf_ensure_node.
Qed.

Lemma edge_add_edge G u v a b :
  In b (nx.neighbors (nx.add_edge G u v) a)
  <-> In b (nx.neighbors G a) \/ (a = u /\ b = v).
Proof.
  rewrite neighbors_add_edge. destruct (String.eqb u a) eqn:E.
  - apply String.eqb_eq in E; subst. rewrite set_add_In. tauto.
  - apply String.eqb_neq in E. intuition congruence.
Qed.

Lemma pred_add_edge G u v a b :
  wf G ->
  In a (nx.predecessors (nx.add_edge G u v) b)
  <-> In a (nx.predecessors G b) \/ (a = u /\ b = v).
Proof.
  intros W. rewrite predecessors_add_edge by assumption.
  destruct (String.eqb v b) eqn:E.
  - apply String.eqb_eq in E; subst. rewrite set_add_In. tauto.
  - apply String.eqb_neq in E. intuition congruence.
Qed.

Lemma wf_add_edge G u v : wf G -> wf (nx.add_edge G u v).
Proof.
  intros W.
  pose proof (wf_ensure_node v (wf_ensure_node u W)) as W2.
  constructor.
  - fold (nodes (nx.add_edge G u v)). rewrite nodes_add_edge. apply W2.
  - fold (nodes (nx.add_edge G u v)). rewrite nodes_add_edge.
    rewrite add_edge_unfold. simpl. apply W2.
  - fold (nodes (nx.add_edge G u v)). rewrite nodes_add_edge.
    rewrite add_edge_unfold. simpl. rewrite dkeys_dset.
    replace (dmem (nx.pred_ (ensure_node (ensure_node G u) v)) v) with true;
      [apply W2|].
    symmetry. rewrite wf_pred_mem by assumption. apply dmem_keys.
    apply nodes_ensure_node_In. now left.
  - intros x. rewrite neighbors_add_edge.
    destruct (String.eqb u x); [apply set_add_nodup|]; apply W.
  - intros x. rewrite predecessors_add_edge by assumption.
    destruct (String.eqb v x); [apply set_add_nodup|]; apply W.
  - intros a b. rewrite edge_add_edge, pred_add_edge by assumption.
    rewrite (wf_sym W). tauto.
  - intros a b. rewrite edge_add_edge. fold (nodes (nx.add_edge G u v)).
    rewrite nodes_add_edge_In. intros [H|[-> ->]]; [left|tauto].
    now apply (wf_succ_dom W a b).
  - intros a b. rewrite pred_add_edge by assumption.
    fold (nodes (nx.add_edge G u v)).
    rewrite nodes_add_edge_In. intros [H|[-> ->]]; [left|tauto].
    now apply (wf_pred_dom W a b).
Qed.

Lemma node_add_edge_present G u v :
  dmem (nx.succ_ G) u = true -> dmem (nx.succ_ G) v = true ->
  nx.node_ (nx.add_edge G u v) = nx.node_ G.
Proof.
  intros Hu Hv. rewrite add_edge_unfold. simpl.
  rewrite (ensure_node_present _ _ Hu), (ensure_node_present _ _ Hv).
  reflexivity.
Qed.

(** An edge joins two nodes. *)
Lemma edge_nodes G u v :
  wf G -> edge G u v -> In u (nodes G) /\ In v (nodes G).
Proof.
  intros W H. split.
  - now apply (wf_succ_dom W u v).
  - apply (wf_sym W) in H. now apply (wf_pred_dom W u v).
Qed.

Lemma reaches_nodes G u v :
  wf G -> reaches G u v -> In u (nodes G) /\ In v (nodes G).
Proof.
  intros W H. induction H as [x y H|x y z _ [Hx _] _ [_ Hz]].
  - now apply edge_nodes.
  - tauto.
Qed.
End EdgeFacts.

(** ** The dependency graph *)

Lemma fold_left_prefix_ind {A B : Type} (f : A -> B -> A)
      (P : list B -> A -> Prop) (l : list B) (a : A) :
  P [] a ->
  (forall pre x suf acc, l = pre ++ x :: suf -> P pre acc ->
                         P (pre ++ [x]) (f acc x)) ->
  P l (fold_left f l a).
Proof.
  intros H0 Hstep.
  assert (G : forall suf pre acc, l = pre ++ suf -> P pre acc ->
                                  P (pre ++ suf) (fold_left f suf acc)).
  { induction suf as [|x suf IH]; intros pre acc E Hp; simpl.
    - now rewrite app_nil_r.
    - replace (pre ++ x :: suf) with ((pre ++ [x]) ++ suf)
        by (now rewrite <- app_assoc).
      apply IH.
      + now rewrite <- app_assoc.
      + eapply Hstep; eauto. }
  apply (G l [] a); auto.
Qed.

Section BuildFacts.
Import spec analyzer.
Variable mods : dict OdooModule.

Lemma dupdate_module_attrs x m0 m :
  dupdate (module_attrs x m0) (module_attrs x m) = module_attrs x m.
Proof. reflexivity. Qed.

Lemma dupdate_nil_module_attrs x m :
  dupdate [] (module_attrs x m) = module_attrs x m.
Proof. reflexivity. Qed.

Lemma dupdate_nil_external_attrs x :
  dupdate [] (external_attrs x) = external_attrs x.
Proof. reflexivity. Qed.

Lemma node_add_node G n a x :
  wf G ->
  dget (nx.node_ (nx.add_node G n a)) x
  = if String.eqb n x
    then Some (dupdate (match dget (nx.node_ G) n with
                        | Some a0 => a0 | None => [] end) a)
    else dget (nx.node_ G) x.
Proof.
  intros W. unfold nx.add_node.
  destruct (dmem (nx.succ_ G) n) eqn:E; simpl; rewrite dget_dset.
  - reflexivity.
  - destruct (String.eqb n x); [|reflexivity].
    rewrite <- wf_has_node in E by assumption. unfold nx.has_node, dmem in E.
    now destruct (dget (nx.node_ G) n).
Qed.

Lemma node_inv_add_scanned G k m :
  In (k, m) mods -> node_inv mods G ->
  node_inv mods (nx.add_node G k (module_attrs k m)).
Proof.
  intros Hin [W Hs He].
  assert (Hk : In k (dkeys mods)) by (apply (in_map fst) in Hin; exact Hin).
  constructor.
  - now apply wf_add_node.
  - intros x Hx Hn. unfold scanned_node. rewrite node_add_node by assumption.
    destruct (String.eqb k x) eqn:E.
    + apply String.eqb_eq in E; subst x. exists m. split; [assumption|].
      f_equal. destruct (dmem (nx.succ_ G) k) eqn:Ek.
      * apply dmem_keys in Ek. destruct (Hs k Hk Ek) as (m0 & _ & ->).
        apply dupdate_module_attrs.
      * rewrite <- wf_has_node in Ek by assumption.
        unfold nx.has_node, dmem in Ek.
        destruct (dget (nx.node_ G) k); [discriminate|].
        apply dupdate_nil_module_attrs.
    + apply String.eqb_neq in E. apply nodes_add_node_In in Hn.
      destruct Hn as [->|Hn]; [congruence|]. now apply Hs.
  - intros x Hn Hx. rewrite node_add_node by assumption.
    destruct (String.eqb k x) eqn:E.
    + apply String.eqb_eq in E; subst x. contradiction.
    + apply nodes_add_node_In in Hn. apply String.eqb_neq in E.
      destruct Hn as [->|Hn]; [congruence|]. now apply He.
Qed.

Lemma node_inv_add_external G dep :
  node_inv mods G -> ~ In dep (nodes G) ->
  (forall x, In x (dkeys mods) -> In x (nodes G)) ->
  node_inv mods (nx.add_node G dep (external_attrs dep)).
Proof.
  intros [W Hs He] Hd Hall.
  assert (Ed : dmem (nx.succ_ G) dep = false) by now apply dmem_false_keys.
  constructor.
  - now apply wf_add_node.
  - intros x Hx Hn. unfold scanned_node. rewrite node_add_node by assumption.
    destruct (String.eqb dep x) eqn:E.
    + apply String.eqb_eq in E; subst x. exfalso. auto.
    + apply Hs; auto.
  - intros x Hn Hx. rewrite node_add_node by assumption.
    destruct (String.eqb dep x) eqn:E.
    + apply String.eqb_eq in E; subst x.
      rewrite <- wf_has_node in Ed by assumption.
      unfold nx.has_node, dmem in Ed.
      destruct (dget (nx.node_ G) dep); [discriminate|].
      now rewrite dupdate_nil_external_attrs.
    + apply nodes_add_node_In in Hn. apply String.eqb_neq in E.
      destruct Hn as [->|Hn]; [congruence|]. now apply He.
Qed.

Lemma node_inv_add_edge G u v :
  node_inv mods G -> In u (nodes G) -> In v (nodes G) ->
  node_inv mods (nx.add_edge G u v).
Proof.
  intros [W Hs He] Hu Hv.
  assert (E : nx.node_ (nx.add_edge G u v) = nx.node_ G)
    by (apply node_add_edge_present; now apply dmem_keys).
  assert (N : forall x, In x (nodes (nx.add_edge G u v)) -> In x (nodes G)).
  { intros x. rewrite nodes_add_edge_In. intros [H|[->| ->]]; assumption. }
  constructor.
  - now apply wf_add_edge.
  - intros x Hx Hn. unfold scanned_node. rewrite E. apply Hs; auto.
  - intros x Hn Hx. rewrite E. apply He; auto.
Qed.

Lemma scanned_graph_spec :
  node_inv mods (scanned_graph mods)
  /\ (forall x, In x (nodes (scanned_graph mods)) <-> In x (dkeys mods))
  /\ (forall x, nx.neighbors (scanned_graph mods) x = []).
Proof.
  unfold scanned_graph.
  apply (fold_left_prefix_ind
           (fun G nm => nx.add_node G (fst nm) (module_attrs (fst nm) (snd nm)))
           (fun pre G => node_inv mods G
                         /\ (forall x, In x (nodes G) <-> In x (dkeys pre))
                         /\ (forall x, nx.neighbors G x = []))).
  - split; [|split].
    + constructor; [apply wf_empty| |]; simpl; contradiction.
    + simpl. tauto.
    + reflexivity.
  - intros pre [k m] suf G E (I & N & S). simpl. split; [|split].
    + apply node_inv_add_scanned; [|assumption].
      rewrite E. apply in_elt.
    + intros x. rewrite nodes_add_node_In, N. unfold dkeys.
      rewrite map_app, in_app_iff. simpl. intuition congruence.
    + intros x. now rewrite neighbors_add_node.
Qed.

(** The effect of one [for dep in module.depends] step. *)
Lemma add_dependency_spec G u dep :
  node_inv mods G -> In u (nodes G) ->
  (forall x, In x (dkeys mods) -> In x (nodes G)) ->
  let G' := add_dependency u G dep in
  node_inv mods G'
  /\ (forall x, In x (nodes G') <-> In x (nodes G) \/ x = dep)
  /\ (forall a b, edge G' a b <-> edge G a b \/ (a = u /\ b = dep)).
Proof.
  intros I Hu Hall. unfold add_dependency.
  rewrite (wf_has_node _ (ni_wf I)).
  destruct (dmem (nx.succ_ G) dep) eqn:E; cbv zeta.
  - apply dmem_keys in E. split; [|split].
    + now apply node_inv_add_edge.
    + intros x. rewrite nodes_add_edge_In. intuition congruence.
    + intros a b. apply edge_add_edge.
  - apply dmem_false_keys in E.
    assert (I' : node_inv mods (nx.add_node G dep (external_attrs dep)))
      by now apply node_inv_add_external.
    split; [|split].
    + apply node_inv_add_edge; [assumption| |];
        apply nodes_add_node_In; tauto.
    + intros x. rewrite nodes_add_edge_In, nodes_add_node_In.
      intuition congruence.
    + intros a b. unfold edge. rewrite edge_add_edge, neighbors_add_node.
      tauto.
Qed.

Lemma add_dependencies_spec u deps : forall G,
  node_inv mods G -> In u (nodes G) ->
  (forall x, In x (dkeys mods) -> In x (nodes G)) ->
  let G' := fold_left (add_dependency u) deps G in
  node_inv mods G'
  /\ (forall x, In x (nodes G') <-> In x (nodes G) \/ In x deps)
  /\ (forall a b, edge G' a b <-> edge G a b \/ (a = u /\ In b deps)).
Proof.
  induction deps as [|dep deps IH]; intros G I Hu Hall; simpl.
  - split; [assumption|split]; intros; tauto.
  - destruct (@add_dependency_spec G u dep I Hu Hall) as (I1 & N1 & E1).
    destruct (IH (add_dependency u G dep)) as (I2 & N2 & E2).
    + assumption.
    + apply N1. now left.
    + intros x Hx. apply N1. left. now apply Hall.
    + split; [assumption|split].
      * intros x. rewrite N2, N1. intuition congruence.
      * intros a b. rewrite E2, E1. intuition congruence.
Qed.

Theorem dependency_graph_spec :
  let G := dependency_graph mods in
  node_inv mods G
  /\ (forall x, In x (nodes G)
                <-> In x (dkeys mods) \/ exists u, depends_on mods u x)
  /\ (forall a b, edge G a b <-> depends_on mods a b).
Proof.
  unfold dependency_graph. fold (scanned_graph mods).
  destruct scanned_graph_spec as (I0 & N0 & S0).
  apply (fold_left_prefix_ind
           (fun G nm => fold_left (add_dependency (fst nm)) (depends (snd nm)) G)
           (fun pre G =>
              node_inv mods G
              /\ (forall x, In x (nodes G)
                            <-> In x (dkeys mods) \/ exists u, depends_on pre u x)
              /\ (forall a b, edge G a b <-> depends_on pre a b))).
  - split; [assumption|split].
    + intros x. rewrite N0. split; [tauto|].
      intros [H|(u & m & [] & _)]. assumption.
    + intros a b. unfold edge. rewrite S0. split; [contradiction|].
      intros (m & [] & _).
  - intros pre [k m] suf G E (I & N & Ed). simpl.
    assert (Hk : In k (dkeys mods)).
    { rewrite E. unfold dkeys. rewrite map_app, in_app_iff. simpl. tauto. }
    destruct (@add_dependencies_spec k (depends m) G) as (I' & N' & E').
    + assumption.
    + apply N. now left.
    + intros x Hx. apply N. now left.
    + split; [assumption|split].
      * intros x. rewrite N', N. unfold depends_on. split.
        -- intros [[H|(u & m0 & H1 & H2)]|H]; [tauto| |].
           ++ right. exists u, m0. rewrite in_app_iff. tauto.
           ++ right. exists k, m. rewrite in_app_iff. simpl. tauto.
        -- intros [H|(u & m0 & H1 & H2)]; [tauto|].
           apply in_app_iff in H1. destruct H1 as [H1|[H1|[]]].
           ++ left. right. now exists u, m0.
           ++ inversion H1; subst. now right.
      * intros a b. rewrite E', Ed. unfold depends_on. split.
        -- intros [(m0 & H1 & H2)|[-> H]].
           ++ exists m0. rewrite in_app_iff. tauto.
           ++ exists m. rewrite in_app_iff. simpl. tauto.
        -- intros (m0 & H1 & H2).
           apply in_app_iff in H1. destruct H1 as [H1|[H1|[]]].
           ++ left. now exists m0.
           ++ inversion H1; subst. now right.
Qed.

Lemma dependency_graph_wf : wf (dependency_graph mods).
Proof. apply dependency_graph_spec. Qed.
End BuildFacts.

(** ** Graph completeness *)

Section Completeness.
Import spec analyzer.

Lemma has_node_nodes G x : wf G -> nx.has_node G x = true <-> In x (nodes G).
Proof.
  intros W. rewrite wf_has_node by assumption. apply dmem_keys.
Qed.

(** C1. Graph completeness: for a module [M] of the mapping and a name
    [D] of its dependency list, the graph of [build_dependency_graph]
    has the node [D], which is the node of a scanned module or an
    external placeholder with [is_external = True], and the edge
    [M -> D]; every node reached from a scanned module along edges is a
    node of the graph. *)
Theorem graph_completeness :
  forall (self : OdooModuleAnalyzer) (M D : string) (m : OdooModule),
    In (M, m) (modules self) -> In D (depends m) ->
    let G := fst (build_dependency_graph self) in
    graph (snd (build_dependency_graph self)) = Some G
    /\ nx.has_node G D = true
    /\ (scanned_node (modules self) G D \/ external_node (modules self) G D)
    /\ edge G M D
    /\ (forall N x, In N (dkeys (modules self)) -> reaches G N x ->
                    nx.has_node G x = true).
Proof.
  intros self M D m HM HD. simpl.
  destruct (dependency_graph_spec (modules self)) as (I & N & E).
  pose proof (ni_wf I) as W.
  assert (HDn : In D (nodes (dependency_graph (modules self)))).
  { apply N. right. exists M, m. tauto. }
  split; [reflexivity|]. split; [now apply has_node_nodes|].
  split; [|split].
  - destruct (in_dec string_dec D (dkeys (modules self))) as [i|n].
    + left. now apply (ni_scanned I).
    + right. split; [assumption|]. split; [|reflexivity].
      now apply (ni_external I).
  - apply E. exists m. tauto.
  - intros N0 x _ H. apply has_node_nodes; [assumption|].
    now apply (reaches_nodes W H).
Qed.

Lemma graph_completeness_witness :
  nx.has_node (fst (build_dependency_graph sample_analyzer)) "sale" = true
  /\ (scanned_node (modules sample_analyzer)
                   (fst (build_dependency_graph sample_analyzer)) "sale"
      \/ external_node (modules sample_analyzer)
                       (fst (build_dependency_graph sample_analyzer)) "sale")
  /\ edge (fst (build_dependency_graph sample_analyzer)) "sale_ext" "sale".
Proof.
  destruct (@graph_completeness sample_analyzer "sale_ext" "sale"
              (sample_module "sale_ext" ["sale"])) as (_ & H1 & H2 & H3 & _).
  - simpl. now left.
  - simpl. now left.
  - exact (conj H1 (conj H2 H3)).
Defined.
End Completeness.

(** ** Breadth-first search computes reachability *)

Lemma clos_rt_cases (R : relation string) a b :
  clos_refl_trans string R a b -> a = b \/ clos_trans string R a b.
Proof.
  induction 1 as [x y H|x|x y z _ IH1 _ IH2].
  - right. now constructor.
  - now left.
  - destruct IH1 as [->|H1]; [assumption|].
    destruct IH2 as [<-|H2]; right; [assumption|].
    now apply t_trans with y.
Qed.

Lemma clos_t_rt (R : relation string) a b :
  clos_trans string R a b -> clos_refl_trans string R a b.
Proof.
  induction 1 as [x y H|x y z _ IH1 _ IH2].
  - now constructor.
  - now apply rt_trans with y.
Qed.

Section BfsFacts.
Variable nbrs : string -> list string.
Variable all : list string.
Variable source : string.
Hypothesis nbrs_closed : forall x y, In y (nbrs x) -> In y all.
Hypothesis source_in : In source all.

Import inv.

Let n := length all.
Let R : relation string := fun a b => In b (nbrs a).
Let Reach : string -> Prop := clos_refl_trans string R source.
Local Abbreviation bfs_inv := (inv.bfs_inv nbrs all source).
Local Abbreviation bfs_closed := (inv.bfs_closed nbrs).



Lemma visit_children_spec p : forall cs st,
  bfs_inv st -> In p (nx.seen st) -> (forall c, In c cs -> R p c) ->
  let st' := nx.visit_children nbrs p cs st in
  bfs_inv st'
  /\ incl (nx.seen st) (nx.seen st')
  /\ (forall c, In c cs -> In c (nx.seen st'))
  /\ (forall F, bfs_closed F st -> bfs_closed F st')
  /\ length (nx.seen st') + length (nx.nxt st)
     = length (nx.seen st) + length (nx.nxt st').
Proof.
  induction cs as [|c cs IH]; intros st I Hp Hcs; simpl.
  - split; [assumption|]. split; [apply incl_refl|].
    split; [intros c []|]. split; [auto|reflexivity].
  - destruct (mem c (nx.seen st)) eqn:E.
    + destruct (IH st I Hp) as (I' & S' & C' & K' & L').
      { intros; apply Hcs; now right. }
      split; [assumption|]. split; [assumption|].
      split; [|split; assumption].
      intros c0 [<-|H]; [|auto]. apply S'. now apply mem_In.
    + set (st1 := nx.mkBfs (set_add c (nx.seen st))
                           (nx.nxt st ++ [(c, nbrs c)])
                           (nx.yielded st ++ [(p, c)])).
      assert (Es : nx.seen st1 = nx.seen st ++ [c]).
      { simpl. unfold set_add. now rewrite E. }
      apply mem_false in E.
      assert (I1 : bfs_inv st1).
      { constructor.
        - rewrite Es. simpl. rewrite map_app. simpl.
          now rewrite (bi_seen I).
        - rewrite Es. apply NoDup_app; [apply I|repeat constructor; easy|].
          intros y Hy [<-|[]]. contradiction.
        - intros x. rewrite Es, in_app_iff. intros [H|[<-|[]]].
          + now apply (bi_reach I).
          + split.
            * apply rt_trans with p; [apply (bi_reach I p Hp)|].
              apply rt_step. apply Hcs. now left.
            * apply nbrs_closed with p. apply Hcs. now left.
        - intros q qs H. rewrite Es. unfold st1 in H. simpl in H.
          apply in_app_iff in H. destruct H as [H|[H|[]]].
          + destruct (bi_nxt I _ _ H) as [H1 H2]. split; [|assumption].
            apply in_app_iff. now left.
          + inversion H; subst. split; [|reflexivity].
            apply in_app_iff. right. now left. }
      destruct (IH st1 I1) as (I' & S' & C' & K' & L').
      { rewrite Es. apply in_app_iff. now left. }
      { intros; apply Hcs; now right. }
      split; [assumption|]. split; [|split; [|split]].
      * intros x Hx. apply S'. rewrite Es. apply in_app_iff. now left.
      * intros c0 [<-|H]; [|auto]. apply S'. rewrite Es.
        apply in_app_iff. right. now left.
      * intros F HF. apply K'. intros x y Hx Hxy.
        rewrite Es in Hx. apply in_app_iff in Hx.
        destruct Hx as [Hx|[<-|[]]].
        -- destruct (HF x y Hx Hxy) as [H|[H|H]].
           ++ left. rewrite Es. apply in_app_iff. now left.
           ++ tauto.
           ++ right. right. simpl. rewrite map_app, in_app_iff. now left.
        -- right. right. simpl. rewrite map_app, in_app_iff. right. now left.
      * assert (L1 : length (nx.nxt st1) = S (length (nx.nxt st)))
          by (unfold st1; simpl; rewrite length_app; simpl; lia).
        assert (L2 : length (nx.seen st1) = S (length (nx.seen st)))
          by (rewrite Es, length_app; simpl; lia).
        lia.
Qed.

Lemma seen_length st : bfs_inv st -> length (nx.seen st) <= n.
Proof.
  intros I. apply NoDup_incl_length; [apply I|].
  intros x Hx. now apply (bi_reach I).
Qed.

Lemma bfs_layer_spec : forall this st,
  bfs_inv st ->
  (forall p cs, In (p, cs) this -> In p (nx.seen st) /\ cs = nbrs p) ->
  bfs_closed (map fst this) st ->
  let st' := fst (nx.bfs_layer nbrs n this st) in
  bfs_inv st'
  /\ length (nx.seen st') + length (nx.nxt st)
     = length (nx.seen st) + length (nx.nxt st')
  /\ (if snd (nx.bfs_layer nbrs n this st)
      then forall x, In x all -> In x (nx.seen st')
      else bfs_closed [] st').
Proof.
  induction this as [|[p cs] this IH]; intros st I Hthis Hclo; simpl.
  - split; [assumption|]. split; [reflexivity|assumption].
  - destruct (Hthis p cs (or_introl eq_refl)) as [Hp ->].
    destruct (@visit_children_spec p (nbrs p) st I Hp)
      as (I1 & S1 & C1 & K1 & L1); [auto|].
    destruct (Nat.eqb (length (nx.seen (nx.visit_children nbrs p (nbrs p) st))) n)
             eqn:E; simpl.
    + split; [assumption|]. split; [assumption|].
      apply Nat.eqb_eq in E.
      apply NoDup_length_incl; [apply I1| |].
      * fold n. lia.
      * intros x Hx. now apply (bi_reach I1).
    + destruct (IH (nx.visit_children nbrs p (nbrs p) st) I1) as (I2 & L2 & R2).
      * intros q qs H. destruct (Hthis q qs (or_intror H)) as [H1 H2].
        split; [now apply S1|assumption].
      * intros x y Hx Hxy.
        destruct (K1 _ Hclo x y Hx Hxy) as [H|[[<-|H]|H]]; try tauto.
        left. now apply C1.
      * split; [assumption|]. split; [lia|assumption].
Qed.

Lemma closed_complete st :
  bfs_inv st -> bfs_closed [] st -> nx.nxt st = [] ->
  forall x, Reach x -> In x (nx.seen st).
Proof.
  intros I C E x Hx. unfold Reach in Hx.
  apply clos_rt_rtn1 in Hx. induction Hx as [|y z Hyz _ IH].
  - rewrite (bi_seen I). now left.
  - destruct (C y z IH Hyz) as [H|[[]|H]]; [assumption|].
    rewrite E in H. contradiction.
Qed.

Lemma reach_in_all x : Reach x -> In x all.
Proof.
  intros Hx. unfold Reach in Hx.
  apply clos_rt_rtn1 in Hx. induction Hx as [|y z Hyz _ IH]; [assumption|].
  now apply nbrs_closed with y.
Qed.

Lemma bfs_while_spec : forall budget next sn out,
  bfs_inv (nx.mkBfs sn next out) ->
  bfs_closed [] (nx.mkBfs sn next out) ->
  next = [] \/ n < budget + length sn ->
  let r := nx.bfs_while nbrs n budget next sn out in
  NoDup (source :: map snd r)
  /\ (forall x, In x (source :: map snd r) <-> Reach x).
Proof.
  assert (Done : forall next sn out,
             bfs_inv (nx.mkBfs sn next out) ->
             bfs_closed [] (nx.mkBfs sn next out) ->
             next = [] ->
             NoDup (source :: map snd out)
             /\ (forall x, In x (source :: map snd out) <-> Reach x)).
  { intros next sn out I C E. pose proof (bi_seen I) as Hs. simpl in Hs.
    rewrite <- Hs. split; [apply (bi_nodup I)|].
    intros x. split.
    - intros H. now apply (bi_reach I).
    - now apply (closed_complete I C). }
  induction budget as [|b IH]; intros next sn out I C B; simpl.
  - destruct B as [E|B]; [now apply (Done next sn out)|].
    pose proof (seen_length I) as L. simpl in L. lia.
  - destruct next as [|e es]; [now apply (Done [] sn out)|].
    assert (I0 : bfs_inv (nx.mkBfs sn [] out)).
    { constructor; try apply I. simpl. contradiction. }
    destruct (@bfs_layer_spec (e :: es) (nx.mkBfs sn [] out) I0)
      as (I1 & L1 & R1).
    { intros p cs H. now apply (bi_nxt I). }
    { intros x y Hx Hxy. destruct (C x y Hx Hxy) as [H|[[]|H]]; tauto. }
    destruct (nx.bfs_layer nbrs n (e :: es) (nx.mkBfs sn [] out))
      as [st' ret] eqn:El.
    simpl in I1, L1, R1. destruct ret.
    + pose proof (bi_seen I1) as Hs. pose proof (bi_nodup I1) as ND.
      rewrite Hs in ND. split; [exact ND|]. intros x. split.
      * intros H. apply (bi_reach I1). rewrite Hs. exact H.
      * intros H. change (In x (source :: map snd (nx.yielded st'))).
        rewrite <- Hs. apply R1. now apply reach_in_all.
    + destruct st' as [sn' next' out']. simpl in *.
      apply IH; [assumption|assumption|].
      destruct next' as [|e' es']; [now left|right].
      destruct B as [B|B]; [discriminate|]. simpl in L1. lia.
Qed.

Theorem bfs_reachable :
  let r := nx.bfs_while nbrs n n [(source, nbrs source)] [source] [] in
  NoDup (map snd r)
  /\ (forall x, In x (map snd r)
                <-> x <> source /\ clos_trans string R source x).
Proof.
  destruct (@bfs_while_spec n [(source, nbrs source)] [source] [])
    as (ND & H).
  - constructor; simpl.
    + reflexivity.
    + repeat constructor. easy.
    + intros x [<-|[]]. split; [apply rt_refl|assumption].
    + intros p cs [E|[]]. inversion E; subst. split; [now left|reflexivity].
  - intros x y [<-|[]] _. right. right. now left.
  - right. simpl. lia.
  - cbv zeta. inversion ND as [|? ? Hn ND']; subst.
    split; [assumption|]. intros x. split.
    + intros Hx. assert (Hne : x <> source) by (intros ->; contradiction).
      split; [assumption|].
      assert (Hr : Reach x) by (apply H; now right).
      destruct (clos_rt_cases Hr) as [E|Ht]; [congruence|assumption].
    + intros [Hne Ht]. apply clos_t_rt in Ht. apply H in Ht.
      destruct Ht as [E|Ht]; [congruence|assumption].
Qed.
End BfsFacts.

Section ReachFacts.
Import spec.

Lemma number_of_nodes_nodes G :
  wf G -> nx.number_of_nodes G = length (nodes G).
Proof.
  intros W. unfold nx.number_of_nodes, nodes.
  rewrite <- (wf_node_keys W). unfold dkeys. now rewrite length_map.
Qed.

Lemma clos_trans_iff_sym (R R' : relation string) :
  (forall a b, R a b <-> R' a b) ->
  forall a b, clos_trans string R a b -> clos_trans string R' a b.
Proof.
  intros E a b. induction 1 as [x y H|x y z _ IH1 _ IH2].
  - constructor. now apply E.
  - now apply t_trans with y.
Qed.

Lemma clos_trans_flip (R : relation string) a b :
  clos_trans string (fun x y => R y x) a b <-> clos_trans string R b a.
Proof.
  split; induction 1 as [x y H|x y z _ IH1 _ IH2];
    try (now constructor); now apply t_trans with y.
Qed.

(** [nx.descendants] is the set of the nodes reached from the source. *)
Theorem descendants_spec G s :
  wf G -> In s (nodes G) ->
  NoDup (nx.descendants G s)
  /\ forall x, In x (nx.descendants G s) <-> x <> s /\ reaches G s x.
Proof.
  intros W Hs. unfold nx.descendants. split; [apply set_of_list_nodup|].
  intros x. rewrite set_of_list_In.
  unfold nx.bfs_edges, nx.generic_bfs_edges.
  rewrite number_of_nodes_nodes by assumption.
  apply (@bfs_reachable (nx.neighbors G) (nodes G) s); auto.
  intros a b H. now apply (edge_nodes a b W H).
Qed.

(** [nx.ancestors] is the set of the nodes that reach the source. *)
Theorem ancestors_spec G s :
  wf G -> In s (nodes G) ->
  NoDup (nx.ancestors G s)
  /\ forall x, In x (nx.ancestors G s) <-> x <> s /\ reaches G x s.
Proof.
  intros W Hs. unfold nx.ancestors. split; [apply set_of_list_nodup|].
  intros x. rewrite set_of_list_In.
  unfold nx.bfs_edges, nx.generic_bfs_edges.
  rewrite number_of_nodes_nodes by assumption.
  destruct (@bfs_reachable (nx.predecessors G) (nodes G) s) as [_ H].
  - intros a b Hb. apply (wf_sym W) in Hb. now apply (edge_nodes b a W Hb).
  - assumption.
  - rewrite H. unfold reaches.
    rewrite <- (clos_trans_flip (edge G) s x).
    split; intros [H1 H2]; (split; [assumption|]);
      revert H2; apply clos_trans_iff_sym; intros a b; unfold edge;
      [symmetry|]; apply (wf_sym W).
Qed.
End ReachFacts.

(** ** Lists: order, repetition, chains *)

Section ListFacts.
Import spec.

Lemma before_app l z x y : before l x y -> before (l ++ z) x y.
Proof.
  intros (l1 & l2 & -> & H). exists l1, (l2 ++ z).
  split; [|assumption]. now rewrite <- app_assoc.
Qed.

Lemma before_new l z x y : In x l -> In y z -> before (l ++ z) x y.
Proof.
  intros Hx Hy. apply in_split in Hy. destruct Hy as (a & b & ->).
  exists (l ++ a), b. split; [now rewrite <- app_assoc|].
  apply in_app_iff. now left.
Qed.

Lemma before_In l x y : before l x y -> In x l /\ In y l.
Proof.
  intros (l1 & l2 & -> & H). split; apply in_app_iff; [now left|].
  right. now left.
Qed.

Lemma nodup_split_unique (l1 l2 l1' l2' : list string) y :
  NoDup (l1 ++ y :: l2) -> l1 ++ y :: l2 = l1' ++ y :: l2' -> l1 = l1'.
Proof.
  revert l1'. induction l1 as [|a l1 IH]; intros l1' ND E.
  - destruct l1' as [|b l1']; [reflexivity|].
    simpl in E. injection E as Eb El. subst b. exfalso.
    simpl in ND. inversion ND as [|? ? Hn _]; subst. apply Hn.
    apply in_app_iff. right. now left.
  - destruct l1' as [|b l1'].
    + simpl in E. injection E as Eb El. subst a. exfalso.
      simpl in ND. inversion ND as [|? ? Hn _]; subst. apply Hn.
      apply in_app_iff. right. now left.
    + simpl in E. injection E as Eb El. subst b. f_equal.
      simpl in ND. inversion ND; subst. now apply IH.
Qed.

Lemma before_trans l x y z :
  NoDup l -> before l x y -> before l y z -> before l x z.
Proof.
  intros ND (l1 & l2 & E1 & Hx) (l3 & l4 & E2 & Hy).
  exists l3, l4. split; [assumption|].
  apply in_split in Hy. destruct Hy as (a & b & ->).
  assert (E : l1 = a).
  { apply nodup_split_unique with (l2 := l2) (l2' := b ++ z :: l4) (y := y).
    - now rewrite <- E1.
    - rewrite <- E1, E2. now rewrite <- app_assoc. }
  subst a. apply in_app_iff. now left.
Qed.

Lemma before_irrefl l x : NoDup l -> ~ before l x x.
Proof.
  intros ND (l1 & l2 & -> & H). apply NoDup_remove_2 in ND.
  apply ND. apply in_app_iff. now left.
Qed.

Lemma not_nodup_split (l : list string) :
  ~ NoDup l -> exists x l1 l2 l3, l = l1 ++ x :: l2 ++ x :: l3.
Proof.
  induction l as [|a l IH]; intros H.
  - exfalso. apply H. constructor.
  - destruct (in_dec string_dec a l) as [i|n].
    + apply in_split in i. destruct i as (l2 & l3 & ->).
      now exists a, [], l2, l3.
    + destruct IH as (x & l1 & l2 & l3 & ->).
      * intros ND. apply H. now constructor.
      * now exists x, (a :: l1), l2, l3.
Qed.

(** The number of elements a predicate keeps, when one is set aside. *)
Lemma filter_length_remove (f : string -> bool) a l :
  NoDup l -> In a l -> f a = true ->
  length (filter f l)
  = S (length (filter (fun u => f u && negb (String.eqb u a)) l)).
Proof.
  induction l as [|b l IH]; intros ND Hin Hf; [contradiction|].
  inversion ND as [|? ? Hn ND']; subst. simpl.
  destruct Hin as [->|Hin].
  - rewrite Hf, String.eqb_refl. simpl. f_equal. f_equal.
    apply filter_ext_in. intros u Hu.
    destruct (String.eqb u a) eqn:E.
    + apply String.eqb_eq in E; subst. contradiction.
    + now rewrite andb_true_r.
  - assert (E : String.eqb b a = false).
    { apply String.eqb_neq. intros ->. contradiction. }
    rewrite E, andb_true_r. destruct (f b); simpl; now rewrite IH.
Qed.

Lemma filter_length_keep (f : string -> bool) a l :
  ~ In a l ->
  filter (fun u => f u && negb (String.eqb u a)) l = filter f l.
Proof.
  intros Hn. apply filter_ext_in. intros u Hu.
  destruct (String.eqb u a) eqn:E.
  - apply String.eqb_eq in E; subst. contradiction.
  - now rewrite andb_true_r.
Qed.

Lemma mem_app x l l' : mem x (l ++ l') = mem x l || mem x l'.
Proof. unfold mem. apply existsb_app. Qed.

Lemma dget_filter_map (f : string -> Z) (p : string * Z -> bool) l v :
  dget (filter p (map (fun v => (v, f v)) l)) v
  = if mem v l && p (v, f v) then Some (f v) else None.
Proof.
  induction l as [|a l IH]; [reflexivity|].
  change (mem v (a :: l)) with (String.eqb v a || mem v l).
  simpl. destruct (String.eqb v a) eqn:E.
  - apply String.eqb_eq in E; subst a.
    destruct (p (v, f v)) eqn:Ep; simpl.
    + now rewrite String.eqb_refl.
    + rewrite IH. now rewrite andb_false_r.
  - destruct (p (a, f a)); simpl.
    + rewrite String.eqb_sym, E. exact IH.
    + exact IH.
Qed.

Lemma map_fst_filter_map (f : string -> Z) (p : string * Z -> bool) l :
  map fst (filter p (map (fun v => (v, f v)) l))
  = filter (fun v => p (v, f v)) l.
Proof.
  induction l as [|a l IH]; simpl; [reflexivity|].
  destruct (p (a, f a)); simpl; now rewrite IH.
Qed.
End ListFacts.

(** ** Kahn's algorithm *)

Section KahnFacts.
Import spec inv.
Variable G : nx.DiGraph.
Hypothesis W : wf G.
Local Abbreviation pending := (inv.pending G).
Local Abbreviation kahn_inv := (inv.kahn_inv G).
Local Abbreviation kahn_result := (inv.kahn_result G).
Local Abbreviation chain := (inv.chain G).




Lemma imap_of_ext D D' imap :
  (forall v, D v = D' v) -> imap_of D imap -> imap_of D' imap.
Proof.
  intros E [ND H]. split; [assumption|]. intros v. now rewrite <- E.
Qed.

Lemma for_each_cons {St A} (f : St -> A -> outcome St) a l st :
  nx.for_each f (a :: l) st = bind (f st a) (fun st' => nx.for_each f l st').
Proof. reflexivity. Qed.

Lemma for_each_visit_child : forall cs imap z D,
  NoDup cs -> imap_of D imap -> (forall c, In c cs -> (1 <= D c)%Z) ->
  exists imap',
    nx.for_each nx.visit_child cs (imap, z)
    = Return (imap', z ++ filter (fun c => (D c =? 1)%Z) cs)
    /\ imap_of (fun v => (D v - (if mem v cs then 1 else 0))%Z) imap'
    /\ length imap' + length (filter (fun c => (D c =? 1)%Z) cs)
       = length imap.
Proof.
  induction cs as [|c cs IH]; intros imap z D ND [NI HI] HD.
  - exists imap. simpl. rewrite app_nil_r. split; [reflexivity|].
    split; [|lia]. split; [assumption|]. intros v.
    now rewrite Z.sub_0_r.
  - inversion ND as [|? ? Hc ND']; subst.
    assert (Dc : (1 <= D c)%Z) by (apply HD; now left).
    assert (Gc : dget imap c = Some (D c)).
    { rewrite HI. destruct (Z.eqb_spec (D c) 0); [lia|reflexivity]. }
    assert (Mc : dmem imap c = true) by (unfold dmem; now rewrite Gc).
    set (D1 := fun v => (D v - (if String.eqb v c then 1 else 0))%Z).
    assert (E1 : forall c', In c' cs -> D1 c' = D c').
    { intros c' Hc'. unfold D1.
      destruct (String.eqb c' c) eqn:E; [|lia].
      apply String.eqb_eq in E; subst. contradiction. }
    assert (F1 : filter (fun c' => (D1 c' =? 1)%Z) cs
                 = filter (fun c' => (D c' =? 1)%Z) cs).
    { apply filter_ext_in. intros c' Hc'. now rewrite E1. }
    assert (Fin : forall v,
               (D1 v - (if mem v cs then 1 else 0)
                = D v - (if mem v (c :: cs) then 1 else 0))%Z).
    { intros v. unfold D1.
      change (mem v (c :: cs)) with (String.eqb v c || mem v cs).
      destruct (String.eqb v c) eqn:E; simpl; [|lia].
      apply String.eqb_eq in E; subst v.
      replace (mem c cs) with false; [lia|].
      symmetry. now apply mem_false. }
    rewrite for_each_cons. unfold nx.visit_child at 1. rewrite Gc.
    destruct (Z.eqb_spec (D c - 1) 0) as [Z0|Z0]; unfold bind.
    + destruct (IH (ddel (dset imap c (D c - 1)%Z) c) (z ++ [c]) D1)
        as (imap' & R & I' & L').
      * assumption.
      * split; [now apply nodup_dkeys_ddel, nodup_dkeys_dset|].
        intros v. rewrite dget_ddel by now apply nodup_dkeys_dset.
        rewrite dget_dset. unfold D1. rewrite (String.eqb_sym v c).
        destruct (String.eqb c v) eqn:E.
        -- apply String.eqb_eq in E; subst v.
           destruct (Z.eqb_spec (D c - 1) 0); [reflexivity|lia].
        -- rewrite HI, Z.sub_0_r. reflexivity.
      * intros c' Hc'. rewrite E1 by assumption. apply HD. now right.
      * exists imap'. rewrite R, F1. simpl.
        destruct (Z.eqb_spec (D c) 1); [|lia].
        split; [now rewrite <- app_assoc|]. split.
        -- eapply imap_of_ext; [|exact I']. exact Fin.
        -- rewrite F1 in L'.
           assert (A1 : S (length (ddel (dset imap c (D c - 1)%Z) c))
                        = length (dset imap c (D c - 1)%Z)).
           { apply length_ddel_present. unfold dmem.
             now rewrite dget_dset, String.eqb_refl. }
           assert (A2 : length (dset imap c (D c - 1)%Z) = length imap)
             by now apply length_dset_present.
           simpl. lia.
    + destruct (IH (dset imap c (D c - 1)%Z) z D1) as (imap' & R & I' & L').
      * assumption.
      * split; [now apply nodup_dkeys_dset|].
        intros v. rewrite dget_dset. unfold D1. rewrite (String.eqb_sym v c).
        destruct (String.eqb c v) eqn:E.
        -- apply String.eqb_eq in E; subst v.
           destruct (Z.eqb_spec (D c - 1) 0); [lia|reflexivity].
        -- rewrite HI, Z.sub_0_r. reflexivity.
      * intros c' Hc'. rewrite E1 by assumption. apply HD. now right.
      * exists imap'. rewrite R, F1. simpl.
        destruct (Z.eqb_spec (D c) 1); [lia|].
        split; [reflexivity|]. split.
        -- eapply imap_of_ext; [|exact I']. exact Fin.
        -- rewrite F1 in L'.
           assert (A2 : length (dset imap c (D c - 1)%Z) = length imap)
             by now apply length_dset_present.
           lia.
Qed.

Lemma pending_zero P v u :
  pending P v = 0%Z -> In u (nx.predecessors G v) -> In u P.
Proof.
  unfold pending. intros H Hu.
  destruct (mem u P) eqn:E; [now apply mem_In|]. exfalso.
  assert (Hf : In u (filter (fun u => negb (mem u P)) (nx.predecessors G v))).
  { apply filter_In. split; [assumption|]. now rewrite E. }
  destruct (filter (fun u => negb (mem u P)) (nx.predecessors G v));
    [contradiction|simpl in H; lia].
Qed.

Lemma pending_pos P v :
  pending P v <> 0%Z ->
  exists u, In u (nx.predecessors G v) /\ ~ In u P.
Proof.
  unfold pending. intros H.
  destruct (filter (fun u => negb (mem u P)) (nx.predecessors G v))
    as [|u l] eqn:E; [simpl in H; lia|].
  assert (Hf : In u (filter (fun u => negb (mem u P)) (nx.predecessors G v)))
    by (rewrite E; now left).
  apply filter_In in Hf. destruct Hf as [H1 H2].
  exists u. split; [assumption|]. apply mem_false.
  now destruct (mem u P).
Qed.

Lemma pending_step P node v :
  ~ In node P ->
  pending (P ++ [node]) v
  = (pending P v - (if mem v (nx.neighbors G node) then 1 else 0))%Z.
Proof.
  intros Hn. unfold pending.
  assert (E : filter (fun u => negb (mem u (P ++ [node])))
                     (nx.predecessors G v)
              = filter (fun u => negb (mem u P) && negb (String.eqb u node))
                       (nx.predecessors G v)).
  { apply filter_ext. intros u. rewrite mem_app. simpl.
    rewrite orb_false_r. apply negb_orb. }
  rewrite E. destruct (mem v (nx.neighbors G node)) eqn:M.
  - apply mem_In in M. apply (wf_sym W) in M.
    rewrite (@filter_length_remove (fun u => negb (mem u P)) node).
    + lia.
    + apply W.
    + assumption.
    + apply mem_false in Hn. now rewrite Hn.
  - apply mem_false in M.
    rewrite filter_length_keep; [lia|].
    intros H. apply M. now apply (wf_sym W).
Qed.

Lemma visit_node_spec P S imap node z :
  kahn_inv P S imap -> In node S -> ~ In node P ->
  let newz := filter (fun c => (pending P c =? 1)%Z) (nx.neighbors G node) in
  exists imap',
    nx.visit_node G (imap, z) node = Return (imap', z ++ newz)
    /\ kahn_inv (P ++ [node]) (S ++ newz) imap'
    /\ length imap' + length newz = length imap.
Proof.
  intros [ND Hd Hm Hs Hb] HnS HnP newz.
  assert (Hnode : In node (nodes G)) by now apply Hs.
  assert (Hpos : forall c, In c (nx.neighbors G node) -> (1 <= pending P c)%Z).
  { intros c Hc. apply (wf_sym W) in Hc. unfold pending.
    rewrite (@filter_length_remove (fun u => negb (mem u P)) node).
    - lia.
    - apply W.
    - assumption.
    - apply mem_false in HnP. now rewrite HnP. }
  destruct (@for_each_visit_child (nx.neighbors G node) imap z (pending P))
    as (imap' & R & I' & L'); [apply W|assumption|assumption|].
  exists imap'. split; [|split; [|exact L']].
  - unfold nx.visit_node.
    replace (nx.has_node G node) with true; [exact R|].
    symmetry. now apply has_node_nodes.
  - assert (In_newz : forall v, In v newz <->
                                In v (nx.neighbors G node) /\ pending P v = 1%Z).
    { intros v. unfold newz. rewrite filter_In.
      destruct (Z.eqb_spec (pending P v) 1); intuition congruence. }
    assert (Step : forall v,
               pending (P ++ [node]) v = 0%Z
               <-> (In v newz \/ pending P v = 0%Z)).
    { intros v. rewrite pending_step by assumption. rewrite In_newz.
      destruct (mem v (nx.neighbors G node)) eqn:M.
      - apply mem_In in M. pose proof (Hpos v M). intuition lia.
      - apply mem_false in M. intuition lia. }
    constructor.
    + apply NoDup_app; [assumption|now apply NoDup_filter, W|].
      intros a Ha Ha'. apply Hs in Ha. apply In_newz in Ha'. lia.
    + intros x Hx. apply in_app_iff in Hx. apply in_app_iff. left.
      destruct Hx as [Hx|[<-|[]]]; auto.
    + eapply imap_of_ext; [|exact I']. intros v.
      now rewrite pending_step.
    + intros v. rewrite in_app_iff, Step, Hs. split.
      * intros [[H1 H2]|H]; [tauto|]. split; [|now left].
        apply In_newz in H. now apply (edge_nodes node v W).
      * intros [H1 [H2|H2]]; tauto.
    + intros u v Hv Hu. apply in_app_iff in Hv. destruct Hv as [Hv|Hv].
      * apply before_app. now apply Hb.
      * apply before_new; [|assumption].
        assert (Hp : pending (P ++ [node]) v = 0%Z) by (apply Step; now left).
        apply (@pending_zero (P ++ [node]) v u Hp) in Hu. apply in_app_iff in Hu.
        destruct Hu as [Hu|[<-|[]]]; auto.
Qed.

Lemma generation_spec : forall gen P z imap,
  kahn_inv P (P ++ gen ++ z) imap ->
  exists imap' z',
    nx.for_each (nx.visit_node G) gen (imap, z) = Return (imap', z')
    /\ kahn_inv (P ++ gen) ((P ++ gen) ++ z') imap'
    /\ length imap' + length z' = length imap + length z.
Proof.
  induction gen as [|node gen IH]; intros P z imap I.
  - exists imap, z. simpl in *. rewrite app_nil_r.
    split; [reflexivity|]. split; [assumption|reflexivity].
  - assert (HnS : In node (P ++ (node :: gen) ++ z)).
    { apply in_app_iff. right. now left. }
    assert (HnP : ~ In node P).
    { pose proof (ki_nodup I) as ND. simpl in ND.
      apply NoDup_remove_2 in ND. intros H. apply ND.
      apply in_app_iff. now left. }
    destruct (@visit_node_spec P _ imap node z I HnS HnP)
      as (imap1 & R1 & I1 & L1).
    set (newz := filter (fun c => (pending P c =? 1)%Z)
                        (nx.neighbors G node)) in *.
    destruct (IH (P ++ [node]) (z ++ newz) imap1) as (imap' & z' & R & I' & L').
    { replace ((P ++ [node]) ++ gen ++ z ++ newz)
        with ((P ++ (node :: gen) ++ z) ++ newz); [assumption|].
      simpl. rewrite <- !app_assoc. simpl. now rewrite <- app_assoc. }
    exists imap', z'. rewrite for_each_cons, R1. unfold bind.
    split; [exact R|]. split.
    + replace (P ++ node :: gen) with ((P ++ [node]) ++ gen);
        [assumption|]. now rewrite <- app_assoc.
    + rewrite L', length_app. lia.
Qed.


Lemma generations_spec : forall fuel imap zero order,
  kahn_inv order (order ++ zero) imap ->
  length imap + match zero with [] => 1 | _ :: _ => 2 end <= fuel ->
  exists r, nx.generations fuel G imap zero order = Some r /\ kahn_result r.
Proof.
  induction fuel as [|fuel IH]; intros imap zero order I B.
  - destruct zero; lia.
  - simpl. destruct zero as [|n ns].
    + rewrite app_nil_r in I. destruct imap as [|kv imap].
      * eexists. split; [reflexivity|]. exact I.
      * eexists. split; [reflexivity|]. split; [eauto|].
        exists order, (kv :: imap). split; [assumption|discriminate].
    + destruct (@generation_spec (n :: ns) order [] imap)
        as (imap' & z' & R & I' & L').
      { now rewrite app_nil_r. }
      rewrite R. apply IH; [assumption|].
      simpl in L'. destruct z'; simpl in *; lia.
Qed.

Lemma filter_true {A} (l : list A) : filter (fun _ => true) l = l.
Proof. induction l; simpl; congruence. Qed.

Lemma pending_nil v :
  pending [] v = Z.of_nat (length (nx.predecessors G v)).
Proof. unfold pending. simpl. now rewrite filter_true. Qed.

Theorem topological_sort_result :
  exists r, nx.topological_sort G = Some r /\ kahn_result r.
Proof.
  unfold nx.topological_sort. apply generations_spec.
  - unfold nx.in_degree. fold (nodes G). simpl.
    rewrite map_fst_filter_map. simpl.
    assert (Hout : forall v, ~ In v (nodes G) -> pending [] v = 0%Z).
    { intros v Hv. rewrite pending_nil.
      destruct (nx.predecessors G v) as [|u l] eqn:E; [reflexivity|].
      exfalso. apply Hv. apply (wf_pred_dom W u v). rewrite E. now left. }
    constructor.
    + apply NoDup_filter, W.
    + intros x [].
    + split.
      * unfold dkeys. rewrite map_fst_filter_map. apply NoDup_filter, W.
      * intros v. rewrite dget_filter_map, <- pending_nil. simpl.
        destruct (mem v (nodes G)) eqn:M; simpl.
        -- destruct (Z.eqb_spec (pending [] v) 0) as [E|E].
           ++ rewrite E. reflexivity.
           ++ destruct (Z.ltb_spec 0 (pending [] v)); [reflexivity|].
              unfold pending in *. lia.
        -- apply mem_false in M. now rewrite (Hout v M).
    + intros v. rewrite filter_In, <- pending_nil.
      destruct (Z.eqb_spec (pending [] v) 0); intuition congruence.
    + intros u v Hv Hu. apply filter_In in Hv. destruct Hv as [_ Hv].
      apply Z.eqb_eq in Hv.
      destruct (nx.predecessors G v); [contradiction|simpl in Hv; lia].
  - destruct (map fst _); lia.
Qed.

Lemma kahn_return l :
  kahn_inv l l [] ->
  NoDup l
  /\ (forall v, In v l <-> In v (nodes G))
  /\ (forall u v, edge G u v -> before l u v).
Proof.
  intros [ND _ [_ Hm] Hs Hb].
  assert (Z0 : forall v, pending l v = 0%Z).
  { intros v. specialize (Hm v). simpl in Hm.
    destruct (Z.eqb_spec (pending l v) 0); [assumption|discriminate]. }
  split; [assumption|]. split.
  - intros v. rewrite Hs. specialize (Z0 v). tauto.
  - intros u v H. apply Hb.
    + apply Hs. split; [now apply (edge_nodes u v W)|apply Z0].
    + now apply (wf_sym W).
Qed.

(** A total order that respects the edges leaves no room for a cycle. *)
Lemma ordered_acyclic l :
  NoDup l -> (forall u v, edge G u v -> before l u v) ->
  forall x, ~ reaches G x x.
Proof.
  intros ND Hb x H.
  assert (Hr : forall a b, reaches G a b -> before l a b).
  { intros a b Hab. induction Hab as [a b Hab|a b c _ IH1 _ IH2].
    - now apply Hb.
    - now apply before_trans with b. }
  apply (before_irrefl ND (Hr x x H)).
Qed.


Lemma chain_app_r l1 : forall l2, chain (l1 ++ l2) -> chain l2.
Proof.
  induction l1 as [|a l1 IH]; intros l2 H; [assumption|].
  simpl in H. destruct (l1 ++ l2) as [|b t] eqn:E.
  - destruct l1; [|discriminate]. simpl in E. now subst.
  - apply IH. rewrite E. tauto.
Qed.

Lemma chain_reach : forall l x y, chain (x :: l ++ [y]) -> reaches G x y.
Proof.
  induction l as [|a l IH]; intros x y H.
  - simpl in H. constructor. tauto.
  - simpl in H. destruct H as [H1 H2].
    apply t_trans with a; [now constructor|].
    apply IH. exact H2.
Qed.

Lemma chain_app_l l1 : forall l2, chain (l1 ++ l2) -> chain l1.
Proof.
  induction l1 as [|a l1 IH]; intros l2 H; [exact I|].
  destruct l1 as [|b l1]; [exact I|].
  simpl in H. destruct H as [H1 H2]. split; [assumption|].
  apply (IH l2). exact H2.
Qed.

(** If every node of a nonempty set has a predecessor in the set, the
    graph has a cycle. *)
Lemma stuck_cycle (U : string -> Prop) :
  (exists v, U v) ->
  (forall v, U v -> In v (nodes G)) ->
  (forall v, U v -> exists u, edge G u v /\ U u) ->
  exists x, reaches G x x.
Proof.
  intros [v0 Hv0] Hnodes Hpred.
  assert (Hchain : forall k, exists l,
               length l = S k /\ chain l /\ forall x, In x l -> U x).
  { induction k as [|k (l & Hl & Hc & HU)].
    - exists [v0]. split; [reflexivity|]. split; [exact I|].
      intros x [<-|[]]. assumption.
    - destruct l as [|h t]; [discriminate|].
      destruct (Hpred h (HU h (or_introl eq_refl))) as (u & Hu & HUu).
      exists (u :: h :: t). split; [simpl in *; lia|]. split.
      + split; assumption.
      + intros x [<-|Hx]; auto. }
  destruct (Hchain (length (nodes G))) as (l & Hl & Hc & HU).
  assert (HND : ~ NoDup l).
  { intros ND. apply NoDup_incl_length with (l' := nodes G) in ND.
    - lia.
    - intros x Hx. auto. }
  apply not_nodup_split in HND. destruct HND as (x & l1 & l2 & l3 & ->).
  exists x. apply chain_reach with l2.
  apply chain_app_r in Hc.
  replace (x :: l2 ++ x :: l3) with ((x :: l2 ++ [x]) ++ l3) in Hc.
  - now apply chain_app_l in Hc.
  - simpl. now rewrite <- app_assoc.
Qed.

Lemma kahn_raise P imap :
  kahn_inv P P imap -> imap <> [] -> exists x, reaches G x x.
Proof.
  intros [ND _ [NI Hm] Hs Hb] Hne.
  apply (@stuck_cycle (fun v => pending P v <> 0%Z)).
  - destruct imap as [|[k d] imap]; [congruence|]. exists k.
    specialize (Hm k). simpl in Hm. rewrite String.eqb_refl in Hm.
    destruct (Z.eqb_spec (pending P k) 0); [discriminate|assumption].
  - intros v Hv. apply pending_pos in Hv. destruct Hv as (u & Hu & _).
    now apply (wf_pred_dom W u v).
  - intros v Hv. apply pending_pos in Hv. destruct Hv as (u & Hu & HuP).
    exists u. split; [now apply (wf_sym W)|].
    intros Hz. apply HuP. apply Hs. split; [|assumption].
    apply (wf_sym W) in Hu. now apply (edge_nodes u v W).
Qed.

(** On an acyclic graph [topological_sort] returns every node once,
    each edge pointing forward. *)
Theorem topological_sort_acyclic :
  (forall x, ~ reaches G x x) ->
  exists l, nx.topological_sort G = Some (Return l)
            /\ NoDup l
            /\ (forall v, In v l <-> In v (nodes G))
            /\ (forall u v, edge G u v -> before l u v).
Proof.
  intros Hac. destruct topological_sort_result as ([l|e] & E & R).
  - exists l. split; [assumption|]. now apply kahn_return.
  - destruct R as (_ & P & imap & I & Hne). exfalso.
    destruct (kahn_raise I Hne) as (x & Hx). now apply (Hac x).
Qed.

(** On a graph with a cycle it raises [NetworkXUnfeasible]. *)
Theorem topological_sort_cyclic :
  (exists x, reaches G x x) ->
  exists msg, nx.topological_sort G = Some (Raise (NetworkXUnfeasible msg)).
Proof.
  intros (x & Hx). destruct topological_sort_result as ([l|e] & E & R).
  - exfalso. apply kahn_return in R. destruct R as (ND & _ & Hb).
    now apply (ordered_acyclic ND Hb Hx).
  - destruct R as ((msg & ->) & _). now exists msg.
Qed.
End KahnFacts.

(** ** The reversed graph and the install order *)

Section ReverseFacts.
Import spec.

Lemma edges_In G u v : wf G -> In (u, v) (nx.edges G) <-> edge G u v.
Proof.
  intros W. unfold nx.edges, edge, nx.neighbors, nx.adj.
  rewrite in_flat_map. split.
  - intros ([u' l] & Hin & Hm). simpl in Hm. apply in_map_iff in Hm.
    destruct Hm as (v' & E & Hv). inversion E; subst.
    now rewrite (In_dget_nodup _ _ _ (wf_nodup W) Hin).
  - destruct (dget (nx.succ_ G) u) as [l|] eqn:E; [|contradiction].
    intros H. exists (u, l). split; [now apply dget_Some_In|].
    simpl. apply in_map_iff. now exists v.
Qed.

Theorem reverse_spec G :
  wf G ->
  wf (nx.reverse G)
  /\ (forall x, In x (nodes (nx.reverse G)) <-> In x (nodes G))
  /\ (forall u v, edge (nx.reverse G) u v <-> edge G v u).
Proof.
  intros W. unfold nx.reverse.
  set (H0 := fold_left (fun H na => nx.add_node H (fst na) (snd na))
                       (nx.node_ G) nx.empty).
  assert (P0 : wf H0
               /\ (forall x, In x (nodes H0) <-> In x (nodes G))
               /\ (forall x, nx.neighbors H0 x = [])).
  { unfold nodes at 2. rewrite <- (wf_node_keys W). unfold H0.
    apply (fold_left_prefix_ind
             (fun H na => nx.add_node H (fst na) (snd na))
             (fun pre H => wf H
                           /\ (forall x, In x (nodes H) <-> In x (dkeys pre))
                           /\ (forall x, nx.neighbors H x = []))).
    - split; [apply wf_empty|]. split; [simpl; tauto|reflexivity].
    - intros pre [k a] suf H _ (WH & N & S). simpl. split; [|split].
      + now apply wf_add_node.
      + intros x. rewrite nodes_add_node_In, N. unfold dkeys.
        rewrite map_app, in_app_iff. simpl. intuition congruence.
      + intros x. now rewrite neighbors_add_node. }
  destruct P0 as (W0 & N0 & S0).
  assert (P1 : forall es H,
             wf H ->
             let H' := fold_left (fun H uv => nx.add_edge H (snd uv) (fst uv))
                                 es H in
             wf H'
             /\ (forall x, In x (nodes H')
                           <-> In x (nodes H)
                               \/ exists a b, In (a, b) es /\ (x = a \/ x = b))
             /\ (forall u v, edge H' u v <-> edge H u v \/ In (v, u) es)).
  { induction es as [|[a b] es IH]; intros H WH; simpl.
    - split; [assumption|]. split; intros.
      + split; [tauto|]. intros [?|(? & ? & [] & _)]. assumption.
      + tauto.
    - destruct (IH (nx.add_edge H b a)) as (W' & N' & E');
        [now apply wf_add_edge|].
      split; [assumption|]. split.
      + intros x. rewrite N', nodes_add_edge_In. split.
        * intros [[Hx|[->| ->]]|(a0 & b0 & Hin & Hx)].
          -- now left.
          -- right. exists a, b. split; [now left|now right].
          -- right. exists a, b. split; [now left|now left].
          -- right. exists a0, b0. split; [now right|assumption].
        * intros [Hx|(a0 & b0 & [E|Hin] & Hx)].
          -- left. now left.
          -- inversion E; subst. left. right. tauto.
          -- right. now exists a0, b0.
      + intros u v. rewrite E'. unfold edge. rewrite edge_add_edge. split.
        * intros [[Hx|[-> ->]]|Hin]; [now left| |right; now right].
          right. now left.
        * intros [Hx|[E|Hin]]; [left; now left| |now right].
          inversion E; subst. left. right. tauto. }
  destruct (P1 (nx.edges G) H0 W0) as (W1 & N1 & E1).
  split; [assumption|]. split.
  - intros x. rewrite N1, N0. split; [|tauto].
    intros [Hx|(a & b & Hin & Hx)]; [assumption|].
    apply edges_In in Hin; [|assumption].
    destruct (edge_nodes a b W Hin). destruct Hx as [->| ->]; assumption.
  - intros u v. rewrite E1. unfold edge at 1. rewrite S0.
    rewrite edges_In by assumption. simpl. tauto.
Qed.

Lemma reaches_reverse G x y :
  wf G -> reaches (nx.reverse G) x y <-> reaches G y x.
Proof.
  intros W. destruct (reverse_spec W) as (_ & _ & E). unfold reaches.
  rewrite <- (clos_trans_flip (edge G) x y).
  split; apply clos_trans_iff_sym; intros a b; [|symmetry]; apply E.
Qed.
End ReverseFacts.

Section InstallOrderFacts.
Import spec analyzer.

Lemma reaches_depends mods x y :
  reaches (dependency_graph mods) x y <-> depends_transitively mods x y.
Proof.
  destruct (dependency_graph_spec mods) as (_ & _ & E).
  split; apply clos_trans_iff_sym; intros a b; [|symmetry]; apply E.
Qed.

Lemma ensure_graph_current self :
  graph_current self ->
  fst (ensure_graph self) = dependency_graph (modules self)
  /\ modules (snd (ensure_graph self)) = modules self
  /\ graph (snd (ensure_graph self))
     = Some (dependency_graph (modules self)).
Proof.
  unfold ensure_graph. intros [E|E]; rewrite E; simpl; auto.
Qed.

Lemma ensure_graph_eq self :
  graph_current self ->
  exists self', ensure_graph self = (dependency_graph (modules self), self')
                /\ modules self' = modules self
                /\ graph_current self'.
Proof.
  intros H. destruct (ensure_graph_current H) as (E1 & E2 & E3).
  destruct (ensure_graph self) as [G self']. simpl in *. subst G.
  exists self'. split; [reflexivity|]. split; [assumption|].
  right. now rewrite E3, E2.
Qed.

(** On an acyclic mapping the sort of the reversed graph is a
    topological order of all nodes. *)
Lemma sort_acyclic mods :
  acyclic mods ->
  exists order,
    nx.topological_sort (nx.reverse (dependency_graph mods))
    = Some (Return order)
    /\ NoDup order
    /\ (forall v, In v order <-> graph_node mods v)
    /\ (forall A B, depends_on mods A B -> before order B A).
Proof.
  intros Hac.
  destruct (dependency_graph_spec mods) as (I & N & E).
  pose proof (ni_wf I) as W.
  destruct (reverse_spec W) as (WR & NR & ER).
  destruct (@topological_sort_acyclic _ WR) as (l & El & ND & Hn & Hb).
  - intros x Hx. apply (reaches_reverse _ _ W) in Hx.
    apply reaches_depends in Hx. now apply (Hac x).
  - exists l. split; [assumption|]. split; [assumption|]. split.
    + intros v. rewrite Hn, NR. apply N.
    + intros A B H. apply Hb. apply ER. now apply E.
Qed.

Lemma sort_cyclic mods :
  has_cycle mods ->
  exists msg,
    nx.topological_sort (nx.reverse (dependency_graph mods))
    = Some (Raise (NetworkXUnfeasible msg)).
Proof.
  intros (x & Hx).
  destruct (dependency_graph_spec mods) as (I & _ & _).
  pose proof (ni_wf I) as W.
  destruct (reverse_spec W) as (WR & _ & _).
  apply (topological_sort_cyclic WR). exists x.
  apply (reaches_reverse _ _ W). now apply reaches_depends.
Qed.

(** A mapping whose sort succeeds is acyclic. *)
Lemma sorted_acyclic mods l :
  nx.topological_sort (nx.reverse (dependency_graph mods)) = Some (Return l) ->
  acyclic mods.
Proof.
  intros E x Hx. destruct (@sort_cyclic mods) as (msg & E').
  - now exists x.
  - congruence.
Qed.
End InstallOrderFacts.

(** ** Queries of the analyzer *)

Section QueryFacts.
Import spec analyzer.

Lemma not_node_no_path mods name x :
  ~ In name (nodes (dependency_graph mods)) ->
  ~ depends_transitively mods name x.
Proof.
  intros Hn H. apply reaches_depends in H. apply Hn.
  now apply (reaches_nodes (dependency_graph_wf mods) H).
Qed.

Lemma not_node_no_path_to mods name x :
  ~ In name (nodes (dependency_graph mods)) ->
  ~ depends_transitively mods x name.
Proof.
  intros Hn H. apply reaches_depends in H. apply Hn.
  now apply (reaches_nodes (dependency_graph_wf mods) H).
Qed.

(** [get_all_dependencies] returns the names the module depends on,
    directly or not, the module itself left out. *)
Lemma get_all_dependencies_spec self name :
  graph_current self ->
  exists deps self',
    get_all_dependencies self name true = (deps, self')
    /\ graph_current self' /\ modules self' = modules self
    /\ NoDup deps
    /\ forall x, In x deps
                 <-> x <> name /\ depends_transitively (modules self) name x.
Proof.
  intros H. destruct (ensure_graph_eq H) as (self' & E & Em & Hc).
  unfold get_all_dependencies. rewrite E.
  pose proof (dependency_graph_wf (modules self)) as W.
  destruct (nx.has_node (dependency_graph (modules self)) name) eqn:Hn; simpl.
  - apply has_node_nodes in Hn; [|assumption].
    destruct (@descendants_spec _ name W Hn) as [ND Hd].
    eexists _, self'. split; [reflexivity|].
    split; [assumption|]. split; [assumption|]. split; [assumption|].
    intros x. rewrite Hd.
    split; intros [H1 H2]; (split; [assumption|]);
      now apply reaches_depends.
  - exists [], self'. split; [reflexivity|].
    split; [assumption|]. split; [assumption|]. split; [constructor|].
    intros x. split; [contradiction|]. intros [_ H2]. exfalso.
    apply (@not_node_no_path (modules self) name x); [|assumption].
    rewrite <- has_node_nodes by assumption. congruence.
Qed.

(** [get_reverse_dependencies] returns the names that depend on the
    module, directly or not, the module itself left out. *)
Lemma get_reverse_dependencies_spec self name :
  graph_current self ->
  exists rdeps self',
    get_reverse_dependencies self name = (rdeps, self')
    /\ graph_current self' /\ modules self' = modules self
    /\ NoDup rdeps
    /\ forall x, In x rdeps
                 <-> x <> name /\ depends_transitively (modules self) x name.
Proof.
  intros H. destruct (ensure_graph_eq H) as (self' & E & Em & Hc).
  unfold get_reverse_dependencies. rewrite E.
  pose proof (dependency_graph_wf (modules self)) as W.
  destruct (nx.has_node (dependency_graph (modules self)) name) eqn:Hn; simpl.
  - apply has_node_nodes in Hn; [|assumption].
    destruct (@ancestors_spec _ name W Hn) as [ND Hd].
    eexists _, self'. split; [reflexivity|].
    split; [assumption|]. split; [assumption|]. split; [assumption|].
    intros x. rewrite Hd.
    split; intros [H1 H2]; (split; [assumption|]);
      now apply reaches_depends.
  - exists [], self'. split; [reflexivity|].
    split; [assumption|]. split; [assumption|]. split; [constructor|].
    intros x. split; [contradiction|]. intros [_ H2]. exfalso.
    apply (@not_node_no_path_to (modules self) name x); [|assumption].
    rewrite <- has_node_nodes by assumption. congruence.
Qed.

Lemma required_modules_spec : forall names self required,
  graph_current self ->
  exists required' self',
    required_modules self names required = (required', self')
    /\ graph_current self' /\ modules self' = modules self
    /\ forall x, In x required'
                 <-> In x required \/ In x names
                     \/ exists n, In n names
                                  /\ depends_transitively (modules self) n x.
Proof.
  induction names as [|name names IH]; intros self required H.
  - exists required, self. split; [reflexivity|].
    split; [assumption|]. split; [reflexivity|].
    intros x. split; [tauto|].
    intros [?|[[]|(? & [] & _)]]. assumption.
  - destruct (@get_all_dependencies_spec self name H)
      as (deps & self1 & E1 & H1 & M1 & _ & D1).
    destruct (IH self1 (set_update (set_add name required) deps) H1)
      as (req' & self' & E & H' & M' & R').
    exists req', self'. simpl. rewrite E1, E.
    split; [reflexivity|]. split; [assumption|]. split; [congruence|].
    intros x. rewrite R', set_update_In, set_add_In, D1, M1. split.
    + intros [[[->|Hx]|[_ Hx]]|[Hx|(n & Hn & Hx)]].
      * right. left. now left.
      * now left.
      * right. right. exists name. split; [now left|assumption].
      * right. left. now right.
      * right. right. exists n. split; [now right|assumption].
    + intros [Hx|[[->|Hx]|(n & [->|Hn] & Hx)]].
      * left. left. now right.
      * left. left. now left.
      * right. now left.
      * destruct (string_dec x n) as [->|Hne].
        -- left. left. now left.
        -- left. right. tauto.
      * right. right. now exists n.
Qed.
End QueryFacts.

(** ** Install order *)

Section InstallOrder.
Import spec analyzer.

(** C2. Topological correctness: on a mapping without dependency cycle,
    [get_install_order] with no subset returns every node of the graph
    (scanned or external) once, and whenever [A] depends on [B], [B]
    stands strictly before [A]. *)
Theorem install_order_topological :
  forall self : OdooModuleAnalyzer,
    graph_current self -> acyclic (modules self) ->
    exists order self',
      get_install_order self None = Some (Return order, self')
      /\ NoDup order
      /\ (forall v, In v order <-> graph_node (modules self) v)
      /\ (forall A B, depends_on (modules self) A B -> before order B A).
Proof.
  intros self H Hac.
  destruct (ensure_graph_eq H) as (self' & E & _ & _).
  destruct (sort_acyclic Hac) as (order & Es & ND & Hn & Hb).
  exists order, self'. unfold get_install_order. rewrite E, Es.
  auto.
Qed.

Lemma install_order_topological_witness :
  graph_current (analyzer_of [("A", ["B"; "base"]); ("B", ["base"])])
  /\ acyclic (modules (analyzer_of [("A", ["B"; "base"]); ("B", ["base"])]))
  /\ exists order self',
      get_install_order (analyzer_of [("A", ["B"; "base"]); ("B", ["base"])])
                        None
      = Some (Return order, self')
      /\ before order "B" "A".
Proof.
  assert (Hc : graph_current
                 (analyzer_of [("A", ["B"; "base"]); ("B", ["base"])]))
    by (now left).
  assert (Ha : acyclic
                 (modules (analyzer_of [("A", ["B"; "base"]); ("B", ["base"])]))).
  { apply sorted_acyclic with (l := ["base"; "B"; "A"]).
    vm_compute. reflexivity. }
  split; [assumption|]. split; [assumption|].
  destruct (install_order_topological Hc Ha)
    as (order & self' & E & _ & _ & Hb).
  exists order, self'. split; [assumption|].
  apply Hb. eexists. split; [left; reflexivity|]. simpl. now left.
Defined.

(** C6. Subset filter: with a non-empty subset on an acyclic mapping,
    [get_install_order] returns the full install order filtered to the
    named modules and everything they depend on, directly or not, in
    the order of the full list; with [C] free of dependencies, [B]
    depending on [C] and [A] on [B], the order for [[A]] is
    [[C; B; A]]. *)
Theorem install_order_subset :
  (forall (self : OdooModuleAnalyzer) (module_names : list string),
      graph_current self -> acyclic (modules self) -> module_names <> [] ->
      exists full subset self1 self2 keep,
        get_install_order self None = Some (Return full, self1)
        /\ get_install_order self (Some module_names)
           = Some (Return subset, self2)
        /\ subset = filter keep full
        /\ forall m, keep m = true
                     <-> In m module_names
                         \/ exists n, In n module_names
                              /\ depends_transitively (modules self) n m)
  /\ option_map fst
       (get_install_order (analyzer_of [("C", []); ("B", ["C"]); ("A", ["B"])])
                          (Some ["A"]))
     = Some (Return ["C"; "B"; "A"]).
Proof.
  split; [|vm_compute; reflexivity].
  intros self names H Hac Hne.
  destruct (ensure_graph_eq H) as (self' & E & Em & Hc).
  destruct (sort_acyclic Hac) as (order & Es & _).
  destruct (@required_modules_spec names self' [] Hc)
    as (required & self2 & Er & _ & _ & Hr).
  exists order, (filter (fun m => mem m required) order), self', self2,
    (fun m => mem m required).
  unfold get_install_order. rewrite E, Es.
  destruct names as [|n ns]; [congruence|]. rewrite Er.
  split; [reflexivity|]. split; [reflexivity|]. split; [reflexivity|].
  intros m. rewrite mem_In, Hr, Em. simpl. tauto.
Qed.

Lemma install_order_subset_witness :
  acyclic (modules (analyzer_of [("C", []); ("B", ["C"]); ("A", ["B"])]))
  /\ exists full subset self1 self2 keep,
      get_install_order (analyzer_of [("C", []); ("B", ["C"]); ("A", ["B"])])
                        None
      = Some (Return full, self1)
      /\ get_install_order
           (analyzer_of [("C", []); ("B", ["C"]); ("A", ["B"])]) (Some ["B"])
         = Some (Return subset, self2)
      /\ subset = filter keep full
      /\ keep "C" = true.
Proof.
  assert (Ha : acyclic (modules (analyzer_of
                                  [("C", []); ("B", ["C"]); ("A", ["B"])]))).
  { apply sorted_acyclic with (l := ["C"; "B"; "A"]). vm_compute. reflexivity. }
  split; [assumption|].
  destruct install_order_subset as [Hgen _].
  destruct (Hgen (analyzer_of [("C", []); ("B", ["C"]); ("A", ["B"])]) ["B"])
    as (full & subset & self1 & self2 & keep & E1 & E2 & E3 & Hk).
  - now left.
  - assumption.
  - discriminate.
  - exists full, subset, self1, self2, keep.
    split; [assumption|]. split; [assumption|]. split; [assumption|].
    apply Hk. right. exists "B". split; [now left|].
    apply t_step. eexists. split; [right; left; reflexivity|]. now left.
Defined.
End InstallOrder.

(** ** Cycles *)

Section CycleRoundTrip.
Import spec analyzer.




(** On the complete graph over three modules, one of them also depending
    on itself, the search lists the self-loop, the three cycles of two
    modules and the two cycles of three, each once. *)
Example simple_cycles_complete_graph :
  fst (find_circular_dependencies
         (analyzer_of [("a", ["b"; "a"; "c"]); ("b", ["c"; "a"]);
                       ("c", ["a"; "b"])]))
  = [["a"]; ["a"; "b"; "c"]; ["a"; "b"]; ["a"; "c"]; ["a"; "c"; "b"];
     ["b"; "c"]].
Proof. reflexivity. Qed.

Lemma find_circular_dependencies_eq self :
  graph_current self ->
  fst (find_circular_dependencies self)
  = nx.simple_cycles (dependency_graph (modules self)).
Proof.
  intros H. destruct (ensure_graph_eq H) as (self' & E & _ & _).
  unfold find_circular_dependencies. now rewrite E.
Qed.




End CycleRoundTrip.

(** ** Upgrade impact *)

Section ImpactFacts.
Import spec analyzer upgrade_analyzer.
Variable analyze_module : string -> dict OdooModel.

Lemma collect_dependents_spec : forall direct a acc,
  graph_current a ->
  exists all a',
    collect_dependents a direct acc = (all, a')
    /\ graph_current a' /\ modules a' = modules a
    /\ (NoDup acc -> NoDup all)
    /\ forall x, In x all
                 <-> In x acc
                     \/ exists d, In d direct
                          /\ (x = d \/ depends_transitively (modules a) x d).
Proof.
  induction direct as [|dep direct IH]; intros a acc H.
  - exists acc, a. simpl. split; [reflexivity|].
    split; [assumption|]. split; [reflexivity|]. split; [auto|].
    intros x. split; [tauto|]. intros [?|(? & [] & _)]. assumption.
  - destruct (@get_reverse_dependencies_spec a dep H)
      as (rdeps & a1 & E1 & H1 & M1 & _ & R1).
    destruct (IH a1 (set_update (set_add dep acc) rdeps) H1)
      as (all & a' & E & H' & M' & ND' & A').
    exists all, a'. simpl. rewrite E1, E.
    split; [reflexivity|]. split; [assumption|]. split; [congruence|].
    split.
    + intros ND. apply ND'. now apply set_update_nodup, set_add_nodup.
    + intros x. rewrite A', set_update_In, set_add_In, R1, M1. split.
      * intros [[[->|Hx]|[_ Hx]]|(d & Hd & Hx)].
        -- right. exists dep. split; [now left|now left].
        -- now left.
        -- right. exists dep. split; [now left|now right].
        -- right. exists d. split; [now right|assumption].
      * intros [Hx|(d & [->|Hd] & [->|Hx])].
        -- left. left. now right.
        -- left. left. now left.
        -- destruct (string_dec x d) as [->|Hne].
           ++ left. left. now left.
           ++ left. right. tauto.
        -- right. exists d. tauto.
        -- right. exists d. tauto.
Qed.

(** The dependent lists of an assessment of a scanned module. *)
Theorem assess_upgrade_impact_dependents self name a module :
  graph_current a -> dget (modules a) name = Some module ->
  let impact := fst (assess_upgrade_impact analyze_module self name a) in
  (forall x, In x (direct_dependents impact)
             <-> x <> name /\ depends_transitively (modules a) x name)
  /\ (forall x, In x (all_dependents impact)
                <-> In x (direct_dependents impact)
                    \/ (x = name
                        /\ exists d, d <> name
                             /\ depends_transitively (modules a) name d
                             /\ depends_transitively (modules a) d name))
  /\ NoDup (direct_dependents impact)
  /\ NoDup (all_dependents impact).
Proof.
  intros H Hg. unfold assess_upgrade_impact. rewrite Hg.
  destruct (@get_reverse_dependencies_spec a name H)
    as (rdeps & a1 & E1 & H1 & M1 & ND1 & R1).
  rewrite E1.
  destruct (@collect_dependents_spec (sorted rdeps) a1 [] H1)
    as (all & a2 & E2 & H2 & M2 & ND2 & A2).
  rewrite E2.
  destruct (assess_risk name (length (sorted all))
              (length (sorted (dkeys (analyze_module (path module))))))
    as [risk_level risk_factors].
  simpl.
  assert (D : forall x, In x (sorted rdeps)
                        <-> x <> name
                            /\ depends_transitively (modules a) x name).
  { intros x. now rewrite sorted_In. }
  split; [exact D|]. split; [|split].
  - intros x. rewrite sorted_In, A2, M1. split.
    + intros [[]|(d & Hd & Hx)]. apply D in Hd. destruct Hd as [Hd1 Hd2].
      destruct Hx as [->|Hx]; [left; now apply D|].
      destruct (string_dec x name) as [->|Hne].
      * right. split; [reflexivity|]. now exists d.
      * left. apply D. split; [assumption|]. now apply t_trans with d.
    + intros [Hx|[-> (d & Hd1 & Hd2 & Hd3)]].
      * right. exists x. split; [assumption|now left].
      * right. exists d. split; [now apply D|now right].
  - now apply sorted_nodup.
  - apply sorted_nodup. apply ND2. constructor.
Qed.

(** C10 as amended: for a module of the mapping that lies on no
    dependency cycle, [all_dependents] equals [direct_dependents] as a
    set, and both are the full set of transitive dependents (all nodes
    that can reach the module). *)
Theorem dependents_closed self name a module :
  graph_current a -> dget (modules a) name = Some module ->
  ~ depends_transitively (modules a) name name ->
  let impact := fst (assess_upgrade_impact analyze_module self name a) in
  same_set (all_dependents impact) (direct_dependents impact)
  /\ (forall x, In x (direct_dependents impact)
                <-> depends_transitively (modules a) x name).
Proof.
  intros H Hg Hac impact.
  destruct (assess_upgrade_impact_dependents self name H Hg)
    as (D & A & _). fold impact in D, A.
  split.
  - intros x. rewrite A. split; [|tauto].
    intros [Hx|[-> (d & _ & H1 & H2)]]; [assumption|].
    exfalso. apply Hac. now apply t_trans with d.
  - intros x. rewrite D. split; [tauto|]. intros Hx.
    split; [|assumption]. intros ->. contradiction.
Qed.

Lemma assess_risk_level name n k :
  fst (assess_risk name n k)
  = if Nat.ltb 50 n || mem name CORE_MODULES then "critical"
    else if Nat.ltb 20 n then "high"
    else if Nat.ltb 5 n then "medium"
    else if Nat.ltb 10 k then "medium"
    else "low".
Proof.
  unfold assess_risk.
  destruct (Nat.ltb 50 n || mem name CORE_MODULES);
    [|destruct (Nat.ltb 20 n); [|destruct (Nat.ltb 5 n)]];
    destruct (Nat.ltb 10 k); reflexivity.
Qed.

Lemma assess_upgrade_impact_risk self name a module :
  dget (modules a) name = Some module ->
  let impact := fst (assess_upgrade_impact analyze_module self name a) in
  risk_level impact
  = fst (assess_risk name (length (all_dependents impact))
                     (length (affected_models impact)))
  /\ affected_models impact
     = sorted (dkeys (analyze_module (path module))).
Proof.
  intros Hg. unfold assess_upgrade_impact. rewrite Hg.
  destruct (get_reverse_dependencies a name) as [rdeps a1].
  destruct (collect_dependents a1 (sorted rdeps) []) as [all a2].
  destruct (assess_risk name (length (sorted all))
              (length (sorted (dkeys (analyze_module (path module))))))
    as [risk_level risk_factors] eqn:E.
  simpl. now rewrite E.
Qed.

(** What [all_dependents] holds for a scanned module. *)
Lemma all_dependents_spec self name a module :
  graph_current a -> dget (modules a) name = Some module ->
  let impact := fst (assess_upgrade_impact analyze_module self name a) in
  NoDup (all_dependents impact)
  /\ forall x, In x (all_dependents impact)
               <-> dependent_of (modules a) name x.
Proof.
  intros H Hg impact.
  destruct (assess_upgrade_impact_dependents self name H Hg)
    as (D & A & _ & ND). fold impact in D, A, ND.
  split; [exact ND|]. intros x. rewrite A, D. unfold dependent_of. tauto.
Qed.

Lemma dependents_example self name a module l :
  graph_current a -> dget (modules a) name = Some module ->
  all_dependents (fst (assess_upgrade_impact analyze_module self name a))
  = sorted l ->
  NoDup l /\ forall x, In x l <-> dependent_of (modules a) name x.
Proof.
  intros H Hg E. destruct (all_dependents_spec self name H Hg) as [ND A].
  cbv zeta in ND, A. rewrite E in ND, A. split.
  - apply (Permutation_NoDup (sorted_perm l)). exact ND.
  - intros x. now rewrite <- A, sorted_In.
Qed.

(** C5. Risk tiers.  For a module of the mapping, let [n] be the number
    of its dependents (the names that depend on it through one or more
    declarations, and the module itself when it lies on a cycle through
    another name) and [k] the number of models found under its path.
    [all_dependents] lists exactly these dependents, and the level is
    [critical] when [n > 50] or the name is a core module, else [high]
    when [n > 20], else [medium] when [n > 5], else [medium] when
    [k > 10], else [low].  A name absent from the mapping gets
    [critical] with the "module not found" factor and empty lists. *)
Theorem risk_tiers :
  forall (self : UpgradeAnalyzer) (name : string) (a : OdooModuleAnalyzer),
    let impact := fst (assess_upgrade_impact analyze_module self name a) in
    (dget (modules a) name = None ->
     risk_level impact = "critical"
     /\ risk_factors impact = [cat ["模块 "; name; " 不存在"]]
     /\ direct_dependents impact = [] /\ all_dependents impact = []
     /\ affected_models impact = [])
    /\ (forall module dependents,
          graph_current a ->
          dget (modules a) name = Some module ->
          NoDup dependents ->
          (forall x, In x dependents <-> dependent_of (modules a) name x) ->
          let n := length dependents in
          let k := length (dkeys (analyze_module (path module))) in
          Permutation dependents (all_dependents impact)
          /\ affected_models impact
             = sorted (dkeys (analyze_module (path module)))
          /\ (50 < n \/ In name CORE_MODULES ->
              risk_level impact = "critical")
          /\ (n <= 50 -> ~ In name CORE_MODULES -> 20 < n ->
              risk_level impact = "high")
          /\ (n <= 20 -> ~ In name CORE_MODULES -> 5 < n ->
              risk_level impact = "medium")
          /\ (n <= 5 -> ~ In name CORE_MODULES -> 10 < k ->
              risk_level impact = "medium")
          /\ (n <= 5 -> ~ In name CORE_MODULES -> k <= 10 ->
              risk_level impact = "low")).
Proof.
  intros self name a impact. split.
  - intros Hg. unfold impact, assess_upgrade_impact. rewrite Hg.
    simpl. auto.
  - intros module dependents H Hg ND Hd n k.
    destruct (all_dependents_spec self name H Hg) as [NDa A].
    fold impact in NDa, A.
    assert (P : Permutation dependents (all_dependents impact)).
    { apply NoDup_Permutation; [assumption|assumption|].
      intros x. now rewrite Hd, A. }
    destruct (assess_upgrade_impact_risk self name a Hg) as [R M].
    fold impact in R, M. rewrite assess_risk_level in R.
    rewrite <- (Permutation_length P) in R. fold n in R.
    rewrite M, sorted_length in R. fold k in R.
    split; [exact P|]. split; [exact M|].
    destruct (mem name CORE_MODULES) eqn:C;
      [apply mem_In in C|apply mem_false in C];
      destruct (Nat.ltb_spec 50 n); destruct (Nat.ltb_spec 20 n);
      destruct (Nat.ltb_spec 5 n); destruct (Nat.ltb_spec 10 k);
      simpl in R; rewrite R;
      repeat split; intros; try reflexivity; try lia; try tauto;
      exfalso; intuition lia.
Qed.
End ImpactFacts.

Section ImpactExamples.
Import spec analyzer upgrade_analyzer.

Lemma three_dependents_spec :
  NoDup ["a"; "b"; "c"]
  /\ forall x, In x ["a"; "b"; "c"]
               <-> dependent_of (modules (analyzer_of three_dependents))
                                "z" x.
Proof.
  apply (@dependents_example two_models upgrade_analyzer.__init__ "z"
           (analyzer_of three_dependents) (sample_module "z" []));
    [now left|reflexivity|vm_compute; reflexivity].
Qed.

Lemma star_dependents_spec :
  NoDup (star_dependents 60)
  /\ forall x, In x (star_dependents 60)
               <-> dependent_of (modules (analyzer_of (star "x" 60))) "x" x.
Proof.
  apply (@dependents_example no_models upgrade_analyzer.__init__ "x"
           (analyzer_of (star "x" 60)) (sample_module "x" []));
    [now left|reflexivity|vm_compute; reflexivity].
Qed.

Lemma core_dependents_spec :
  NoDup ["x"]
  /\ forall x, In x ["x"]
               <-> dependent_of
                     (modules (analyzer_of [("base", []); ("x", ["base"])]))
                     "base" x.
Proof.
  apply (@dependents_example no_models upgrade_analyzer.__init__ "base"
           (analyzer_of [("base", []); ("x", ["base"])])
           (sample_module "base" []));
    [now left|reflexivity|vm_compute; reflexivity].
Qed.

Lemma star_dependents_length : length (star_dependents 60) = 60.
Proof. unfold star_dependents. now rewrite length_map, length_seq. Qed.

Lemma not_core_z : ~ In "z" CORE_MODULES.
Proof. apply mem_false. reflexivity. Qed.

(** The three modules of the impact scenario: [z] with three
    dependents and two models is [low]; [x] with sixty dependents is
    [critical]; the core module [base] with one dependent is
    [critical]. *)
Lemma risk_tiers_witness :
  risk_level
    (fst (assess_upgrade_impact two_models upgrade_analyzer.__init__ "z"
            (analyzer_of three_dependents)))
  = "low"
  /\ risk_level
       (fst (assess_upgrade_impact no_models upgrade_analyzer.__init__ "x"
               (analyzer_of (star "x" 60))))
     = "critical"
  /\ risk_level
       (fst (assess_upgrade_impact no_models upgrade_analyzer.__init__ "base"
               (analyzer_of [("base", []); ("x", ["base"])])))
     = "critical".
Proof.
  split; [|split].
  - destruct (risk_tiers two_models upgrade_analyzer.__init__ "z"
                (analyzer_of three_dependents)) as [_ H].
    destruct three_dependents_spec as [ND D].
    destruct (H (sample_module "z" []) ["a"; "b"; "c"]
                (or_introl eq_refl) eq_refl ND D)
      as (_ & _ & _ & _ & _ & _ & L).
    apply L; [simpl; lia|exact not_core_z|simpl; lia].
  - destruct (risk_tiers no_models upgrade_analyzer.__init__ "x"
                (analyzer_of (star "x" 60))) as [_ H].
    destruct star_dependents_spec as [ND D].
    destruct (H (sample_module "x" []) (star_dependents 60)
                (or_introl eq_refl) eq_refl ND D)
      as (_ & _ & C & _).
    apply C. left. rewrite star_dependents_length. lia.
  - destruct (risk_tiers no_models upgrade_analyzer.__init__ "base"
                (analyzer_of [("base", []); ("x", ["base"])])) as [_ H].
    destruct core_dependents_spec as [ND D].
    destruct (H (sample_module "base" []) ["x"]
                (or_introl eq_refl) eq_refl ND D)
      as (_ & _ & C & _).
    apply C. right. simpl. tauto.
Defined.

Lemma dependents_closed_witness :
  same_set
    (all_dependents
       (fst (assess_upgrade_impact no_models upgrade_analyzer.__init__ "c"
               (analyzer_of [("a", ["b"]); ("b", ["c"]); ("c", [])]))))
    (direct_dependents
       (fst (assess_upgrade_impact no_models upgrade_analyzer.__init__ "c"
               (analyzer_of [("a", ["b"]); ("b", ["c"]); ("c", [])])))).
Proof.
  refine (proj1 (@dependents_closed no_models upgrade_analyzer.__init__ "c"
                   (analyzer_of [("a", ["b"]); ("b", ["c"]); ("c", [])])
                   (sample_module "c" []) _ _ _)).
  - now left.
  - reflexivity.
  - apply sorted_acyclic with (l := ["c"; "b"; "a"]). vm_compute. reflexivity.
Defined.

(** C10 as stated fails on two modules that depend on each other:
    [all_dependents] holds the module itself and [direct_dependents]
    does not. *)
Lemma dependents_closed_counterexample :
  ~ same_set
      (all_dependents
         (fst (assess_upgrade_impact no_models upgrade_analyzer.__init__ "a"
                 (analyzer_of [("a", ["b"]); ("b", ["a"])]))))
      (direct_dependents
         (fst (assess_upgrade_impact no_models upgrade_analyzer.__init__ "a"
                 (analyzer_of [("a", ["b"]); ("b", ["a"])])))).
Proof.
  intros H. specialize (H "a"). vm_compute in H.
  destruct H as [H _]. destruct H as [H|[]]; [now left|discriminate].
Qed.

(** C4 at its failing input: with [a] depending on [b] and [b] on [c],
    the direct dependents reported for [c] include [a], which does not
    declare [c]. *)
Lemma direct_dependents_transitive :
  direct_dependents
    (fst (assess_upgrade_impact no_models upgrade_analyzer.__init__ "c"
            (analyzer_of [("a", ["b"]); ("b", ["c"]); ("c", [])])))
  = ["a"; "b"]
  /\ ~ depends_on (modules (analyzer_of [("a", ["b"]); ("b", ["c"]); ("c", [])]))
                  "a" "c".
Proof.
  split; [vm_compute; reflexivity|].
  intros (m & Hin & Hd). simpl in Hin.
  destruct Hin as [E|[E|[E|[]]]]; inversion E; subst; simpl in Hd;
    intuition discriminate.
Qed.
End ImpactExamples.

(** ** Model recognition *)

Section ModelFacts.
Import upgrade_analyzer inv.




Lemma parse_target_flag value st target :
  snd (parse_target value st target) = snd st || marks_model value target.
Proof.
  destruct st as [model flag]. unfold parse_target, marks_model.
  destruct target; cbn [snd]; try now rewrite orb_false_r.
  destruct (String.eqb id "_name"); [cbn [snd]; now rewrite orb_true_r|].
  destruct (String.eqb id "_inherit").
  { destruct (_get_value value) as [[]|]; cbn [snd];
      now rewrite ?orb_true_r, ?orb_false_r. }
  destruct (String.eqb id "_inherits").
  { destruct value; cbn [snd]; now rewrite orb_false_r. }
  destruct (String.eqb id "_description");
    [cbn [snd]; now rewrite orb_false_r|].
  destruct (mem id FIELD_TYPES || _is_field_definition value);
    [|cbn [snd]; now rewrite orb_false_r].
  destruct (_parse_field id value); cbn [snd]; now rewrite orb_false_r.
Qed.

Lemma parse_target_inv value st target :
  flag_inv st -> flag_inv (parse_target value st target).
Proof.
  destruct st as [model flag]. unfold flag_inv, parse_target.
  destruct target; cbn [snd fst]; auto.
  destruct (String.eqb id "_name"); [cbn; auto|].
  destruct (String.eqb id "_inherit").
  { destruct (_get_value value) as [[]|]; cbn; auto. }
  destruct (String.eqb id "_inherits").
  { destruct value; cbn; auto. }
  destruct (String.eqb id "_description"); [cbn; auto|].
  destruct (mem id FIELD_TYPES || _is_field_definition value);
    [|cbn; auto].
  destruct (_parse_field id value); cbn; auto.
Qed.

Lemma parse_targets_flag value targets : forall st,
  snd (fold_left (parse_target value) targets st)
  = snd st || existsb (marks_model value) targets
  /\ (flag_inv st -> flag_inv (fold_left (parse_target value) targets st)).
Proof.
  induction targets as [|t targets IH]; intros st; simpl.
  - now rewrite orb_false_r.
  - destruct (IH (parse_target value st t)) as [E I]. split.
    + now rewrite E, parse_target_flag, orb_assoc.
    + intros H. now apply I, parse_target_inv.
Qed.

Lemma parse_item_flag st item :
  snd (parse_item st item) = snd st || item_marks_model item
  /\ (flag_inv st -> flag_inv (parse_item st item)).
Proof.
  unfold parse_item.
  destruct item as [targets value|fname|cname body|]; simpl.
  - apply parse_targets_flag.
  - destruct st as [model flag]. simpl. now rewrite orb_false_r.
  - now rewrite orb_false_r.
  - now rewrite orb_false_r.
Qed.

Lemma parse_items_flag body : forall st,
  snd (fold_left parse_item body st)
  = snd st || existsb item_marks_model body
  /\ (flag_inv st -> flag_inv (fold_left parse_item body st)).
Proof.
  induction body as [|item body IH]; intros st; simpl.
  - now rewrite orb_false_r.
  - destruct (IH (parse_item st item)) as [E I].
    destruct (parse_item_flag st item) as [E1 I1]. split.
    + now rewrite E, E1, orb_assoc.
    + auto.
Qed.

(** X24. The recognition rule as [_parse_class] has it: a class is a
    model exactly when its body assigns [_name], or [_inherit] with a
    string, list or tuple.  Field assignments do not count. *)
Theorem parse_class_recognition body module_name file_path' :
  _parse_class body module_name file_path' <> None
  <-> existsb item_marks_model body = true.
Proof.
  unfold _parse_class.
  pose proof (parse_items_flag body
                (mkOdooModel (OConst (CStr "")) [] [] "" [] []
                             module_name file_path', false)) as [E I].
  remember (fold_left parse_item body
              (mkOdooModel (OConst (CStr "")) [] [] "" [] []
                           module_name file_path', false)) as st eqn:F.
  clear F. destruct st as [model flag]. simpl in E, I.
  assert (Inv : inherit model = [] \/ flag = true) by (apply I; now left).
  destruct (negb (truth (name model)) && truth (OList (inherit model))) eqn:C.
  - apply andb_prop in C. destruct C as [_ C].
    destruct Inv as [Inv|Inv]; [rewrite Inv in C; discriminate|].
    rewrite Inv in E. rewrite <- E. split; [reflexivity|discriminate].
  - rewrite <- E. destruct flag; split; congruence.
Qed.

(** C7 at its failing input: a class whose body is the single field
    assignment [partner_name = fields.Char()] is not recognised. *)
Lemma field_only_class_not_recognised :
  _parse_class
    [Assign [Name "partner_name"]
            (Call (Attribute (Name "fields") "Char") [] [])]
    "custom_sale" "models/sale_order.py"
  = None
  /\ _is_field_definition (Call (Attribute (Name "fields") "Char") [] [])
     = true.
Proof. split; reflexivity. Qed.
End ModelFacts.

(** ** Misuse *)

Section MisuseFacts.
Import analyzer upgrade_analyzer.

Lemma required_modules_unscanned ps : forall names required,
  snd (required_modules (mkAnalyzer ps [] (Some nx.empty)) names required)
  = mkAnalyzer ps [] (Some nx.empty).
Proof.
  induction names as [|n names IH]; intros required; [reflexivity|].
  cbn [required_modules].
  change (get_all_dependencies (mkAnalyzer ps [] (Some nx.empty)) n true)
    with (@nil string, mkAnalyzer ps [] (Some nx.empty)).
  apply IH.
Qed.

(** C8 as amended.  [compare_versions] raises [ValueError] unless both
    sides are loaded.  On an analyzer that has not scanned (empty
    mapping, no graph) no query raises: [get_all_dependencies],
    [get_reverse_dependencies], [find_circular_dependencies],
    [get_install_order] and [get_dependency_depth] first build the
    graph of the empty mapping and return the empty set, no cycle, the
    empty order and depth [0]; [find_missing_dependencies] reads the
    mapping only, builds no graph and returns the empty dict. *)
Theorem misuse_errors :
  (forall self : UpgradeAnalyzer,
      source_analyzer self = None \/ target_analyzer self = None ->
      exists msg, compare_versions self = Raise (ValueError msg))
  /\ (forall self : OdooModuleAnalyzer,
         modules self = [] -> graph self = None ->
         let built := mkAnalyzer (paths self) [] (Some nx.empty) in
         (forall module_name include_core,
             get_all_dependencies self module_name include_core
             = ([], built))
         /\ (forall module_name,
                get_reverse_dependencies self module_name = ([], built))
         /\ find_circular_dependencies self = ([], built)
         /\ (forall module_names,
                get_install_order self module_names
                = Some (Return [], built))
         /\ (forall module_name,
                get_dependency_depth self module_name = Some (0, built))
         /\ find_missing_dependencies self = []).
Proof.
  split.
  - intros self [H|H]; unfold compare_versions; rewrite H.
    + eexists. reflexivity.
    + destruct (source_analyzer self); eexists; reflexivity.
  - intros [ps ms g] Hm Hg. cbn [modules graph paths] in *. subst ms g.
    cbv zeta. split; [reflexivity|]. split; [reflexivity|].
    split; [reflexivity|]. split; [|split; reflexivity].
    intros [[|n ns]|]; try reflexivity.
    pose proof (required_modules_unscanned ps (n :: ns) []) as R.
    unfold get_install_order.
    change (ensure_graph (mkAnalyzer ps [] None))
      with (nx.empty, mkAnalyzer ps [] (Some nx.empty)).
    change (nx.topological_sort (nx.reverse nx.empty))
      with (Some (Return (@nil string))).
    cbv iota beta.
    destruct (required_modules (mkAnalyzer ps [] (Some nx.empty))
                               (n :: ns) []) as [required self'].
    cbn [snd] in R. subst self'. reflexivity.
Qed.

Lemma misuse_errors_witness :
  (exists msg,
      compare_versions
        (mkUpgradeAnalyzer (Some (analyzer.__init__ None)) None [])
      = Raise (ValueError msg))
  /\ get_install_order (analyzer.__init__ None) None
     = Some (Return [], mkAnalyzer [] [] (Some nx.empty))
  /\ find_missing_dependencies (analyzer.__init__ None) = [].
Proof.
  destruct misuse_errors as [H1 H2]. split.
  - apply H1. now right.
  - destruct (H2 (analyzer.__init__ None) eq_refl eq_refl)
      as (_ & _ & _ & O & _ & M).
    split; [apply O|exact M].
Defined.

(** C8 as stated fails on a fresh analyzer: asked before any scan,
    [get_all_dependencies] returns the empty set and the graph of the
    empty mapping; nothing is raised. *)
Lemma misuse_errors_counterexample :
  get_all_dependencies (analyzer.__init__ None) "base" true
  = ([], mkAnalyzer [] [] (Some nx.empty)).
Proof. reflexivity. Qed.
End MisuseFacts.

(** ** Scanning *)

Section ScanFacts.
Import analyzer spec.

(** C9 at its failing input: under the root [/addons], the directory
    [.git] at the first level is skipped, and the directory [.hidden]
    inside the plain directory [grp] is parsed as a module. *)
Lemma hidden_module_scanned :
  dkeys (fst (scan_modules sample_fs sample_resolve sample_parser
                           (analyzer.__init__ (Some ["/addons"]))))
  = [".hidden"]
  /\ String.prefix "." ".hidden" = true.
Proof. split; reflexivity. Qed.
End ScanFacts.

(** ** The topological sort always ends *)

Section SortTotal.
Import analyzer inv.


Lemma visit_child_measure st child st' :
  nx.visit_child st child = Return st' -> sort_measure st' = sort_measure st.
Proof.
  destruct st as [imap zero]. unfold nx.visit_child, sort_measure.
  destruct (dget imap child) as [d|] eqn:E; [|discriminate].
  assert (M : dmem imap child = true) by (unfold dmem; now rewrite E).
  assert (L1 : length (dset imap child (d - 1)%Z) = length imap)
    by now apply length_dset_present.
  destruct (Z.eqb (d - 1) 0); intros [= <-]; simpl.
  - assert (L2 : S (length (ddel (dset imap child (d - 1)%Z) child))
                 = length (dset imap child (d - 1)%Z)).
    { apply length_ddel_present. unfold dmem.
      now rewrite dget_dset, String.eqb_refl. }
    rewrite length_app. simpl. lia.
  - lia.
Qed.

Lemma for_each_measure {A} (f : dict Z * list string -> A
                                -> outcome (dict Z * list string)) :
  (forall st a st', f st a = Return st' -> sort_measure st' = sort_measure st) ->
  forall l st st', nx.for_each f l st = Return st' ->
                   sort_measure st' = sort_measure st.
Proof.
  intros Hf. induction l as [|a l IH]; intros st st' H; simpl in H.
  - now injection H as <-.
  - destruct (f st a) as [st1|e] eqn:E; [|discriminate]. simpl in H.
    rewrite (IH _ _ H). now apply Hf with a.
Qed.

Lemma visit_node_measure G st node st' :
  nx.visit_node G st node = Return st' -> sort_measure st' = sort_measure st.
Proof.
  unfold nx.visit_node. destruct (nx.has_node G node); [|discriminate].
  apply for_each_measure. apply visit_child_measure.
Qed.

Lemma generations_step fuel G imap n ns order :
  nx.generations (S fuel) G imap (n :: ns) order
  = match nx.for_each (nx.visit_node G) (n :: ns) (imap, []) with
    | Raise e => Some (Raise e)
    | Return (imap', zero') =>
        nx.generations fuel G imap' zero' (order ++ n :: ns)
    end.
Proof. reflexivity. Qed.

Lemma generations_total G : forall fuel (imap : dict Z) zero order,
  length imap + match zero with [] => 1 | _ :: _ => 2 end <= fuel ->
  nx.generations fuel G imap zero order <> None.
Proof.
  induction fuel as [|fuel IH]; intros imap zero order B.
  - destruct zero; lia.
  - destruct zero as [|n ns]; [discriminate|].
    rewrite generations_step.
    destruct (nx.for_each (nx.visit_node G) (n :: ns) (imap, []))
      as [[imap' zero']|e] eqn:E; [|discriminate].
    apply IH.
    apply (for_each_measure (nx.visit_node G) (visit_node_measure G)) in E.
    unfold sort_measure in E. simpl in E. destruct zero'; simpl in *; lia.
Qed.

(** The loop of [topological_generations] ends within its bound on
    every graph. *)
Theorem topological_sort_total G : nx.topological_sort G <> None.
Proof.
  unfold nx.topological_sort. apply generations_total.
  destruct (map fst _); lia.
Qed.

(** [get_install_order] returns or raises on every analyzer state. *)
Theorem get_install_order_total self module_names :
  get_install_order self module_names <> None.
Proof.
  unfold get_install_order. destruct (ensure_graph self) as [G self'].
  pose proof (topological_sort_total (nx.reverse G)) as T.
  destruct (nx.topological_sort (nx.reverse G)) as [[order|[]]|];
    try discriminate; [|contradiction].
  destruct module_names as [[|n ns]|]; try discriminate.
  now destruct (required_modules self' (n :: ns) []).
Qed.
End SortTotal.

(** ** The cycle search lists the elementary cycles *)

Section CycleSearchFacts.
Import spec inv.
Variable G : nx.DiGraph.
Local Abbreviation chain := (inv.chain G).

Local Abbreviation closes := (inv.closes G).
Local Abbreviation elementary_cycle := (inv.elementary_cycle G).

Lemma chain_cons x l :
  chain (x :: l) <-> (l = [] \/ edge G x (hd "" l)) /\ chain l.
Proof.
  destruct l as [|y l]; simpl.
  - split; [intros _; split; [now left|exact I]|intros _; exact I].
  - split; [intros [H1 H2]; split; [now right|assumption]|].
    intros [[H|H] H2]; [discriminate|now split].
Qed.

Lemma chain_app l1 : forall l2,
  chain l1 -> chain l2 ->
  (l1 <> [] -> l2 <> [] -> edge G (last l1 "") (hd "" l2)) ->
  chain (l1 ++ l2).
Proof.
  induction l1 as [|x l1 IH]; intros l2 H1 H2 He; [assumption|].
  apply chain_cons in H1. destruct H1 as [Hx H1].
  change ((x :: l1) ++ l2) with (x :: (l1 ++ l2)). apply chain_cons. split.
  - destruct l1 as [|y l1]; simpl.
    + destruct l2 as [|z l2]; [now left|right].
      apply He; discriminate.
    + right. destruct Hx as [Hx|Hx]; [discriminate|exact Hx].
  - apply IH; try assumption. intros N1 N2.
    destruct l1 as [|y l1]; [congruence|]. apply He; [discriminate|assumption].
Qed.

Lemma chain_app_edge l1 : forall l2,
  chain (l1 ++ l2) -> l1 <> [] -> l2 <> [] ->
  edge G (last l1 "") (hd "" l2).
Proof.
  induction l1 as [|x l1 IH]; intros l2 H N1 N2; [congruence|].
  change ((x :: l1) ++ l2) with (x :: (l1 ++ l2)) in H.
  apply chain_cons in H. destruct H as [Hx H].
  destruct l1 as [|y l1].
  - simpl in *. destruct Hx as [Hx|Hx]; [congruence|exact Hx].
  - change (last (x :: y :: l1) "") with (last (y :: l1) "").
    apply IH; [assumption|discriminate|assumption].
Qed.

Lemma last_app_r (l1 l2 : list string) :
  l2 <> [] -> last (l1 ++ l2) "" = last l2 "".
Proof.
  intros N. induction l1 as [|x l1 IH]; [reflexivity|].
  simpl. destruct (l1 ++ l2) eqn:E; [|exact IH].
  apply app_eq_nil in E. tauto.
Qed.

Lemma hd_app_l (l1 l2 : list string) :
  l1 <> [] -> hd "" (l1 ++ l2) = hd "" l1.
Proof. destruct l1; [congruence|reflexivity]. Qed.

Lemma rotation_cycle a b :
  elementary_cycle (a ++ b) -> elementary_cycle (b ++ a).
Proof.
  intros (N & ND & Hc & He).
  destruct a as [|x a]; [now rewrite app_nil_r|].
  destruct b as [|y b]; [now rewrite app_nil_r in *|].
  split; [discriminate|]. split; [|split].
  - apply Permutation_NoDup with ((x :: a) ++ y :: b); [|assumption].
    apply Permutation_app_comm.
  - apply chain_app.
    + now apply (chain_app_r G (x :: a)).
    + now apply (chain_app_l G (x :: a) (y :: b)).
    + intros _ _. unfold closes in He.
      rewrite last_app_r, hd_app_l in He; [assumption|discriminate..].
  - unfold closes. rewrite last_app_r, hd_app_l by discriminate.
    apply chain_app_edge; [assumption|discriminate..].
Qed.

Lemma loopfree_In u w :
  In w (nx.loopfree_neighbors G u) <-> edge G u w /\ w <> u.
Proof.
  unfold nx.loopfree_neighbors, edge. rewrite filter_In.
  destruct (String.eqb w u) eqn:E; simpl.
  - apply String.eqb_eq in E. intuition congruence.
  - apply String.eqb_neq in E. intuition congruence.
Qed.

Lemma cycle_search_sound allowed start : forall fuel path cur c,
  path <> [] -> NoDup path -> chain path ->
  last path "" = cur -> hd "" path = start ->
  In c (nx.cycle_search fuel G allowed start path cur) ->
  elementary_cycle c.
Proof.
  induction fuel as [|fuel IH]; intros path cur c N ND Hc Hl Hh Hin;
    [contradiction|].
  simpl in Hin. apply in_flat_map in Hin. destruct Hin as (w & Hw & Hin).
  apply loopfree_In in Hw. destruct Hw as [Hw Hne].
  destruct (String.eqb w start) eqn:E.
  - apply String.eqb_eq in E. destruct Hin as [<-|[]].
    split; [assumption|]. split; [assumption|]. split; [assumption|].
    unfold closes. now rewrite Hl, Hh, <- E.
  - destruct (mem w allowed && negb (mem w path)) eqn:C; [|contradiction].
    apply andb_prop in C. destruct C as [_ C].
    apply negb_true_iff, mem_false in C.
    apply (IH (path ++ [w]) w c); try assumption.
    + destruct path; discriminate.
    + apply NoDup_app; [assumption|repeat constructor; easy|].
      intros x Hx [<-|[]]. contradiction.
    + apply chain_app; [assumption|exact I|]. intros _ _. now rewrite Hl.
    + apply last_last.
    + rewrite hd_app_l; assumption.
Qed.

(** Soundness: every list the search returns is an elementary cycle. *)
Theorem simple_cycles_sound c :
  In c (nx.simple_cycles G) -> elementary_cycle c.
Proof.
  unfold nx.simple_cycles. rewrite in_app_iff. intros [H|H].
  - apply in_map_iff in H. destruct H as (v & <- & H).
    apply filter_In in H. destruct H as [_ H]. apply mem_In in H.
    split; [discriminate|]. split; [repeat constructor; easy|].
    split; [exact I|exact H].
  - induction (dkeys (nx.succ_ G)) as [|v rest IH]; [contradiction|].
    simpl in H. apply in_app_iff in H. destruct H as [H|H]; [|auto].
    apply (@cycle_search_sound rest v (S (length rest)) [v] v c);
      first [reflexivity | assumption | discriminate | exact I
             | repeat constructor; easy].
Qed.

Lemma nodup_hd_last (l : list string) :
  NoDup l -> 2 <= length l -> hd "" l <> last l "".
Proof.
  intros ND L. destruct l as [|x [|y l]]; simpl in L; try lia.
  change (hd "" (x :: y :: l)) with x.
  change (last (x :: y :: l) "") with (last (y :: l) "").
  inversion ND as [|? ? Hn _]; subst. intros E. apply Hn. rewrite E.
  destruct (exists_last (l := y :: l)) as (l' & z & ->); [discriminate|].
  rewrite last_last. apply in_app_iff. right. now left.
Qed.

Lemma cycle_search_complete allowed start : forall rem fuel path cur,
  path <> [] -> last path "" = cur -> hd "" path = start ->
  NoDup (path ++ rem) -> chain (path ++ rem) -> closes (path ++ rem) ->
  2 <= length (path ++ rem) ->
  (forall x, In x rem -> In x allowed) ->
  length rem < fuel ->
  In (path ++ rem) (nx.cycle_search fuel G allowed start path cur).
Proof.
  induction rem as [|w rem IH]; intros fuel path cur N Hl Hh ND Hc He L Ha F;
    (destruct fuel as [|fuel]; [simpl in F; lia|]);
    simpl; apply in_flat_map.
  - rewrite app_nil_r in *. exists start. split.
    + apply loopfree_In. unfold closes in He. rewrite Hl, Hh in He.
      split; [assumption|]. rewrite <- Hl, <- Hh. now apply nodup_hd_last.
    + rewrite String.eqb_refl. now left.
  - assert (Hw : ~ In w path).
    { apply NoDup_remove_2 in ND. intros H. apply ND.
      apply in_app_iff. now left. }
    assert (Hcur : In cur path).
    { rewrite <- Hl. destruct (exists_last N) as (l' & z & ->).
      rewrite last_last. apply in_app_iff. right. now left. }
    assert (Hstart : In start path).
    { rewrite <- Hh. destruct path; [congruence|now left]. }
    exists w. split.
    + apply loopfree_In. split; [|intros ->; contradiction].
      rewrite <- Hl. apply (@chain_app_edge path (w :: rem));
        [assumption|assumption|discriminate].
    + replace (String.eqb w start) with false
        by (symmetry; apply String.eqb_neq; intros ->; contradiction).
      replace (mem w allowed) with true
        by (symmetry; apply mem_In, Ha; now left).
      replace (mem w path) with false by (symmetry; now apply mem_false).
      simpl. replace (path ++ w :: rem) with ((path ++ [w]) ++ rem)
        by (now rewrite <- app_assoc).
      apply IH.
      * destruct path; discriminate.
      * apply last_last.
      * rewrite hd_app_l; assumption.
      * now rewrite <- app_assoc.
      * now rewrite <- app_assoc.
      * now rewrite <- app_assoc.
      * rewrite <- app_assoc. exact L.
      * intros x Hx. apply Ha. now right.
      * simpl in F. lia.
Qed.

Lemma directed_cycle_search_cons v rest :
  nx.directed_cycle_search G (v :: rest)
  = nx.cycle_search (S (length rest)) G rest v [v] v
    ++ nx.directed_cycle_search G rest.
Proof. reflexivity. Qed.

Lemma directed_cycle_search_complete : forall ns c,
  elementary_cycle c -> 2 <= length c ->
  (forall x, In x c -> In x ns) ->
  exists c', rotation c c' /\ In c' (nx.directed_cycle_search G ns).
Proof.
  induction ns as [|v rest IH]; intros c E L Hn.
  - destruct c as [|x c]; [simpl in L; lia|].
    destruct (Hn x (or_introl eq_refl)).
  - destruct (in_dec string_dec v c) as [Hv|Hv].
    + apply in_split in Hv. destruct Hv as (a & b & ->).
      exists ((v :: b) ++ a). split; [now exists a, (v :: b)|].
      apply rotation_cycle in E. destruct E as (_ & ND & Hc & He).
      assert (Hrest : forall x, In x (b ++ a) -> In x rest).
      { intros x Hx. simpl in ND. inversion ND as [|? ? Hnv _]; subst.
        destruct (Hn x) as [<-|H]; [|contradiction|assumption].
        apply in_app_iff in Hx. apply in_app_iff.
        destruct Hx as [Hx|Hx]; [right; now right|now left]. }
      rewrite directed_cycle_search_cons. apply in_app_iff. left.
      change ((v :: b) ++ a) with ([v] ++ (b ++ a)) in *.
      apply cycle_search_complete; try assumption; try reflexivity.
      * discriminate.
      * assert (Hlen : length (a ++ v :: b) = length ([v] ++ b ++ a))
          by (rewrite !length_app; simpl; lia).
        lia.
      * assert (Hl : length (b ++ a) <= length rest).
        { apply NoDup_incl_length; [|exact Hrest].
          simpl in ND. now inversion ND. }
        lia.
    + destruct (IH c E L) as (c' & R & Hin).
      * intros x Hx. destruct (Hn x Hx) as [<-|H]; [contradiction|assumption].
      * exists c'. split; [assumption|].
        rewrite directed_cycle_search_cons. apply in_app_iff. now right.
Qed.

Lemma cycle_member_edge c x :
  elementary_cycle c -> In x c -> exists y, edge G x y.
Proof.
  intros E Hx. apply in_split in Hx. destruct Hx as (a & b & ->).
  apply rotation_cycle in E. destruct E as (_ & _ & Hc & He).
  destruct (b ++ a) as [|y l] eqn:Eq.
  - exists x. simpl in He. rewrite Eq in He. exact He.
  - exists y. simpl in Hc. rewrite Eq in Hc. tauto.
Qed.

(** Completeness: the search returns a rotation of every elementary
    cycle of a well-formed graph. *)
Theorem simple_cycles_complete c :
  wf G -> elementary_cycle c ->
  exists c', rotation c c' /\ In c' (nx.simple_cycles G).
Proof.
  intros W E.
  assert (Hn : forall x, In x c -> In x (dkeys (nx.succ_ G))).
  { intros x Hx. destruct (@cycle_member_edge c x E Hx) as (y & Hy).
    now apply (wf_succ_dom W x y). }
  destruct c as [|x [|y c]].
  - destruct E as [N _]. congruence.
  - exists [x]. split; [now exists [], [x]|].
    unfold nx.simple_cycles. apply in_app_iff. left.
    apply in_map_iff. exists x. split; [reflexivity|].
    apply filter_In. split; [apply Hn; now left|].
    apply mem_In. destruct E as (_ & _ & _ & He). exact He.
  - destruct (@directed_cycle_search_complete (dkeys (nx.succ_ G))
                (x :: y :: c) E) as (c' & R & Hin);
      [simpl; lia|assumption|].
    exists c'. split; [assumption|].
    unfold nx.simple_cycles. apply in_app_iff. now right.
Qed.
End CycleSearchFacts.

(** ** The graph holds the declared dependencies and nothing else *)

Section GraphExact.
Import spec analyzer.

(** X1. The graph of [build_dependency_graph] has a node exactly for every
    scanned module and every declared dependency, and an edge exactly
    for every declaration; a name or a declaration that occurs twice
    gives one node and one edge, and predecessors mirror successors. *)
Theorem graph_exact (self : OdooModuleAnalyzer) :
  let G := fst (build_dependency_graph self) in
  NoDup (nodes G)
  /\ (forall x, nx.has_node G x = true <-> graph_node (modules self) x)
  /\ (forall u, NoDup (nx.neighbors G u))
  /\ (forall u v, In v (nx.neighbors G u) <-> depends_on (modules self) u v)
  /\ (forall u v, In u (nx.predecessors G v)
                  <-> depends_on (modules self) u v).
Proof.
  simpl. destruct (dependency_graph_spec (modules self)) as (I & N & E).
  pose proof (ni_wf I) as W.
  split; [apply W|]. split; [|split; [apply W|split]].
  - intros x. rewrite has_node_nodes by assumption. apply N.
  - intros u v. apply E.
  - intros u v. rewrite <- (wf_sym W). apply E.
Qed.

(** X2. [get_all_dependencies] returns, without repetition, the names the
    module depends on through one or more declarations, the module
    itself left out; without [include_core] the core modules are taken
    out of that set, and what is reached through them stays. *)
Theorem get_all_dependencies_closure
        (self : OdooModuleAnalyzer) (name : string) (include_core : bool) :
  graph_current self ->
  let deps := fst (get_all_dependencies self name include_core) in
  NoDup deps
  /\ forall x, In x deps
               <-> x <> name
                   /\ depends_transitively (modules self) name x
                   /\ (include_core = false -> ~ In x CORE_MODULES).
Proof.
  intros H.
  destruct (get_all_dependencies_spec name H)
    as (deps & self' & E & _ & _ & ND & D).
  assert (F : fst (get_all_dependencies self name include_core)
              = if include_core then deps
                else filter (fun d => negb (mem d CORE_MODULES)) deps).
  { revert E. unfold get_all_dependencies.
    destruct (ensure_graph self) as [G s].
    destruct (negb (nx.has_node G name)).
    - intros [= <- _]. now destruct include_core.
    - intros [= <- _]. now destruct include_core. }
  simpl. rewrite F. destruct include_core.
  - split; [assumption|]. intros x. rewrite D.
    intuition congruence.
  - split; [now apply NoDup_filter|]. intros x.
    rewrite filter_In, D, negb_true_iff. split.
    + intros [[H1 H2] H3]. split; [assumption|]. split; [assumption|].
      intros _. apply mem_false in H3. exact H3.
    + intros (H1 & H2 & H3). split; [tauto|].
      destruct (mem x CORE_MODULES) eqn:M; [|reflexivity].
      apply mem_In in M. exfalso. now apply H3.
Qed.

Lemma get_all_dependencies_closure_witness :
  graph_current (analyzer_of [("A", ["sale"]); ("sale", ["B"])])
  /\ In "B" (fst (get_all_dependencies
                    (analyzer_of [("A", ["sale"]); ("sale", ["B"])])
                    "A" false)).
Proof.
  assert (Hc : graph_current
                 (analyzer_of [("A", ["sale"]); ("sale", ["B"])]))
    by (now left).
  split; [assumption|].
  destruct (get_all_dependencies_closure "A" false Hc) as [_ D].
  apply D. split; [discriminate|]. split.
  - apply t_trans with "sale"; apply t_step.
    + exists (sample_module "A" ["sale"]). simpl. auto.
    + exists (sample_module "sale" ["B"]). simpl. auto.
  - intros _. intros C. simpl in C.
    repeat (destruct C as [C|C]; [discriminate|]). exact C.
Defined.

(** X3. [b] is among the dependencies of [a] exactly when [a] is among the
    reverse dependencies of [b]. *)
Theorem dependencies_dual (self : OdooModuleAnalyzer) (a b : string) :
  graph_current self ->
  In b (fst (get_all_dependencies self a true))
  <-> In a (fst (get_reverse_dependencies self b)).
Proof.
  intros H.
  destruct (get_all_dependencies_spec a H) as (deps & s1 & E1 & _ & _ & _ & D).
  destruct (get_reverse_dependencies_spec b H)
    as (rdeps & s2 & E2 & _ & _ & _ & R).
  rewrite E1, E2. simpl. rewrite D, R. intuition congruence.
Qed.

Lemma dependencies_dual_witness :
  graph_current (analyzer_of [("A", ["B"]); ("B", ["C"])])
  /\ (In "C" (fst (get_all_dependencies
                     (analyzer_of [("A", ["B"]); ("B", ["C"])]) "A" true))
      <-> In "A" (fst (get_reverse_dependencies
                         (analyzer_of [("A", ["B"]); ("B", ["C"])]) "C"))).
Proof.
  assert (Hc : graph_current (analyzer_of [("A", ["B"]); ("B", ["C"])]))
    by (now left).
  split; [assumption|].
  exact (dependencies_dual "A" "C" Hc).
Defined.
End GraphExact.

(** ** Cycle detection and the install order *)

Section CycleFacts.
Import spec analyzer inv.

Lemma chain_linked G l : chain G l <-> linked (edge G) l.
Proof.
  induction l as [|x l IH]; [simpl; tauto|].
  destruct l as [|y l]; [simpl; tauto|].
  change (chain G (x :: y :: l)) with (edge G x y /\ chain G (y :: l)).
  change (linked (edge G) (x :: y :: l))
    with (edge G x y /\ linked (edge G) (y :: l)).
  tauto.
Qed.

Lemma linked_ext (R R' : string -> string -> Prop) l :
  (forall a b, R a b <-> R' a b) -> linked R l <-> linked R' l.
Proof.
  intros H. induction l as [|x l IH]; [simpl; tauto|].
  destruct l as [|y l]; [simpl; tauto|].
  change (linked R (x :: y :: l)) with (R x y /\ linked R (y :: l)).
  change (linked R' (x :: y :: l)) with (R' x y /\ linked R' (y :: l)).
  rewrite (H x y). tauto.
Qed.

Lemma elementary_dependency_cycle mods c :
  elementary_cycle (dependency_graph mods) c <-> dependency_cycle mods c.
Proof.
  destruct (dependency_graph_spec mods) as (_ & _ & E).
  unfold elementary_cycle, dependency_cycle, closes.
  rewrite chain_linked, (linked_ext _ _ c E), E. tauto.
Qed.

(** A walk between two nodes, as a chain. *)
Lemma reaches_chain G x y :
  reaches G x y -> exists l, chain G (x :: l ++ [y]).
Proof.
  induction 1 as [x y H|x y z _ (l1 & H1) _ (l2 & H2)].
  - exists []. simpl. tauto.
  - exists (l1 ++ y :: l2).
    replace (x :: (l1 ++ y :: l2) ++ [z])
      with ((x :: l1) ++ (y :: l2 ++ [z]))
      by (simpl; now rewrite <- app_assoc).
    apply chain_app.
    + apply (chain_app_l G (x :: l1) [y]). exact H1.
    + exact H2.
    + intros _ _.
      apply (@chain_app_edge G (x :: l1) [y]); [exact H1|discriminate..].
Qed.

(** A closed walk holds an elementary cycle. *)
Lemma closed_chain_cycle G : forall n l x,
  length l <= n -> chain G (x :: l ++ [x]) ->
  exists c, elementary_cycle G c.
Proof.
  induction n as [|n IH]; intros l x Hl Hc.
  - destruct l; [|simpl in Hl; lia]. exists [x].
    split; [discriminate|]. split; [repeat constructor; easy|].
    split; [exact I|]. simpl in Hc. unfold closes. simpl. tauto.
  - destruct (ListDec.NoDup_dec string_dec (x :: l)) as [ND|ND].
    + exists (x :: l). split; [discriminate|]. split; [assumption|]. split.
      * apply (chain_app_l G (x :: l) [x]). exact Hc.
      * unfold closes. change (hd "" (x :: l)) with (hd "" [x]).
        apply (@chain_app_edge G (x :: l) [x]); [exact Hc|discriminate..].
    + apply not_nodup_split in ND.
      destruct ND as (y & l1 & l2 & l3 & E).
      apply (IH l2 y).
      * apply (f_equal (@length string)) in E.
        rewrite length_app in E. simpl in E.
        rewrite length_app in E. simpl in E. lia.
      * change (x :: l ++ [x]) with ((x :: l) ++ [x]) in Hc.
        rewrite E in Hc.
        replace ((l1 ++ y :: l2 ++ y :: l3) ++ [x])
          with (l1 ++ (y :: l2 ++ [y]) ++ (l3 ++ [x])) in Hc.
        -- apply chain_app_r in Hc. now apply chain_app_l in Hc.
        -- simpl. rewrite <- !app_assoc. simpl.
           now rewrite <- !app_assoc.
Qed.

Lemma reaches_cycle G x :
  reaches G x x -> exists c, elementary_cycle G c.
Proof.
  intros H. apply reaches_chain in H. destruct H as (l & H).
  now apply (@closed_chain_cycle G (length l) l x).
Qed.

Lemma cycle_reaches G c :
  elementary_cycle G c -> exists x, reaches G x x.
Proof.
  intros (N & _ & Hc & He). destruct c as [|x c]; [congruence|].
  exists x. unfold closes in He. simpl hd in He.
  destruct c as [|y c].
  - simpl in He. now apply t_step.
  - destruct (@exists_last _ (y :: c)) as (m & z & E); [discriminate|].
    rewrite E in *. rewrite app_comm_cons, last_last in He.
    apply t_trans with z; [|now apply t_step].
    destruct m as [|a m].
    + simpl in Hc. apply t_step. tauto.
    + apply chain_reach with (l := a :: m). exact Hc.
Qed.

Lemma cycles_acyclic mods :
  nx.simple_cycles (dependency_graph mods) = [] <-> acyclic mods.
Proof.
  pose proof (dependency_graph_wf mods) as W. split.
  - intros E x Hx. apply reaches_depends in Hx.
    apply reaches_cycle in Hx. destruct Hx as (c & Hc).
    destruct (simple_cycles_complete W Hc) as (c' & _ & Hin).
    rewrite E in Hin. contradiction.
  - intros Hac.
    destruct (nx.simple_cycles (dependency_graph mods)) as [|c l] eqn:E;
      [reflexivity|].
    exfalso. assert (Hc : In c (nx.simple_cycles (dependency_graph mods)))
      by (rewrite E; now left).
    apply simple_cycles_sound in Hc. apply cycle_reaches in Hc.
    destruct Hc as (x & Hx). apply reaches_depends in Hx.
    now apply (Hac x).
Qed.

(** X4. [find_circular_dependencies] returns dependency cycles only, and a
    rotation of every dependency cycle; its result is empty exactly
    when no module depends on itself through one or more
    declarations. *)
Theorem circular_dependencies_spec (self : OdooModuleAnalyzer) :
  graph_current self ->
  let cycles := fst (find_circular_dependencies self) in
  (forall c, In c cycles -> dependency_cycle (modules self) c)
  /\ (forall c, dependency_cycle (modules self) c ->
                exists c', rotation c c' /\ In c' cycles)
  /\ (cycles = [] <-> acyclic (modules self)).
Proof.
  intros H. simpl. rewrite (find_circular_dependencies_eq H).
  pose proof (dependency_graph_wf (modules self)) as W.
  split; [|split].
  - intros c Hc. apply elementary_dependency_cycle.
    now apply simple_cycles_sound.
  - intros c Hc. apply elementary_dependency_cycle in Hc.
    now apply simple_cycles_complete.
  - apply cycles_acyclic.
Qed.

Lemma circular_dependencies_spec_witness :
  graph_current (analyzer_of [("A", ["B"]); ("B", ["A"])])
  /\ exists c', rotation ["B"; "A"] c'
                /\ In c' (fst (find_circular_dependencies
                                 (analyzer_of [("A", ["B"]); ("B", ["A"])]))).
Proof.
  assert (Hc : graph_current (analyzer_of [("A", ["B"]); ("B", ["A"])]))
    by (now left).
  split; [assumption|].
  destruct (circular_dependencies_spec Hc) as (_ & C & _).
  apply C. split; [discriminate|]. split.
  - repeat constructor; simpl; intuition discriminate.
  - split.
    + simpl. split; [|exact I].
      exists (sample_module "B" ["A"]). simpl. auto.
    + simpl. exists (sample_module "A" ["B"]). simpl. auto.
Defined.

Lemma before_filter (f : string -> bool) l x y :
  before l x y -> f x = true -> f y = true -> before (filter f l) x y.
Proof.
  intros (l1 & l2 & -> & Hx) Fx Fy.
  exists (filter f l1), (filter f l2). split.
  - rewrite filter_app. simpl. now rewrite Fy.
  - apply filter_In. tauto.
Qed.

Lemma install_order_cases
      (self : OdooModuleAnalyzer) (module_names : option (list string)) :
  graph_current self ->
  exists order self',
    get_install_order self module_names = Some (Return order, self')
    /\ graph_current self' /\ modules self' = modules self
    /\ NoDup order
    /\ (forall v, In v order -> graph_node (modules self) v)
    /\ (forall A B, In A order -> depends_on (modules self) A B ->
                    before order B A)
    /\ (nx.simple_cycles (dependency_graph (modules self)) <> [] ->
        order = []).
Proof.
  intros H.
  destruct (ensure_graph_eq H) as (self' & E & Em & Hc).
  pose proof (dependency_graph_wf (modules self)) as W.
  destruct (reverse_spec W) as (WR & _ & _).
  destruct (topological_sort_result WR) as ([l|e] & Es & R).
  - pose proof (@sorted_acyclic _ _ Es) as Hac.
    destruct (sort_acyclic Hac) as (l' & Es' & ND & Hn & Hb).
    assert (l' = l) by congruence. subst l'.
    assert (Hcyc : nx.simple_cycles (dependency_graph (modules self)) <> []
                   -> False).
    { intros N. apply N. now apply cycles_acyclic. }
    unfold get_install_order. rewrite E, Es.
    destruct module_names as [[|n ns]|].
    + exists l, self'. split; [reflexivity|].
      split; [assumption|]. split; [assumption|]. split; [assumption|].
      split; [intros v; apply Hn|]. split; [|intros N; now destruct Hcyc].
      intros A B _ HAB. now apply Hb.
    + destruct (@required_modules_spec (n :: ns) self' [] Hc)
        as (required & self2 & Er & Hc2 & Em2 & Hr).
      rewrite Er. exists (filter (fun m => mem m required) l), self2.
      split; [reflexivity|].
      split; [assumption|]. split; [congruence|].
      split; [now apply NoDup_filter|].
      split; [|split; [|intros N; now destruct Hcyc]].
      * intros v Hv. apply filter_In in Hv. now apply Hn.
      * intros A B HA HAB. apply filter_In in HA. destruct HA as [_ HA].
        apply before_filter; [now apply Hb| |assumption].
        apply mem_In. apply mem_In in HA. apply Hr. apply Hr in HA.
        rewrite Em in *. right. right.
        destruct HA as [[]|[HA|(n0 & Hn0 & HA)]].
        -- exists A. split; [assumption|]. now apply t_step.
        -- exists n0. split; [assumption|].
           apply t_trans with A; [assumption|now apply t_step].
    + exists l, self'. split; [reflexivity|].
      split; [assumption|]. split; [assumption|]. split; [assumption|].
      split; [intros v; apply Hn|]. split; [|intros N; now destruct Hcyc].
      intros A B _ HAB. now apply Hb.
  - destruct R as ((msg & ->) & _).
    unfold get_install_order. rewrite E, Es.
    exists [], self'. split; [reflexivity|].
    split; [assumption|]. split; [assumption|]. split; [constructor|].
    split; [intros v []|]. split; [intros A B []|reflexivity].
Qed.

(** X5. Every install order is safe.  [get_install_order], for all modules
    or for a subset, never raises; it lists no name twice and only
    nodes of the graph; whenever it lists a module, it lists every
    declared dependency of that module before it; and it is empty
    whenever [find_circular_dependencies] reports a cycle. *)
Theorem install_order_safe
        (self : OdooModuleAnalyzer) (module_names : option (list string)) :
  graph_current self ->
  exists order self',
    get_install_order self module_names = Some (Return order, self')
    /\ NoDup order
    /\ (forall v, In v order -> graph_node (modules self) v)
    /\ (forall A B, In A order -> depends_on (modules self) A B ->
                    before order B A)
    /\ (fst (find_circular_dependencies self) <> [] -> order = []).
Proof.
  intros H. rewrite (find_circular_dependencies_eq H).
  destruct (install_order_cases module_names H)
    as (order & self' & E & _ & _ & ND & Hn & Hb & Hc).
  exists order, self'. split; [exact E|]. split; [exact ND|].
  split; [exact Hn|]. split; [exact Hb|exact Hc].
Qed.

Lemma install_order_safe_witness :
  graph_current (analyzer_of [("A", ["B"]); ("B", [])])
  /\ exists order self',
      get_install_order (analyzer_of [("A", ["B"]); ("B", [])]) (Some ["A"])
      = Some (Return order, self')
      /\ NoDup order.
Proof.
  assert (Hc : graph_current (analyzer_of [("A", ["B"]); ("B", [])]))
    by (now left).
  split; [assumption|].
  destruct (install_order_safe (Some ["A"]) Hc)
    as (order & self' & E & ND & _).
  exists order, self'. split; assumption.
Defined.
End CycleFacts.

(** ** Missing dependencies *)

Section MissingFacts.
Import spec analyzer.

Lemma dget_app {V : Type} (d d' : dict V) k :
  dget (d ++ d') k
  = match dget d k with Some v => Some v | None => dget d' k end.
Proof.
  induction d as [|[k0 v0] d IH]; simpl; [reflexivity|].
  destruct (String.eqb k0 k); [reflexivity|exact IH].
Qed.

Lemma missing_of_In mods m d :
  In d (missing_of mods m)
  <-> In d (depends m) /\ ~ In d (dkeys mods) /\ ~ In d CORE_MODULES.
Proof.
  unfold missing_of. rewrite filter_In, andb_true_iff, !negb_true_iff.
  rewrite dmem_false_keys, mem_false. tauto.
Qed.

Lemma find_missing_dependencies_get self :
  NoDup (dkeys (modules self)) ->
  forall n,
  dget (find_missing_dependencies self) n
  = match dget (modules self) n with
    | Some m => match missing_of (modules self) m with
                | [] => None
                | d :: l => Some (d :: l)
                end
    | None => None
    end.
Proof.
  intros ND.
  set (f := fun (missing : dict (list string)) (nm : string * OdooModule) =>
              match missing_of (modules self) (snd nm) with
              | [] => missing
              | _ :: _ => dset missing (fst nm)
                               (missing_of (modules self) (snd nm))
              end).
  set (P := fun (pre : dict OdooModule) (missing : dict (list string)) =>
              forall n, dget missing n
                        = match dget pre n with
                          | Some m => match missing_of (modules self) m with
                                      | [] => None
                                      | d :: l => Some (d :: l)
                                      end
                          | None => None
                          end).
  change (P (modules self) (fold_left f (modules self) [])).
  apply fold_left_prefix_ind; unfold P, f; clear P f.
  - reflexivity.
  - intros pre [k m] suf acc E IH n. rewrite dget_app. simpl.
    assert (Hk : dget pre k = None).
    { apply dget_None_keys. intros Hin.
      rewrite E in ND. unfold dkeys in ND. rewrite map_app in ND.
      simpl in ND. apply NoDup_remove_2 in ND. apply ND.
      apply in_app_iff. now left. }
    destruct (String.eqb k n) eqn:Ek.
    + apply String.eqb_eq in Ek. subst n. rewrite Hk.
      destruct (missing_of (modules self) m) as [|d l] eqn:Em.
      * rewrite IH, Hk. reflexivity.
      * rewrite dget_dset, String.eqb_refl. reflexivity.
    + destruct (missing_of (modules self) m) as [|d l] eqn:Em.
      * rewrite IH. now destruct (dget pre n).
      * rewrite dget_dset, Ek, IH. now destruct (dget pre n).
Qed.

(** X6. [find_missing_dependencies] maps a scanned module to the declared
    dependencies that are neither scanned nor core, in the order of the
    declaration; a module without such a dependency has no entry, and
    no entry is an empty list. *)
Theorem missing_dependencies_spec (self : OdooModuleAnalyzer) :
  NoDup (dkeys (modules self)) ->
  let missing := find_missing_dependencies self in
  (forall n deps, dget missing n = Some deps ->
      deps <> []
      /\ exists m, dget (modules self) n = Some m
           /\ deps = missing_of (modules self) m)
  /\ (forall n m d, dget (modules self) n = Some m ->
        In d (depends m) -> ~ In d (dkeys (modules self)) ->
        ~ In d CORE_MODULES ->
        exists deps, dget missing n = Some deps /\ In d deps)
  /\ (forall n deps d, dget missing n = Some deps ->
        In d deps ->
        ~ In d (dkeys (modules self)) /\ ~ In d CORE_MODULES
        /\ depends_on (modules self) n d).
Proof.
  intros ND. cbv zeta. split; [|split].
  - intros n deps. rewrite find_missing_dependencies_get by assumption.
    destruct (dget (modules self) n) as [m|]; [|discriminate].
    destruct (missing_of (modules self) m) as [|d l] eqn:E; [discriminate|].
    intros [= <-]. split; [discriminate|]. exists m. now rewrite E.
  - intros n m d Hm Hd Hs Hc.
    rewrite find_missing_dependencies_get, Hm by assumption.
    assert (Hin : In d (missing_of (modules self) m))
      by (apply missing_of_In; tauto).
    destruct (missing_of (modules self) m) as [|d0 l]; [contradiction|].
    eexists. split; [reflexivity|assumption].
  - intros n deps d. rewrite find_missing_dependencies_get by assumption.
    destruct (dget (modules self) n) as [m|] eqn:Hm; [|discriminate].
    destruct (missing_of (modules self) m) as [|d0 l] eqn:E; [discriminate|].
    intros [= <-] Hd. rewrite <- E in Hd. apply missing_of_In in Hd.
    split; [tauto|]. split; [tauto|].
    exists m. split; [now apply dget_Some_In|tauto].
Qed.

Lemma missing_dependencies_spec_witness :
  NoDup (dkeys (modules (analyzer_of [("A", ["sale"; "x_util"; "B"]);
                                      ("B", [])])))
  /\ exists deps,
      dget (find_missing_dependencies
              (analyzer_of [("A", ["sale"; "x_util"; "B"]); ("B", [])])) "A"
      = Some deps
      /\ In "x_util" deps.
Proof.
  assert (ND : NoDup (dkeys (modules
                 (analyzer_of [("A", ["sale"; "x_util"; "B"]); ("B", [])])))).
  { simpl. repeat constructor; simpl; intuition discriminate. }
  split; [assumption|].
  destruct (missing_dependencies_spec _ ND) as (_ & C & _).
  apply (C "A" (sample_module "A" ["sale"; "x_util"; "B"]) "x_util").
  - reflexivity.
  - simpl. auto.
  - simpl. intuition discriminate.
  - simpl. intuition discriminate.
Defined.

(** X7. Every missing dependency is a node of the dependency graph: an
    external placeholder whose [is_core] attribute is [False], and it
    is among the dependencies [get_all_dependencies] returns for the
    module. *)
Theorem missing_dependencies_in_graph
        (self : OdooModuleAnalyzer) (n d : string) (deps : list string) :
  NoDup (dkeys (modules self)) -> graph_current self ->
  dget (find_missing_dependencies self) n = Some deps -> In d deps ->
  external_node (modules self) (dependency_graph (modules self)) d
  /\ dget (external_attrs d) "is_core" = Some (nx.PyBool false)
  /\ In d (fst (get_all_dependencies self n true)).
Proof.
  intros ND H Hg Hd.
  assert (S : ~ In d (dkeys (modules self)) /\ ~ In d CORE_MODULES
              /\ depends_on (modules self) n d).
  { rewrite find_missing_dependencies_get in Hg by assumption.
    destruct (dget (modules self) n) as [m|] eqn:Hm; [|discriminate].
    destruct (missing_of (modules self) m) as [|d0 l] eqn:E; [discriminate|].
    injection Hg as <-. rewrite <- E in Hd. apply missing_of_In in Hd.
    split; [tauto|]. split; [tauto|].
    exists m. split; [now apply dget_Some_In|tauto]. }
  destruct S as (Hs & Hc & Hdep).
  destruct (dependency_graph_spec (modules self)) as (I & N & _).
  split; [|split].
  - split; [assumption|]. split; [|reflexivity].
    apply (ni_external I); [|assumption].
    apply N. right. now exists n.
  - apply mem_false in Hc. unfold external_attrs. cbn [dget].
    rewrite Hc. reflexivity.
  - destruct (get_all_dependencies_spec n H) as (l & s & E & _ & _ & _ & D).
    rewrite E. simpl. apply D. split; [|now apply t_step].
    intros ->. apply Hs. destruct Hdep as (m & Hm & _).
    apply (in_map fst) in Hm. exact Hm.
Qed.

Lemma missing_dependencies_in_graph_witness :
  NoDup (dkeys (modules (analyzer_of [("A", ["x_util"])])))
  /\ graph_current (analyzer_of [("A", ["x_util"])])
  /\ In "x_util"
        (fst (get_all_dependencies (analyzer_of [("A", ["x_util"])])
                                   "A" true)).
Proof.
  assert (ND : NoDup (dkeys (modules (analyzer_of [("A", ["x_util"])])))).
  { simpl. repeat constructor; simpl; intuition discriminate. }
  assert (Hc : graph_current (analyzer_of [("A", ["x_util"])]))
    by (now left).
  split; [assumption|]. split; [assumption|].
  apply (@missing_dependencies_in_graph
           (analyzer_of [("A", ["x_util"])]) "A" "x_util" ["x_util"]
           ND Hc).
  - reflexivity.
  - now left.
Defined.
End MissingFacts.

(** ** Version comparison *)

Section CompareFacts.
Import spec analyzer upgrade_analyzer.

Lemma insert_sorted_ascending x l :
  ascending l -> ascending (insert_sorted x l).
Proof.
  unfold ascending. induction l as [|y l IH]; intros H; [exact I|].
  cbn [insert_sorted]. destruct (String.leb x y) eqn:E.
  - split; assumption.
  - assert (Hyx : String.leb y x = true).
    { destruct (String.leb_total x y); congruence. }
    destruct l as [|z l].
    + cbn [insert_sorted linked]. tauto.
    + cbn [linked] in H. destruct H as [Hyz H]. specialize (IH H).
      cbn [insert_sorted] in *. destruct (String.leb x z);
        cbn [linked] in *; tauto.
Qed.

Lemma sorted_ascending l : ascending (sorted l).
Proof.
  induction l as [|x l IH]; [exact I|].
  simpl. now apply insert_sorted_ascending.
Qed.

Lemma set_diff_In a b x : In x (set_diff a b) <-> In x a /\ ~ In x b.
Proof.
  unfold set_diff. now rewrite filter_In, negb_true_iff, mem_false.
Qed.

Lemma set_inter_In a b x : In x (set_inter a b) <-> In x a /\ In x b.
Proof. unfold set_inter. now rewrite filter_In, mem_In. Qed.

Lemma set_diff_self a : set_diff a a = [].
Proof.
  destruct (set_diff a a) as [|x l] eqn:E; [reflexivity|].
  assert (H : In x (set_diff a a)) by (rewrite E; now left).
  apply set_diff_In in H. tauto.
Qed.

Lemma set_neqb_spec a b : set_neqb a b = false <-> same_set a b.
Proof.
  unfold set_neqb, same_set. rewrite negb_false_iff, andb_true_iff.
  rewrite !forallb_forall. split.
  - intros [H1 H2] x. split; intros H; apply mem_In; auto.
  - intros H. split; intros x Hx; apply mem_In; now apply H.
Qed.

Lemma fold_left_unchanged {A B : Type} (f : A -> B -> A) l a :
  (forall x, In x l -> f a x = a) -> fold_left f l a = a.
Proof.
  induction l as [|x l IH]; intros H; simpl; [reflexivity|].
  rewrite (H x) by now left. apply IH. intros y Hy. apply H. now right.
Qed.

(** A loop that appends at most one item per element. *)
Lemma fold_left_collect {A B : Type} (f : list B -> A -> list B)
      (g : A -> option B) :
  (forall acc x, f acc x = match g x with
                           | Some y => acc ++ [y]
                           | None => acc
                           end) ->
  forall l acc y,
    In y (fold_left f l acc)
    <-> In y acc \/ exists x, In x l /\ g x = Some y.
Proof.
  intros Hf. induction l as [|x l IH]; intros acc y; simpl.
  - split; [tauto|]. intros [H|(x & [] & _)]. assumption.
  - rewrite IH, Hf. destruct (g x) as [z|] eqn:E.
    + rewrite in_app_iff. simpl. split.
      * intros [[H|[<-|[]]]|(x' & H1 & H2)]; [tauto| |].
        -- right. exists x. tauto.
        -- right. exists x'. tauto.
      * intros [H|(x' & [<-|H1] & H2)]; [tauto| |].
        -- left. right. left. congruence.
        -- right. exists x'. tauto.
    + split.
      * intros [H|(x' & H1 & H2)]; [tauto|]. right. exists x'. tauto.
      * intros [H|(x' & [<-|H1] & H2)]; [tauto|congruence|].
        right. exists x'. tauto.
Qed.

Lemma compare_module_nil source target :
  _compare_module source target = []
  <-> version source = version target
      /\ category source = category target
      /\ application source = application target
      /\ same_set (depends source) (depends target).
Proof.
  unfold _compare_module. rewrite <- set_neqb_spec.
  destruct (String.eqb_spec (version source) (version target)) as [Ev|Ev];
    destruct (String.eqb_spec (category source) (category target)) as [Ec|Ec];
    destruct (Bool.eqb_spec (application source) (application target))
      as [Ea|Ea];
    destruct (set_neqb (depends source) (depends target));
    simpl; split; try discriminate; try tauto;
    try (intros (? & ? & ? & ?); congruence).
Qed.

Lemma compare_module_depends source target :
  In "依赖关系已变更" (_compare_module source target)
  <-> ~ same_set (depends source) (depends target).
Proof.
  rewrite <- set_neqb_spec. unfold _compare_module.
  destruct (negb (String.eqb (version source) (version target)));
    destruct (negb (String.eqb (category source) (category target)));
    destruct (negb (Bool.eqb (application source) (application target)));
    destruct (set_neqb (depends source) (depends target));
    destruct (application target);
    cbn [app In cat String.concat];
    (split; [intros H; try discriminate;
             repeat (destruct H as [H|H]; [discriminate|]);
             contradiction
            |intros H; try (exfalso; now apply H); auto 6]).
Qed.

(** The common modules, in the order of the loops. *)
Lemma common_In s t x :
  In x (sorted (set_inter (set_of_list (dkeys (modules s)))
                          (set_of_list (dkeys (modules t)))))
  <-> exists sm tm, dget (modules s) x = Some sm
                    /\ dget (modules t) x = Some tm.
Proof.
  rewrite sorted_In, set_inter_In, !set_of_list_In.
  rewrite <- !dmem_keys. unfold dmem.
  destruct (dget (modules s) x) as [sm|];
    destruct (dget (modules t) x) as [tm|]; split;
    try (intros [? ?]; discriminate);
    try (intros (? & ? & ? & ?); discriminate).
  - intros _. now exists sm, tm.
  - intros _. split; reflexivity.
Qed.

Lemma compare_same_modules (s t : OdooModuleAnalyzer) ms :
  modules s = modules t ->
  compare_versions (mkUpgradeAnalyzer (Some s) (Some t) ms)
  = Return (mkVersionDiff [] [] [] []).
Proof.
  intros E. unfold compare_versions.
  cbn [source_analyzer target_analyzer]. rewrite E.
  rewrite !set_diff_self. simpl sorted at 1 2.
  rewrite !fold_left_unchanged; [reflexivity| |].
  - intros x _. destruct (dget (modules t) x) as [m|]; [|reflexivity].
    now rewrite set_diff_self.
  - intros x _. destruct (dget (modules t) x) as [m|]; [|reflexivity].
    assert (N : _compare_module m m = [])
      by (apply compare_module_nil; repeat split; tauto).
    now rewrite N.
Qed.

(** X8. Comparing a module mapping with itself gives the empty difference:
    nothing added, removed or modified, and no dependency change. *)
Theorem compare_versions_same
        (self : UpgradeAnalyzer) (s t : OdooModuleAnalyzer) :
  source_analyzer self = Some s -> target_analyzer self = Some t ->
  modules s = modules t ->
  compare_versions self = Return (mkVersionDiff [] [] [] []).
Proof.
  intros Hs Ht E. destruct self as [so ta ms].
  cbn [source_analyzer target_analyzer] in Hs, Ht. subst so ta.
  now apply compare_same_modules.
Qed.

Lemma compare_versions_same_witness :
  compare_versions
    (mkUpgradeAnalyzer (Some (loaded [("A", ["B"]); ("B", [])]))
                       (Some (loaded [("A", ["B"]); ("B", [])])) [])
  = Return (mkVersionDiff [] [] [] []).
Proof.
  apply (@compare_versions_same _ (loaded [("A", ["B"]); ("B", [])])
                                (loaded [("A", ["B"]); ("B", [])]));
    reflexivity.
Defined.

(** X9. The added modules are the names scanned in the target and not in
    the source, the removed ones those scanned in the source and not in
    the target; both lists are in ascending order without repetition. *)
Theorem compare_versions_added_removed
        (self : UpgradeAnalyzer) (s t : OdooModuleAnalyzer)
        (diff : VersionDiff) :
  source_analyzer self = Some s -> target_analyzer self = Some t ->
  compare_versions self = Return diff ->
  (forall x, In x (added_modules diff)
             <-> In x (dkeys (modules t)) /\ ~ In x (dkeys (modules s)))
  /\ (forall x, In x (removed_modules diff)
                <-> In x (dkeys (modules s)) /\ ~ In x (dkeys (modules t)))
  /\ ascending (added_modules diff) /\ NoDup (added_modules diff)
  /\ ascending (removed_modules diff) /\ NoDup (removed_modules diff).
Proof.
  intros Hs Ht. unfold compare_versions. rewrite Hs, Ht.
  intros [= <-]. cbn [added_modules removed_modules].
  split; [|split; [|split; [|split; [|split]]]].
  - intros x. now rewrite sorted_In, set_diff_In, !set_of_list_In.
  - intros x. now rewrite sorted_In, set_diff_In, !set_of_list_In.
  - apply sorted_ascending.
  - apply sorted_nodup, NoDup_filter, set_of_list_nodup.
  - apply sorted_ascending.
  - apply sorted_nodup, NoDup_filter, set_of_list_nodup.
Qed.

Lemma compare_versions_added_removed_witness :
  exists diff,
    compare_versions
      (mkUpgradeAnalyzer (Some (loaded [("A", []); ("B", [])]))
                         (Some (loaded [("B", []); ("C", [])])) [])
    = Return diff
    /\ In "C" (added_modules diff) /\ In "A" (removed_modules diff).
Proof.
  eexists. split; [reflexivity|].
  destruct (@compare_versions_added_removed
              (mkUpgradeAnalyzer (Some (loaded [("A", []); ("B", [])]))
                                 (Some (loaded [("B", []); ("C", [])])) [])
              (loaded [("A", []); ("B", [])])
              (loaded [("B", []); ("C", [])])
              _ eq_refl eq_refl eq_refl) as (A & R & _).
  split; [apply A|apply R]; simpl; intuition discriminate.
Defined.

Lemma modified_modules_In
        (self : UpgradeAnalyzer) (s t : OdooModuleAnalyzer)
        (diff : VersionDiff) :
  source_analyzer self = Some s -> target_analyzer self = Some t ->
  compare_versions self = Return diff ->
  forall name changes,
    In (name, changes) (modified_modules diff)
    <-> exists sm tm,
        dget (modules s) name = Some sm /\ dget (modules t) name = Some tm
        /\ changes = _compare_module sm tm
        /\ ~ (version sm = version tm /\ category sm = category tm
              /\ application sm = application tm
              /\ same_set (depends sm) (depends tm)).
Proof.
  intros Hs Ht. unfold compare_versions. rewrite Hs, Ht.
  intros [= <-] name changes. cbn [modified_modules].
  rewrite (fold_left_collect _
             (fun name =>
                match dget (modules s) name, dget (modules t) name with
                | Some sm, Some tm =>
                    match _compare_module sm tm with
                    | [] => None
                    | c :: l => Some (name, c :: l)
                    end
                | _, _ => None
                end)).
  - split.
    + intros [[]|(x & Hx & Hg)].
      destruct (dget (modules s) x) as [sm|] eqn:Es; [|discriminate].
      destruct (dget (modules t) x) as [tm|] eqn:Et; [|discriminate].
      destruct (_compare_module sm tm) as [|c l] eqn:Ec; [discriminate|].
      injection Hg as <- <-. exists sm, tm.
      split; [assumption|]. split; [assumption|]. split; [now rewrite Ec|].
      intros N. apply compare_module_nil in N. congruence.
    + intros (sm & tm & Es & Et & -> & N). right. exists name. split.
      * apply common_In. now exists sm, tm.
      * rewrite Es, Et.
        destruct (_compare_module sm tm) as [|c l] eqn:Ec; [|reflexivity].
        exfalso. apply N. now apply compare_module_nil.
  - intros acc x. destruct (dget (modules s) x); [|reflexivity].
    destruct (dget (modules t) x); [|reflexivity].
    now destruct (_compare_module o o0).
Qed.

(** X10. A module is listed as modified exactly when it is scanned on both
    sides and [_compare_module] reports a change, which it does unless
    version, category and application flag are equal and the two
    dependency lists hold the same names (order and repetition do not
    count). *)
Theorem compare_versions_modified
        (self : UpgradeAnalyzer) (s t : OdooModuleAnalyzer)
        (diff : VersionDiff) :
  source_analyzer self = Some s -> target_analyzer self = Some t ->
  compare_versions self = Return diff ->
  forall name changes,
    In (name, changes) (modified_modules diff)
    <-> exists sm tm,
        dget (modules s) name = Some sm /\ dget (modules t) name = Some tm
        /\ changes = _compare_module sm tm
        /\ ~ (version sm = version tm /\ category sm = category tm
              /\ application sm = application tm
              /\ same_set (depends sm) (depends tm)).
Proof.
  intros Hs Ht Hd name changes.
  destruct (modified_modules_In self Hs Ht Hd name changes) as [H1 H2].
  split; [exact H1|exact H2].
Qed.

Lemma compare_versions_modified_witness :
  exists diff,
    compare_versions
      (mkUpgradeAnalyzer (Some (loaded [("A", ["B"]); ("B", [])]))
                         (Some (loaded [("A", ["C"]); ("C", [])])) [])
    = Return diff
    /\ In ("A", ["依赖关系已变更"]) (modified_modules diff).
Proof.
  eexists. split; [reflexivity|].
  apply (@compare_versions_modified
           (mkUpgradeAnalyzer (Some (loaded [("A", ["B"]); ("B", [])]))
                              (Some (loaded [("A", ["C"]); ("C", [])])) [])
           (loaded [("A", ["B"]); ("B", [])])
           (loaded [("A", ["C"]); ("C", [])])
           _ eq_refl eq_refl eq_refl).
  exists (sample_module "A" ["B"]), (sample_module "A" ["C"]).
  split; [reflexivity|]. split; [reflexivity|]. split; [reflexivity|].
  intros (_ & _ & _ & H). specialize (H "B"). simpl in H.
  intuition discriminate.
Defined.

(** X11. The dependency changes agree with the modified modules: a module
    has an entry exactly when its entry among the modified modules
    holds the change "依赖关系已变更"; the entry lists in ascending
    order the dependencies declared only in the target and those
    declared only in the source. *)
Theorem compare_versions_dependency_changes
        (self : UpgradeAnalyzer) (s t : OdooModuleAnalyzer)
        (diff : VersionDiff) :
  source_analyzer self = Some s -> target_analyzer self = Some t ->
  compare_versions self = Return diff ->
  (forall name,
      (exists added removed,
          In (name, added, removed) (dependency_changes diff))
      <-> exists changes, In (name, changes) (modified_modules diff)
                          /\ In "依赖关系已变更" changes)
  /\ (forall name added removed,
         In (name, added, removed) (dependency_changes diff) ->
         exists sm tm,
           dget (modules s) name = Some sm /\ dget (modules t) name = Some tm
           /\ (forall d, In d added
                         <-> In d (depends tm) /\ ~ In d (depends sm))
           /\ (forall d, In d removed
                         <-> In d (depends sm) /\ ~ In d (depends tm))
           /\ ascending added /\ ascending removed).
Proof.
  intros Hs Ht Hd.
  pose proof (modified_modules_In self Hs Ht Hd) as M.
  revert Hd. unfold compare_versions. rewrite Hs, Ht.
  intros [= <-]. cbn [dependency_changes modified_modules] in *.
  set (g := fun name =>
              match dget (modules s) name, dget (modules t) name with
              | Some sm, Some tm =>
                  match set_diff (set_of_list (depends tm))
                                 (set_of_list (depends sm)),
                        set_diff (set_of_list (depends sm))
                                 (set_of_list (depends tm)) with
                  | [], [] => None
                  | a, r => Some (name, sorted a, sorted r)
                  end
              | _, _ => None
              end).
  assert (C : forall y,
             In y (fold_left
                     (fun acc name =>
                        match dget (modules s) name, dget (modules t) name with
                        | Some source_mod, Some target_mod =>
                            match set_diff (set_of_list (depends target_mod))
                                           (set_of_list (depends source_mod)),
                                  set_diff (set_of_list (depends source_mod))
                                           (set_of_list (depends target_mod))
                            with
                            | [], [] => acc
                            | _, _ =>
                                acc ++
                                  [(name,
                                    sorted
                                      (set_diff
                                         (set_of_list (depends target_mod))
                                         (set_of_list (depends source_mod))),
                                    sorted
                                      (set_diff
                                         (set_of_list (depends source_mod))
                                         (set_of_list (depends target_mod))))]
                            end
                        | _, _ => acc
                        end)
                     (sorted (set_inter (set_of_list (dkeys (modules s)))
                                        (set_of_list (dkeys (modules t)))))
                     [])
             <-> exists x, In x (sorted (set_inter
                                           (set_of_list (dkeys (modules s)))
                                           (set_of_list (dkeys (modules t)))))
                           /\ g x = Some y).
  { intros y. rewrite (fold_left_collect _ g).
    - simpl. tauto.
    - intros acc x. unfold g.
      destruct (dget (modules s) x); [|reflexivity].
      destruct (dget (modules t) x); [|reflexivity].
      destruct (set_diff _ _); destruct (set_diff _ _); reflexivity. }
  assert (G : forall x name a r,
             g x = Some (name, a, r) ->
             x = name
             /\ exists sm tm,
                 dget (modules s) name = Some sm
                 /\ dget (modules t) name = Some tm
                 /\ a = sorted (set_diff (set_of_list (depends tm))
                                         (set_of_list (depends sm)))
                 /\ r = sorted (set_diff (set_of_list (depends sm))
                                         (set_of_list (depends tm)))
                 /\ ~ same_set (depends sm) (depends tm)).
  { intros x name a r. unfold g.
    destruct (dget (modules s) x) as [sm|] eqn:Es; [|discriminate].
    destruct (dget (modules t) x) as [tm|] eqn:Et; [|discriminate].
    destruct (set_diff (set_of_list (depends tm)) (set_of_list (depends sm)))
      as [|a0 la] eqn:Ea;
      destruct (set_diff (set_of_list (depends sm))
                         (set_of_list (depends tm)))
        as [|r0 lr] eqn:Er; [discriminate| | |];
      intros [= <- <- <-]; (split; [reflexivity|]);
      exists sm, tm; rewrite Es, Et, Ea, Er;
      (split; [reflexivity|]); (split; [reflexivity|]);
      (split; [reflexivity|]); (split; [reflexivity|]); intros S.
    - assert (H : In r0 (set_diff (set_of_list (depends sm))
                                  (set_of_list (depends tm))))
        by (rewrite Er; now left).
      apply set_diff_In in H. rewrite !set_of_list_In in H.
      destruct H as [H1 H2]. apply H2. now apply S.
    - assert (H : In a0 (set_diff (set_of_list (depends tm))
                                  (set_of_list (depends sm))))
        by (rewrite Ea; now left).
      apply set_diff_In in H. rewrite !set_of_list_In in H.
      destruct H as [H1 H2]. apply H2. now apply S.
    - assert (H : In a0 (set_diff (set_of_list (depends tm))
                                  (set_of_list (depends sm))))
        by (rewrite Ea; now left).
      apply set_diff_In in H. rewrite !set_of_list_In in H.
      destruct H as [H1 H2]. apply H2. now apply S. }
  split.
  - intros name. split.
    + intros (a & r & Hin). apply C in Hin. destruct Hin as (x & _ & Hg).
      apply G in Hg. destruct Hg as (_ & sm & tm & Es & Et & _ & _ & N).
      exists (_compare_module sm tm). split.
      * apply M. exists sm, tm. split; [assumption|]. split; [assumption|].
        split; [reflexivity|]. tauto.
      * now apply compare_module_depends.
    + intros (changes & Hin & Hc). apply M in Hin.
      destruct Hin as (sm & tm & Es & Et & -> & _).
      apply compare_module_depends in Hc.
      destruct (g name) as [[[n a] r]|] eqn:Eg.
      * pose proof (G _ _ _ _ Eg) as (<- & _).
        exists a, r. apply C. exists name. split; [|assumption].
        apply common_In. now exists sm, tm.
      * exfalso. apply Hc. unfold g in Eg. rewrite Es, Et in Eg.
        destruct (set_diff (set_of_list (depends tm))
                           (set_of_list (depends sm))) as [|a0 la] eqn:Ea;
          [|destruct (set_diff (set_of_list (depends sm))
                               (set_of_list (depends tm))); discriminate].
        destruct (set_diff (set_of_list (depends sm))
                           (set_of_list (depends tm))) as [|r0 lr] eqn:Er;
          [|discriminate].
        intros d. split; intros Hd.
        -- destruct (in_dec string_dec d (depends tm)) as [i|n0];
             [assumption|]. exfalso.
           assert (H : In d (set_diff (set_of_list (depends sm))
                                      (set_of_list (depends tm))))
             by (apply set_diff_In; rewrite !set_of_list_In; tauto).
           rewrite Er in H. contradiction.
        -- destruct (in_dec string_dec d (depends sm)) as [i|n0];
             [assumption|]. exfalso.
           assert (H : In d (set_diff (set_of_list (depends tm))
                                      (set_of_list (depends sm))))
             by (apply set_diff_In; rewrite !set_of_list_In; tauto).
           rewrite Ea in H. contradiction.
  - intros name a r Hin. apply C in Hin. destruct Hin as (x & _ & Hg).
    apply G in Hg. destruct Hg as (_ & sm & tm & Es & Et & -> & -> & _).
    exists sm, tm. split; [assumption|]. split; [assumption|].
    split; [|split; [|split; apply sorted_ascending]].
    + intros d. now rewrite sorted_In, set_diff_In, !set_of_list_In.
    + intros d. now rewrite sorted_In, set_diff_In, !set_of_list_In.
Qed.

Lemma compare_versions_dependency_changes_witness :
  exists diff,
    compare_versions
      (mkUpgradeAnalyzer (Some (loaded [("A", ["B"]); ("B", [])]))
                         (Some (loaded [("A", ["C"]); ("C", [])])) [])
    = Return diff
    /\ exists changes, In ("A", changes) (modified_modules diff)
                       /\ In "依赖关系已变更" changes.
Proof.
  eexists. split; [reflexivity|].
  destruct (@compare_versions_dependency_changes
              (mkUpgradeAnalyzer (Some (loaded [("A", ["B"]); ("B", [])]))
                                 (Some (loaded [("A", ["C"]); ("C", [])])) [])
              (loaded [("A", ["B"]); ("B", [])])
              (loaded [("A", ["C"]); ("C", [])])
              _ eq_refl eq_refl eq_refl) as [D _].
  apply D. exists ["C"], ["B"]. simpl. auto.
Defined.
End CompareFacts.

(** ** What the scan records *)

Section ScanSpec.
Import spec analyzer.
Variable root : fsnode.
Variable resolve : string -> Path.
Variable parser : string -> Path -> option Manifest.

Local Abbreviation is_module := (_is_odoo_module root).
Local Abbreviation parse := (_parse_module root parser).
Local Abbreviation record := (record_module root parser).

Lemma fold_left_inv {A B : Type} (f : A -> B -> A) (P : A -> Prop) :
  forall l a, P a -> (forall a x, In x l -> P a -> P (f a x)) ->
              P (fold_left f l a).
Proof.
  induction l as [|x l IH]; intros a H0 Hs; simpl; [assumption|].
  apply IH.
  - apply Hs; [now left|assumption].
  - intros a' y Hy. apply Hs. now right.
Qed.

Lemma path_name_snoc (p : Path) c : path_name (p ++ [c]) = c.
Proof. unfold path_name. apply last_last. Qed.

Lemma parse_module_name p m : parse p = Some m -> name m = path_name p.
Proof.
  unfold _parse_module.
  destruct (if exists_ root (p ++ ["__manifest__.py"])
            then Some (p ++ ["__manifest__.py"])
            else if exists_ root (p ++ ["__openerp__.py"])
                 then Some (p ++ ["__openerp__.py"]) else None)
    as [mp|]; [|discriminate].
  destruct (lookup root mp) as [[content| |]|]; try discriminate.
  destruct (parser content mp); [|discriminate].
  now intros [= <-].
Qed.



Lemma iterdir_child (p q : Path) items :
  iterdir root p = Listed items -> In q items -> exists c, q = p ++ [c].
Proof.
  unfold iterdir.
  destruct (lookup root p) as [[content|entries|entries]|];
    try discriminate; intros [= <-]; try contradiction.
  intros H. apply in_map_iff in H. destruct H as ([c n] & <- & _).
  now exists c.
Qed.


(** What every step of the loop keeps, it keeps to the end, also when
    the loop is left early. *)
Lemma scan_items_inv (P : dict OdooModule -> Prop) : forall items acc,
  P acc ->
  (forall acc item acc',
      In item items -> P acc ->
      scan_item root parser acc item = Some acc' -> P acc') ->
  P (scan_items root parser acc items).
Proof.
  induction items as [|item items IH]; intros acc H0 Hs; simpl;
    [assumption|].
  destruct (scan_item root parser acc item) as [acc'|] eqn:E;
    [|assumption].
  apply IH.
  - apply (Hs acc item acc'); [now left|assumption|assumption].
  - intros a i a' Hi. apply Hs. now right.
Qed.


(** What holds of every entry of the mapping during the scan. *)
Local Abbreviation entry_ok paths :=
  (fun modules : dict OdooModule =>
     forall k m, dget modules k = Some m ->
                 exists p, found_at root resolve paths p
                           /\ parse p = Some m /\ k = path_name p
                           /\ name m = k).

Lemma record_ok paths modules p :
  found_at root resolve paths p ->
  entry_ok paths modules -> entry_ok paths (record modules p).
Proof.
  intros Hf Hm k m. unfold record_module.
  destruct (parse p) as [m0|] eqn:E; [|apply Hm].
  rewrite dget_dset. destruct (String.eqb_spec (name m0) k) as [<-|N].
  - intros [= <-]. exists p. split; [assumption|]. split; [assumption|].
    split; [now apply parse_module_name|reflexivity].
  - apply Hm.
Qed.

Lemma scan_directory_ok paths base modules :
  In base paths -> is_dir root (resolve base) = true ->
  entry_ok paths modules ->
  entry_ok paths (_scan_directory root parser modules (resolve base)).
Proof.
  intros Hb Hd Hm. unfold _scan_directory.
  destruct (is_module (resolve base)) eqn:E0.
  - apply record_ok; [|assumption].
    exists base. split; [assumption|]. split; [assumption|].
    split; [assumption|]. now left.
  - destruct (iterdir root (resolve base)) as [items|] eqn:L; [|assumption].
    apply scan_items_inv; [assumption|].
    intros acc item acc' Hitem Hacc. unfold scan_item.
    destruct (@iterdir_child _ _ _ L Hitem) as (c & ->).
    rewrite path_name_snoc.
    destruct (is_dir root (resolve base ++ [c])) eqn:E1;
      [|now intros [= <-]].
    destruct (String.prefix "." c) eqn:E2; [now intros [= <-]|]. simpl.
    destruct (is_module (resolve base ++ [c])) eqn:E3.
    + intros [= <-]. apply record_ok; [|assumption].
      exists base. split; [assumption|]. split; [assumption|].
      split; [assumption|]. right. left. split; [assumption|].
      exists c. auto.
    + destruct (iterdir root (resolve base ++ [c])) as [subitems|] eqn:L';
        [|discriminate].
      intros [= <-].
      apply fold_left_inv; [assumption|]. intros acc' sub Hsub Hacc'.
      unfold scan_subitem.
      destruct (@iterdir_child _ _ _ L' Hsub) as (c' & ->).
      destruct (is_dir root ((resolve base ++ [c]) ++ [c'])) eqn:E4;
        [|assumption].
      destruct (is_module ((resolve base ++ [c]) ++ [c'])) eqn:E5;
        [|assumption]. simpl.
      apply record_ok; [|assumption].
      exists base. split; [assumption|]. split; [assumption|].
      split; [assumption|]. right. right. split; [assumption|].
      exists c, c'. rewrite app_assoc. auto 6.
Qed.

Lemma record_keys modules p :
  NoDup (dkeys modules) -> NoDup (dkeys (record modules p)).
Proof.
  intros ND. unfold record_module. destruct (parse p); [|assumption].
  now apply nodup_dkeys_dset.
Qed.

Lemma scan_subitem_keys modules sub :
  NoDup (dkeys modules) ->
  NoDup (dkeys (scan_subitem root parser modules sub)).
Proof.
  intros ND. unfold scan_subitem.
  destruct (is_dir root sub && is_module sub); [|assumption].
  now apply record_keys.
Qed.

Lemma scan_item_keys modules item modules' :
  NoDup (dkeys modules) ->
  scan_item root parser modules item = Some modules' ->
  NoDup (dkeys modules').
Proof.
  intros ND. unfold scan_item.
  destruct (is_dir root item && negb (String.prefix "." (path_name item)));
    [|now intros [= <-]].
  destruct (is_module item); [intros [= <-]; now apply record_keys|].
  destruct (iterdir root item) as [subitems|]; [|discriminate].
  intros [= <-]. apply fold_left_inv; [assumption|].
  intros acc sub _. apply scan_subitem_keys.
Qed.

Lemma scan_entries (self : OdooModuleAnalyzer) :
  let modules := fst (scan_modules root resolve parser self) in
  NoDup (dkeys modules)
  /\ forall k m, dget modules k = Some m ->
                 exists p, found_at root resolve (paths self) p
                           /\ parse p = Some m /\ k = path_name p
                           /\ name m = k.
Proof.
  cbv zeta. unfold scan_modules. cbn [fst]. split.
  - apply fold_left_inv; [constructor|]. intros acc base _ ND.
    destruct (negb (exists_ root (resolve base))); [assumption|].
    destruct (is_dir root (resolve base)); [|assumption].
    unfold _scan_directory.
    destruct (is_module (resolve base)); [now apply record_keys|].
    destruct (iterdir root (resolve base)) as [items|]; [|assumption].
    apply scan_items_inv; [assumption|]. intros acc1 item acc2 _.
    apply scan_item_keys.
  - apply (fold_left_inv _ (entry_ok (paths self))).
    + intros k m. discriminate.
    + intros acc base Hb Hacc.
      destruct (negb (exists_ root (resolve base))); [assumption|].
      destruct (is_dir root (resolve base)) eqn:Hd; [|assumption].
      now apply scan_directory_ok.
Qed.


(** X12. Soundness of the scan.  Every entry of the mapping [scan_modules]
    returns was parsed from a module directory that is a scan path,
    lies directly below one, or one level deeper inside a plain
    directory without leading dot; nothing below a module directory is
    recorded.  The entry is keyed by the directory name, which is the
    [name] of the module, and no key occurs twice. *)
Theorem scan_modules_sound (self : OdooModuleAnalyzer) :
  let modules := fst (scan_modules root resolve parser self) in
  NoDup (dkeys modules)
  /\ forall k m, dget modules k = Some m ->
                 exists p, found_at root resolve (paths self) p
                           /\ parse p = Some m /\ k = path_name p
                           /\ name m = k.
Proof.
  cbv zeta. destruct (scan_entries self) as [ND S].
  split; [exact ND|]. intros k m Hg. now apply S.
Qed.

(** A key, once recorded, stays. *)
Local Abbreviation has_key k :=
  (fun modules : dict OdooModule => dmem modules k = true).









(** The scan of a directory stops at the first entry that it may not
    list: what was recorded before stays, nothing after it is
    visited. *)
Lemma scan_items_stop modules before item after :
  (forall acc i, In i before -> scan_item root parser acc i <> None) ->
  scan_item root parser (scan_items root parser modules before) item = None ->
  scan_items root parser modules (before ++ item :: after)
  = scan_items root parser modules before.
Proof.
  revert modules. induction before as [|b before IH]; intros modules Hok Hn.
  - simpl in *. now rewrite Hn.
  - simpl in *. destruct (scan_item root parser modules b) as [acc|] eqn:E.
    + apply IH; [|assumption]. intros a i Hi. apply Hok. now right.
    + exfalso. apply (Hok modules b); [now left|assumption].
Qed.
End ScanSpec.

Section ScanExamples.
Import spec analyzer.



(** Why the scan must be able to list: with the unreadable directory
    [private] listed before it, the module [sale_ext] is not found. *)
Lemma unreadable_directory_ends_scan :
  found_at locked_fs sample_resolve ["/addons"] ["addons"; "sale_ext"]
  /\ fst (scan_modules locked_fs sample_resolve sample_parser
                       (analyzer.__init__ (Some ["/addons"]))) = [].
Proof.
  split; [|reflexivity].
  exists "/addons". split; [now left|]. split; [reflexivity|].
  split; [reflexivity|]. right. left. split; [reflexivity|].
  exists "sale_ext". split; [reflexivity|]. split; reflexivity.
Qed.
End ScanExamples.

(** ** What a parsed class holds *)

Section ClassFacts.
Import spec upgrade_analyzer.

Lemma parse_keyword_keeps field keyword :
  f_name (parse_keyword field keyword) = f_name field
  /\ field_type (parse_keyword field keyword) = field_type field.
Proof.
  unfold parse_keyword. destruct (fst keyword) as [arg|]; [|now split].
  repeat match goal with
         | |- context [if String.eqb ?a ?b then _ else _] =>
             destruct (String.eqb a b); [now split|]
         end.
  now split.
Qed.

Lemma parse_keywords_keep keywords : forall field,
  f_name (fold_left parse_keyword keywords field) = f_name field
  /\ field_type (fold_left parse_keyword keywords field) = field_type field.
Proof.
  induction keywords as [|k keywords IH]; intros field; simpl; [now split|].
  destruct (IH (parse_keyword field k)) as [E1 E2].
  destruct (parse_keyword_keeps field k) as [E3 E4].
  split; congruence.
Qed.

Lemma parse_field_ok name node f :
  _parse_field name node = Some f ->
  f_name f = name /\ In (field_type f) FIELD_TYPES.
Proof.
  unfold _parse_field.
  destruct node as [| | |func args keywords| | | |]; try discriminate.
  destruct func as [| |value ftype| | | | |]; try discriminate.
  destruct (mem ftype FIELD_TYPES) eqn:M; [|discriminate].
  apply mem_In in M. cbn [negb].
  destruct (parse_keywords_keep keywords
              (mkModelField name ftype None_ None None true false false ""))
    as [E1 E2].
  cbn [f_name field_type] in E1, E2.
  destruct (mem ftype ["Many2one"; "One2many"; "Many2many"]).
  - destruct args as [|[] args]; intros [= <-];
      cbn [f_name field_type]; rewrite ?E1, ?E2; now split.
  - intros [= <-]. rewrite E1, E2. now split.
Qed.

(** What every step of the loop of [_parse_class] keeps. *)
Local Abbreviation fields_ok :=
  (fun model : OdooModel =>
     NoDup (dkeys (fields model))
     /\ forall k f, dget (fields model) k = Some f ->
                    f_name f = k /\ In (field_type f) FIELD_TYPES).

Local Abbreviation same_frame :=
  (fun model model' : OdooModel =>
     module model' = module model /\ file_path model' = file_path model
     /\ methods model' = methods model
     /\ (fields_ok model -> fields_ok model')).

Lemma same_frame_refl model : same_frame model model.
Proof.
  split; [reflexivity|]. split; [reflexivity|]. split; [reflexivity|].
  exact (fun H => H).
Qed.

Lemma parse_target_frame value st target :
  same_frame (fst st) (fst (parse_target value st target)).
Proof.
  destruct st as [model flag]. unfold parse_target. cbn [fst].
  assert (K : forall n i ih d,
             same_frame model
               (mkOdooModel n i ih d (fields model) (methods model)
                            (module model) (file_path model))).
  { intros. cbn [module file_path methods fields].
    split; [reflexivity|]. split; [reflexivity|]. split; [reflexivity|].
    exact (fun H => H). }
  destruct target; try apply same_frame_refl.
  destruct (String.eqb id "_name"); [apply K|].
  destruct (String.eqb id "_inherit").
  { destruct (_get_value value) as [[]|];
      first [apply K | apply same_frame_refl]. }
  destruct (String.eqb id "_inherits").
  { destruct value; first [apply K | apply same_frame_refl]. }
  destruct (String.eqb id "_description"); [apply K|].
  destruct (mem id FIELD_TYPES || _is_field_definition value);
    [|apply same_frame_refl].
  destruct (_parse_field id value) as [f|] eqn:E; [|apply same_frame_refl].
  apply parse_field_ok in E. destruct E as [E1 E2].
  cbn [fst set_fields module file_path methods fields].
  split; [reflexivity|]. split; [reflexivity|]. split; [reflexivity|].
  intros [ND H]. split; [now apply nodup_dkeys_dset|].
  intros k f0. rewrite dget_dset.
  destruct (String.eqb_spec id k) as [<-|N]; [|apply H].
  intros [= <-]. now split.
Qed.

Lemma parse_targets_frame value targets : forall st,
  same_frame (fst st) (fst (fold_left (parse_target value) targets st)).
Proof.
  induction targets as [|t targets IH]; intros st; simpl.
  - apply same_frame_refl.
  - destruct (IH (parse_target value st t)) as (A & B & C & D).
    destruct (parse_target_frame value st t) as (A' & B' & C' & D').
    split; [congruence|]. split; [congruence|]. split; [congruence|].
    auto.
Qed.

Lemma parse_item_frame st item :
  module (fst (parse_item st item)) = module (fst st)
  /\ file_path (fst (parse_item st item)) = file_path (fst st)
  /\ methods (fst (parse_item st item))
     = methods (fst st) ++ function_names [item]
  /\ (fields_ok (fst st) -> fields_ok (fst (parse_item st item))).
Proof.
  unfold parse_item.
  destruct item as [targets value|fname|cname body|]; cbn [as_Assign].
  - destruct (parse_targets_frame value targets st) as (A & B & C & D).
    cbn [function_names flat_map app]. rewrite !app_nil_r. auto.
  - destruct st as [model flag].
    cbn [fst module file_path methods fields function_names flat_map app].
    split; [reflexivity|]. split; [reflexivity|]. split; [reflexivity|].
    exact (fun H => H).
  - cbn [function_names flat_map app]. rewrite !app_nil_r.
    split; [reflexivity|]. split; [reflexivity|]. split; [reflexivity|].
    exact (fun H => H).
  - cbn [function_names flat_map app]. rewrite !app_nil_r.
    split; [reflexivity|]. split; [reflexivity|]. split; [reflexivity|].
    exact (fun H => H).
Qed.

Lemma parse_items_frame body : forall st,
  module (fst (fold_left parse_item body st)) = module (fst st)
  /\ file_path (fst (fold_left parse_item body st)) = file_path (fst st)
  /\ methods (fst (fold_left parse_item body st))
     = methods (fst st) ++ function_names body
  /\ (fields_ok (fst st) -> fields_ok (fst (fold_left parse_item body st))).
Proof.
  induction body as [|item body IH]; intros st; simpl.
  - rewrite app_nil_r.
    split; [reflexivity|]. split; [reflexivity|]. split; [reflexivity|].
    exact (fun H => H).
  - destruct (IH (parse_item st item)) as (A & B & C & D).
    destruct (parse_item_frame st item) as (A' & B' & C' & D').
    split; [congruence|]. split; [congruence|]. split; [|auto].
    rewrite C, C'. cbn [function_names flat_map].
    rewrite app_nil_r, <- app_assoc. reflexivity.
Qed.

(** The fields the loop stores are the field assignments, entered in
    the order of the body. *)
Lemma dupdate_app {V : Type} (d : dict V) l1 l2 :
  dupdate d (l1 ++ l2) = dupdate (dupdate d l1) l2.
Proof. unfold dupdate. apply fold_left_app. Qed.

Lemma dget_dupdate {V : Type} (other : dict V) : forall d k,
  dget (dupdate d other) k
  = match dget (rev other) k with
    | Some v => Some v
    | None => dget d k
    end.
Proof.
  induction other as [|[k0 v0] other IH]; intros d k; [reflexivity|].
  change (dupdate d ((k0, v0) :: other)) with (dupdate (dset d k0 v0) other).
  rewrite IH. cbn [rev]. rewrite dget_app, dget_dset. cbn [dget].
  destruct (dget (rev other) k); [reflexivity|].
  now destruct (String.eqb k0 k).
Qed.

Lemma parse_target_fields value st target :
  fields (fst (parse_target value st target))
  = dupdate (fields (fst st)) (field_target value target).
Proof.
  destruct st as [model flag]. unfold parse_target, field_target.
  cbn [fst]. destruct target; try reflexivity.
  unfold class_attributes. cbn [mem existsb].
  destruct (String.eqb id "_name"); [reflexivity|].
  destruct (String.eqb id "_inherit").
  { now destruct (_get_value value) as [[]|]. }
  destruct (String.eqb id "_inherits"); [now destruct value|].
  destruct (String.eqb id "_description"); [reflexivity|].
  cbn [orb].
  destruct (mem id FIELD_TYPES || _is_field_definition value);
    [|reflexivity].
  now destruct (_parse_field id value).
Qed.

Lemma parse_targets_fields value targets : forall st,
  fields (fst (fold_left (parse_target value) targets st))
  = dupdate (fields (fst st)) (flat_map (field_target value) targets).
Proof.
  induction targets as [|t targets IH]; intros st; [reflexivity|].
  cbn [fold_left flat_map].
  now rewrite IH, parse_target_fields, dupdate_app.
Qed.

Lemma parse_items_fields body : forall st,
  fields (fst (fold_left parse_item body st))
  = dupdate (fields (fst st)) (field_assignments body).
Proof.
  induction body as [|item body IH]; intros st; [reflexivity|].
  cbn [fold_left]. rewrite IH.
  unfold field_assignments. cbn [flat_map].
  rewrite dupdate_app. f_equal. unfold parse_item.
  destruct item as [targets value|fname|cname cbody|]; cbn [as_Assign].
  - apply parse_targets_fields.
  - now destruct st.
  - reflexivity.
  - reflexivity.
Qed.

Lemma field_assignments_In body targets value k f :
  In (Assign targets value) body -> In (Name k) targets ->
  ~ In k class_attributes ->
  In k FIELD_TYPES \/ _is_field_definition value = true ->
  _parse_field k value = Some f ->
  In (k, f) (field_assignments body).
Proof.
  intros Hb Ht Hc Hf Hp. unfold field_assignments.
  apply in_flat_map. exists (Assign targets value). split; [assumption|].
  apply in_flat_map. exists (Name k). split; [assumption|].
  unfold field_target.
  destruct (mem k class_attributes) eqn:M.
  { apply mem_In in M. contradiction. }
  assert (G : mem k FIELD_TYPES || _is_field_definition value = true).
  { destruct Hf as [Hf|Hf].
    - apply mem_In in Hf. now rewrite Hf.
    - rewrite Hf. apply orb_true_r. }
  rewrite G, Hp. now left.
Qed.

(** X14. A recognised class keeps the module name and the file path it was
    parsed with; its methods are the names of the function definitions
    of its body, in order.  Its fields are the field assignments of the
    body, entered in their order: every assignment [k = value] of a
    plain name that is no class attribute, with [k] the name of a field
    type or [value] a call [fields.T(...)], from which [_parse_field]
    reads a field, is stored under [k], the last assignment of a name
    replacing the earlier ones, and nothing else is stored; every field
    is stored once, under its own name, with a type of
    [FIELD_TYPES]. *)
Theorem parse_class_contents
        (body : list stmt) (module_name file_path' : string)
        (model : OdooModel) :
  _parse_class body module_name file_path' = Some model ->
  module model = module_name /\ file_path model = file_path'
  /\ methods model = function_names body
  /\ fields model = dupdate [] (field_assignments body)
  /\ (forall k, dget (fields model) k
                = dget (rev (field_assignments body)) k)
  /\ (forall targets value k f,
         In (Assign targets value) body -> In (Name k) targets ->
         ~ In k class_attributes ->
         In k FIELD_TYPES \/ _is_field_definition value = true ->
         _parse_field k value = Some f ->
         In k (dkeys (fields model)))
  /\ NoDup (dkeys (fields model))
  /\ forall k f, dget (fields model) k = Some f ->
                 f_name f = k /\ In (field_type f) FIELD_TYPES.
Proof.
  unfold _parse_class.
  pose proof (parse_items_frame body
                (mkOdooModel (OConst (CStr "")) [] [] "" [] []
                             module_name file_path', false))
    as (A & B & C & D).
  pose proof (parse_items_fields body
                (mkOdooModel (OConst (CStr "")) [] [] "" [] []
                             module_name file_path', false)) as Fs.
  destruct (fold_left parse_item body
              (mkOdooModel (OConst (CStr "")) [] [] "" [] []
                           module_name file_path', false))
    as [m flag].
  cbn [fst module file_path methods fields app] in A, B, C, D, Fs.
  assert (F : fields_ok m).
  { apply D. split; [constructor|]. intros k f. discriminate. }
  assert (G : forall k, dget (fields m) k
                        = dget (rev (field_assignments body)) k).
  { intros k. rewrite Fs, dget_dupdate.
    now destruct (dget (rev (field_assignments body)) k). }
  assert (K : forall targets value k f,
             In (Assign targets value) body -> In (Name k) targets ->
             ~ In k class_attributes ->
             In k FIELD_TYPES \/ _is_field_definition value = true ->
             _parse_field k value = Some f ->
             In k (dkeys (fields m))).
  { intros targets value k f Hb Ht Hc Hf Hp.
    pose proof (field_assignments_In _ _ _ Hb Ht Hc Hf Hp) as Hin.
    apply dmem_keys. unfold dmem. rewrite G.
    destruct (dget (rev (field_assignments body)) k) eqn:E; [reflexivity|].
    apply dget_None_keys in E. exfalso. apply E.
    apply (in_map fst) in Hin. cbn [fst] in Hin.
    unfold dkeys. rewrite map_rev. now apply in_rev in Hin. }
  destruct (negb (truth (name m)) && truth (OList (inherit m)));
    [|destruct flag; [|discriminate]];
    intros [= <-]; cbn [module file_path methods fields];
    (split; [assumption|]); (split; [assumption|]);
    (split; [assumption|]); (split; [assumption|]);
    (split; [assumption|]); (split; [assumption|]); exact F.
Qed.

Lemma parse_class_contents_witness :
  exists model,
    _parse_class
      [Assign [Name "_name"] (Constant (CStr "sale.order"));
       Assign [Name "partner_id"]
              (Call (Attribute (Name "fields") "Many2one")
                    [Constant (CStr "res.partner")] []);
       FunctionDef "action_confirm"]
      "sale" "models/sale.py"
    = Some model
    /\ methods model = ["action_confirm"]
    /\ dkeys (fields model) = ["partner_id"].
Proof.
  eexists. split; [reflexivity|].
  destruct (@parse_class_contents
              [Assign [Name "_name"] (Constant (CStr "sale.order"));
               Assign [Name "partner_id"]
                      (Call (Attribute (Name "fields") "Many2one")
                            [Constant (CStr "res.partner")] []);
               FunctionDef "action_confirm"]
              "sale" "models/sale.py" _ eq_refl) as (_ & _ & M & Fs & _).
  split; [exact M|]. rewrite Fs. reflexivity.
Defined.
End ClassFacts.

(** ** Scan paths and statistics *)

Section PathFacts.
Import analyzer.

(** X15. [add_path] treats the paths as a set: the path is present
    afterwards, adding it again changes nothing, the paths already
    there keep their places, and a list without repetition stays so.
    Modules and graph are left alone. *)
Theorem add_path_idempotent (self : OdooModuleAnalyzer) (path : string) :
  In path (paths (add_path self path))
  /\ add_path (add_path self path) path = add_path self path
  /\ (exists rest, paths (add_path self path) = paths self ++ rest)
  /\ (NoDup (paths self) -> NoDup (paths (add_path self path)))
  /\ modules (add_path self path) = modules self
  /\ graph (add_path self path) = graph self.
Proof.
  destruct (mem path (paths self)) eqn:M.
  - assert (E : add_path self path = self)
      by (unfold add_path; now rewrite M).
    rewrite !E. split; [now apply mem_In|]. split; [reflexivity|].
    split; [exists []; now rewrite app_nil_r|]. auto.
  - assert (E : add_path self path
                = mkAnalyzer (paths self ++ [path]) (modules self)
                             (graph self))
      by (unfold add_path; now rewrite M).
    rewrite !E. cbn [paths modules graph]. split.
    + apply in_app_iff. right. now left.
    + split.
      * unfold add_path. cbn [paths].
        rewrite mem_app. cbn. rewrite String.eqb_refl, orb_true_r.
        reflexivity.
      * split; [now exists [path]|]. split; [|auto].
        intros ND. apply mem_false in M.
        apply NoDup_app; [assumption|repeat constructor; easy|].
        intros x Hx [<-|[]]. contradiction.
Qed.
End PathFacts.

Section StatisticsFacts.
Import spec analyzer inv.

Lemma find_missing_dependencies_ext a b :
  modules a = modules b ->
  find_missing_dependencies a = find_missing_dependencies b.
Proof. unfold find_missing_dependencies. now intros ->. Qed.

Lemma ensure_graph_modules self :
  modules (snd (ensure_graph self)) = modules self.
Proof. unfold ensure_graph. now destruct (graph self). Qed.

Lemma find_circular_dependencies_modules self :
  modules (snd (find_circular_dependencies self)) = modules self.
Proof.
  unfold find_circular_dependencies.
  pose proof (ensure_graph_modules self) as E.
  destruct (ensure_graph self). exact E.
Qed.

(** The external names gathered from the dependency lists [deps]. *)
Lemma collect_external_spec (mods : dict OdooModule) deps : forall ext,
  NoDup ext ->
  let ext' := fold_left
                (fun external_deps dep =>
                   if negb (dmem mods dep) then set_add dep external_deps
                   else external_deps) deps ext in
  NoDup ext'
  /\ forall d, In d ext'
               <-> In d ext \/ (In d deps /\ ~ In d (dkeys mods)).
Proof.
  induction deps as [|dep deps IH]; intros ext ND; cbn [fold_left].
  - split; [assumption|]. intros d. simpl. tauto.
  - destruct (dmem mods dep) eqn:M; cbn [negb].
    + destruct (IH ext ND) as [ND' H]. split; [assumption|].
      intros d. rewrite H. apply dmem_keys in M. simpl. split.
      * tauto.
      * intros [Hd|[[<-|Hd] Hn]]; tauto.
    + destruct (IH (set_add dep ext) (set_add_nodup dep ND)) as [ND' H].
      split; [assumption|]. intros d. rewrite H, set_add_In.
      apply dmem_false_keys in M. simpl. split.
      * intros [[->|Hd]|[Hd Hn]]; tauto.
      * intros [Hd|[[<-|Hd] Hn]]; tauto.
Qed.

Lemma statistics_fold (mods : dict OdooModule) (l : dict OdooModule) :
  let r := fold_left
             (fun '(external_deps, all_deps) (nm : string * OdooModule) =>
                (fold_left
                   (fun external_deps dep =>
                      if negb (dmem mods dep)
                      then set_add dep external_deps
                      else external_deps)
                   (depends (snd nm)) external_deps,
                 all_deps ++ depends (snd nm)))
             l ([], []) in
  NoDup (fst r)
  /\ (forall d, In d (fst r) <-> In d (declared l) /\ ~ In d (dkeys mods))
  /\ snd r = declared l.
Proof.
  cbv zeta.
  apply (fold_left_prefix_ind
           (fun '(external_deps, all_deps) (nm : string * OdooModule) =>
              (fold_left
                 (fun external_deps dep =>
                    if negb (dmem mods dep)
                    then set_add dep external_deps
                    else external_deps)
                 (depends (snd nm)) external_deps,
               all_deps ++ depends (snd nm)))
           (fun pre r =>
              NoDup (fst r)
              /\ (forall d, In d (fst r)
                            <-> In d (declared pre) /\ ~ In d (dkeys mods))
              /\ snd r = declared pre)).
  - split; [constructor|]. split; [|reflexivity]. simpl. tauto.
  - intros pre nm suf [ext all] _ (ND & H & A). cbn [fst snd] in *.
    destruct (collect_external_spec mods (depends (snd nm)) ND)
      as [ND' H'].
    unfold declared. rewrite flat_map_app. cbn [flat_map].
    rewrite app_nil_r. fold (declared pre).
    split; [assumption|]. split; [|now rewrite A].
    intros d. rewrite H', H, in_app_iff. tauto.
Qed.

Lemma declared_In mods d :
  In d (declared mods) <-> exists n, depends_on mods n d.
Proof.
  unfold declared, depends_on. rewrite in_flat_map. split.
  - intros ([n m] & H1 & H2). now exists n, m.
  - intros (n & m & H1 & H2). now exists (n, m).
Qed.

Lemma length_set_of_list xs : length (set_of_list xs) <= length xs.
Proof.
  assert (G : forall s, length (set_update s xs) <= length s + length xs).
  { unfold set_update. induction xs as [|x xs IH]; intros s; simpl; [lia|].
    specialize (IH (set_add x s)). unfold set_add in *.
    destruct (mem x s); [lia|]. rewrite length_app in IH. simpl in IH. lia. }
  apply (G []).
Qed.

(** X16. The dependency figures of [get_statistics]: every declaration is
    counted; the external dependencies are the declared names that are
    not scanned, each once; they split into the core dependencies and
    the names [missing_dependencies] reports. *)
Theorem statistics_dependencies (self : OdooModuleAnalyzer) :
  NoDup (dkeys (modules self)) ->
  let st := fst (get_statistics self) in
  total_modules st = length (modules self)
  /\ total_dependencies st = length (declared (modules self))
  /\ unique_dependencies st <= total_dependencies st
  /\ NoDup (external_dependencies st)
  /\ (forall d, In d (external_dependencies st)
                <-> (exists n, depends_on (modules self) n d)
                    /\ ~ In d (dkeys (modules self)))
  /\ (forall d, In d (core_dependencies st)
                <-> In d (external_dependencies st) /\ In d CORE_MODULES)
  /\ (forall d, (exists n deps, dget (missing_dependencies st) n = Some deps
                                /\ In d deps)
                <-> In d (external_dependencies st)
                    /\ ~ In d CORE_MODULES).
Proof.
  intros ND. cbv zeta. unfold get_statistics.
  pose proof (ensure_graph_modules self) as Em.
  destruct (ensure_graph self) as [G self1]. cbn [snd] in Em.
  pose proof (statistics_fold (modules self1) (modules self1)) as F.
  cbv zeta in F.
  destruct (fold_left _ (modules self1) ([], [])) as [ext all].
  cbn [fst snd] in F. destruct F as (NDe & He & Ha).
  pose proof (find_circular_dependencies_modules self1) as Ec.
  destruct (find_circular_dependencies self1) as [cycles self2].
  cbn [fst total_modules total_dependencies unique_dependencies
       external_dependencies core_dependencies missing_dependencies].
  rewrite Em in *. rewrite Ha.
  rewrite (find_missing_dependencies_ext self1 self Em).
  split; [reflexivity|]. split; [reflexivity|].
  split; [apply length_set_of_list|]. split; [assumption|].
  assert (He' : forall d, In d ext
                          <-> (exists n, depends_on (modules self) n d)
                              /\ ~ In d (dkeys (modules self))).
  { intros d. rewrite He, declared_In. tauto. }
  split; [exact He'|]. split.
  - intros d. now rewrite filter_In, mem_In.
  - intros d. rewrite He'. split.
    + intros (n & deps & Hg & Hd).
      rewrite find_missing_dependencies_get in Hg by assumption.
      destruct (dget (modules self) n) as [m|] eqn:Hm; [|discriminate].
      destruct (missing_of (modules self) m) as [|d0 l] eqn:E;
        [discriminate|].
      injection Hg as <-. rewrite <- E in Hd. apply missing_of_In in Hd.
      split; [|tauto]. split; [|tauto].
      exists n, m. split; [now apply dget_Some_In|tauto].
    + intros [[(n & m & Hm & Hd) Hs] Hc].
      exists n, (missing_of (modules self) m).
      assert (Hin : In d (missing_of (modules self) m))
        by (apply missing_of_In; tauto).
      split; [|assumption].
      rewrite find_missing_dependencies_get by assumption.
      rewrite (In_dget_nodup _ _ _ ND Hm).
      destruct (missing_of (modules self) m); [contradiction|reflexivity].
Qed.

Lemma statistics_dependencies_witness :
  NoDup (dkeys (modules (analyzer_of [("A", ["sale"; "x_util"; "B"]);
                                      ("B", ["sale"])])))
  /\ In "sale" (core_dependencies
                  (fst (get_statistics
                          (analyzer_of [("A", ["sale"; "x_util"; "B"]);
                                        ("B", ["sale"])])))).
Proof.
  assert (ND : NoDup (dkeys (modules
                 (analyzer_of [("A", ["sale"; "x_util"; "B"]);
                               ("B", ["sale"])])))).
  { simpl. repeat constructor; simpl; intuition discriminate. }
  split; [assumption|].
  destruct (statistics_dependencies _ ND) as (_ & _ & _ & _ & E & C & _).
  apply C. split.
  - apply E. split.
    + exists "B", (sample_module "B" ["sale"]). simpl. auto.
    + simpl. intuition discriminate.
  - simpl. auto 8.
Defined.
End StatisticsFacts.

(** ** The most depended modules *)

Section MostDepended.
Import spec analyzer inv.

Lemma count_dep_spec c d :
  counts_ok c ->
  counts_ok (count_dep c d)
  /\ forall d', count_of (count_dep c d) d'
                = count_of c d' + (if String.eqb d d' then 1 else 0).
Proof.
  intros [ND Hz]. unfold count_dep, counts_ok, count_of. split; [split|].
  - now apply nodup_dkeys_dset.
  - intros d'. rewrite dget_dset.
    destruct (String.eqb d d'); [|apply Hz].
    intros [= E]. lia.
  - intros d'. rewrite dget_dset.
    destruct (String.eqb_spec d d') as [<-|N]; lia.
Qed.

Lemma count_deps_spec l : forall c,
  counts_ok c ->
  counts_ok (fold_left count_dep l c)
  /\ forall d, count_of (fold_left count_dep l c) d
               = count_of c d + count_occ string_dec l d.
Proof.
  induction l as [|x l IH]; intros c H; cbn [fold_left].
  - split; [assumption|]. intros d. simpl. lia.
  - destruct (count_dep_spec x H) as [H1 E1].
    destruct (IH _ H1) as [H2 E2]. split; [assumption|].
    intros d. rewrite E2, E1. cbn [count_occ].
    destruct (string_dec x d) as [->|N].
    + rewrite String.eqb_refl. lia.
    + apply String.eqb_neq in N. rewrite N. lia.
Qed.

Lemma count_occ_app_string (l l' : list string) d :
  count_occ string_dec (l ++ l') d
  = count_occ string_dec l d + count_occ string_dec l' d.
Proof. apply count_occ_app. Qed.

Lemma dep_counts_spec (mods : dict OdooModule) :
  let c := fold_left
             (fun dep_counts (nm : string * OdooModule) =>
                fold_left count_dep (depends (snd nm)) dep_counts)
             mods [] in
  counts_ok c /\ forall d, count_of c d = declarations mods d.
Proof.
  cbv zeta.
  apply (fold_left_prefix_ind
           (fun dep_counts (nm : string * OdooModule) =>
              fold_left count_dep (depends (snd nm)) dep_counts)
           (fun pre c =>
              counts_ok c /\ forall d, count_of c d = declarations pre d)).
  - split; [|reflexivity]. split; [constructor|]. intros d. discriminate.
  - intros pre nm suf c _ [H E].
    destruct (count_deps_spec (depends (snd nm)) H) as [H' E'].
    split; [assumption|]. intros d. rewrite E', E.
    unfold declarations, declared. rewrite flat_map_app.
    cbn [flat_map]. rewrite app_nil_r. now rewrite count_occ_app_string.
Qed.

Lemma counts_In c d n :
  counts_ok c -> In (d, n) c <-> 0 < n /\ n = count_of c d.
Proof.
  intros [ND Hz]. unfold count_of. split.
  - intros H. apply In_dget_nodup in H; [|assumption]. rewrite H.
    split; [|reflexivity]. destruct n; [|lia]. now apply Hz in H.
  - intros [Hn E]. destruct (dget c d) as [n'|] eqn:G; [|lia].
    subst. now apply dget_Some_In.
Qed.

Lemma insert_by_count_perm x l :
  Permutation (insert_by_count x l) (x :: l).
Proof.
  induction l as [|y l IH]; cbn [insert_by_count]; [reflexivity|].
  destruct (Nat.leb (snd y) (snd x)); [reflexivity|].
  rewrite IH. apply perm_swap.
Qed.

Lemma sorted_by_count_perm l : Permutation (sorted_by_count l) l.
Proof.
  induction l as [|x l IH]; [constructor|].
  cbn [sorted_by_count fold_right]. fold (sorted_by_count l).
  rewrite insert_by_count_perm. now constructor.
Qed.

Lemma insert_by_count_descending x l :
  descending (map snd l) -> descending (map snd (insert_by_count x l)).
Proof.
  induction l as [|y l IH]; intros H; cbn [insert_by_count].
  - simpl. tauto.
  - destruct (Nat.leb_spec (snd y) (snd x)) as [L|L].
    + cbn [map descending] in *. split; [|assumption].
      intros z [<-|Hz]; [assumption|].
      destruct H as [H _]. specialize (H z Hz). lia.
    + cbn [map descending] in *. destruct H as [H1 H2]. split; [|auto].
      intros z Hz. apply in_map_iff in Hz. destruct Hz as (p & <- & Hp).
      apply (Permutation_in _ (insert_by_count_perm x l)) in Hp.
      destruct Hp as [<-|Hp]; [lia|]. apply H1. now apply in_map.
Qed.

Lemma sorted_by_count_descending l :
  descending (map snd (sorted_by_count l)).
Proof.
  induction l as [|x l IH]; [exact I|].
  cbn [sorted_by_count fold_right]. fold (sorted_by_count l).
  now apply insert_by_count_descending.
Qed.

Lemma descending_app a : forall b,
  descending (a ++ b) ->
  descending a /\ forall x y, In x a -> In y b -> y <= x.
Proof.
  induction a as [|z a IH]; intros b H; cbn [app descending] in *.
  - split; [exact I|]. intros x y [].
  - destruct H as [H1 H2]. destruct (IH b H2) as [D C]. split.
    + split; [|assumption]. intros y Hy. apply H1.
      apply in_app_iff. now left.
    + intros x y [<-|Hx] Hy; [|now apply C].
      apply H1. apply in_app_iff. now right.
Qed.

(** X17. [most_depended_modules] lists at most ten declared names, each
    once, with the number of its declarations, greatest count first;
    a declared name that is left out has no more declarations than any
    name listed, and then ten names are listed. *)
Theorem statistics_most_depended (self : OdooModuleAnalyzer) :
  let top := most_depended_modules (fst (get_statistics self)) in
  length top <= 10
  /\ NoDup (map fst top)
  /\ descending (map snd top)
  /\ (forall d c, In (d, c) top ->
                  0 < c /\ c = declarations (modules self) d)
  /\ (forall d, 0 < declarations (modules self) d ->
                ~ In d (map fst top) ->
                length top = 10
                /\ forall c, In c (map snd top) ->
                             declarations (modules self) d <= c).
Proof.
  cbv zeta. unfold get_statistics.
  pose proof (ensure_graph_modules self) as Em.
  destruct (ensure_graph self) as [G self1]. cbn [snd] in Em.
  destruct (fold_left _ (modules self1) ([], [])) as [ext all].
  destruct (find_circular_dependencies self1) as [cycles self2].
  cbn [fst most_depended_modules]. rewrite Em.
  destruct (dep_counts_spec (modules self)) as [Hok Hc]. cbv zeta in Hc.
  set (c := fold_left
              (fun dep_counts (nm : string * OdooModule) =>
                 fold_left count_dep (depends (snd nm)) dep_counts)
              (modules self) []) in *.
  pose proof (sorted_by_count_perm c) as P.
  pose proof (sorted_by_count_descending c) as D.
  rewrite <- (firstn_skipn 10 (sorted_by_count c)) in P, D.
  rewrite map_app in D. apply descending_app in D. destruct D as [D1 D2].
  split; [apply firstn_le_length|]. split; [|split; [assumption|split]].
  - assert (ND : NoDup (map fst (sorted_by_count c))).
    { apply Permutation_NoDup with (map fst c); [|apply Hok].
      apply Permutation_map. symmetry. apply sorted_by_count_perm. }
    rewrite <- (firstn_skipn 10 (sorted_by_count c)), map_app in ND.
    now apply NoDup_app_remove_r in ND.
  - intros d n Hin.
    assert (Hin' : In (d, n) c).
    { apply (Permutation_in _ P). apply in_app_iff. now left. }
    apply (counts_In d n Hok) in Hin'. now rewrite <- Hc.
  - intros d Hd Hn.
    assert (Hin : In (d, declarations (modules self) d) c).
    { apply counts_In; [assumption|]. now rewrite Hc. }
    apply (Permutation_in _ (Permutation_sym P)) in Hin.
    apply in_app_iff in Hin. destruct Hin as [Hin|Hin].
    { exfalso. apply Hn. now apply (in_map fst) in Hin. }
    split.
    + apply firstn_length_le.
      destruct (Nat.le_gt_cases 10 (length (sorted_by_count c)))
        as [L|L]; [assumption|].
      rewrite skipn_all2 in Hin by lia. contradiction.
    + intros n Hc'. apply D2; [assumption|].
      now apply (in_map snd) in Hin.
Qed.
End MostDepended.

(** ** The dependency depth *)

Section WalkFacts.
Import spec.
Variable R : string -> string -> Prop.

Lemma hops_snoc : forall k u v,
  hops R (S k) u v <-> exists w, hops R k u w /\ R w v.
Proof.
  induction k as [|k IH]; intros u v.
  - simpl. split.
    + intros (w & H & <-). now exists u.
    + intros (w & <- & H). now exists v.
  - change (hops R (S (S k)) u v)
      with (exists w, R u w /\ hops R (S k) w v).
    split.
    + intros (w & H1 & H2). apply IH in H2. destruct H2 as (x & H2 & H3).
      exists x. split; [|assumption]. now exists w.
    + intros (x & (w & H1 & H2) & H3). exists w. split; [assumption|].
      apply IH. now exists x.
Qed.

Lemma hops_clos : forall k u v,
  hops R (S k) u v -> clos_trans string R u v.
Proof.
  induction k as [|k IH]; intros u v (w & H1 & H2).
  - simpl in H2. subst. now apply t_step.
  - apply t_trans with w; [now apply t_step|now apply IH].
Qed.

Lemma clos_hops u v :
  clos_trans string R u v -> exists k, hops R (S k) u v.
Proof.
  induction 1 as [u v H|u w v _ (k1 & H1) _ (k2 & H2)].
  - exists 0, v. now split.
  - exists (k1 + S k2). revert u H1.
    induction k1 as [|k1 IH]; intros u (x & Hx & H1).
    + simpl in H1. subst x. now exists w.
    + exists x. split; [assumption|]. now apply IH.
Qed.
End WalkFacts.

Lemma hops_ext (R R' : string -> string -> Prop) :
  (forall a b, R a b <-> R' a b) ->
  forall k u v, spec.hops R k u v <-> spec.hops R' k u v.
Proof.
  intros H. induction k as [|k IH]; intros u v; simpl; [tauto|].
  split; intros (w & H1 & H2); exists w; (split; [now apply H|now apply IH]).
Qed.

Section LevelFacts.
Import spec inv.
Variable adj : string -> list string.
Variable all : list string.
Variable source : string.
Hypothesis adj_closed : forall a b, In a all -> In b (adj a) -> In b all.
Hypothesis source_in : In source all.

Local Abbreviation walk := (inv.walk adj).
Local Abbreviation sp_inv := (inv.sp_inv adj all source).
Local Abbreviation sp_final := (inv.sp_final adj source).

Lemma walk_in_all : forall k v, walk k source v -> In v all.
Proof.
  induction k as [|k IH]; intros v H.
  - unfold inv.walk in H. cbn [hops] in H. now subst.
  - apply hops_snoc in H. destruct H as (w & H1 & H2).
    apply adj_closed with w; [now apply IH|assumption].
Qed.

(** The nodes a level adds: [nw] so far; the state is the old one with
    [nw] appended. *)
Lemma sp_visit_spec level seen0 out0 ws : forall nw,
  NoDup (seen0 ++ nw) ->
  exists nw',
    nx.sp_visit level ws
      (nx.mkSp (seen0 ++ nw) nw (out0 ++ map (fun w => (w, level)) nw))
    = nx.mkSp (seen0 ++ nw') nw' (out0 ++ map (fun w => (w, level)) nw')
    /\ NoDup (seen0 ++ nw')
    /\ forall v, In v nw' <-> In v nw \/ (~ In v seen0 /\ In v ws).
Proof.
  induction ws as [|w ws IH]; intros nw ND; cbn [nx.sp_visit].
  - exists nw. split; [reflexivity|]. split; [assumption|].
    intros v. simpl. tauto.
  - cbn [nx.sp_seen nx.sp_next nx.sp_out].
    destruct (mem w (seen0 ++ nw)) eqn:M.
    + destruct (IH nw ND) as (nw' & E & ND' & H).
      exists nw'. split; [assumption|]. split; [assumption|].
      intros v. rewrite H. apply mem_In in M. apply in_app_iff in M.
      simpl. split; [tauto|]. intros [Hv|[Hn [<-|Hv]]]; tauto.
    + assert (Ea : set_add w (seen0 ++ nw) = seen0 ++ (nw ++ [w])).
      { unfold set_add. rewrite M. now rewrite app_assoc. }
      rewrite Ea.
      replace ((out0 ++ map (fun w0 => (w0, level)) nw) ++ [(w, level)])
        with (out0 ++ map (fun w0 => (w0, level)) (nw ++ [w]))
        by (rewrite map_app, app_assoc; reflexivity).
      apply mem_false in M.
      destruct (IH (nw ++ [w])) as (nw' & E & ND' & H).
      * rewrite app_assoc. apply NoDup_app; [assumption| |].
        -- repeat constructor; easy.
        -- intros x Hx [<-|[]]. contradiction.
      * exists nw'. split; [assumption|]. split; [assumption|].
        intros v. rewrite H, in_app_iff. rewrite in_app_iff in M.
        simpl. split.
        -- intros [[Hv|[<-|[]]]|[Hn Hv]]; tauto.
        -- intros [Hv|[Hn [<-|Hv]]]; tauto.
Qed.

Lemma sp_level_spec level seen0 out0 this : forall nw,
  NoDup (seen0 ++ nw) ->
  exists nw',
    nx.sp_level adj level this
      (nx.mkSp (seen0 ++ nw) nw (out0 ++ map (fun w => (w, level)) nw))
    = nx.mkSp (seen0 ++ nw') nw' (out0 ++ map (fun w => (w, level)) nw')
    /\ NoDup (seen0 ++ nw')
    /\ forall v, In v nw'
                 <-> In v nw
                     \/ (~ In v seen0 /\ exists u, In u this /\ In v (adj u)).
Proof.
  unfold nx.sp_level.
  induction this as [|u this IH]; intros nw ND; cbn [fold_left].
  - exists nw. split; [reflexivity|]. split; [assumption|].
    intros v. split; [tauto|]. intros [H|[_ (u & [] & _)]]. assumption.
  - destruct (sp_visit_spec level seen0 out0 (adj u) nw ND)
      as (nw1 & E1 & ND1 & H1).
    rewrite E1. destruct (IH nw1 ND1) as (nw' & E & ND' & H).
    exists nw'. split; [assumption|]. split; [assumption|].
    intros v. rewrite H, H1. split.
    + intros [[Hv|[Hn Hv]]|[Hn (u' & Hu & Hv)]]; [tauto| |].
      * right. split; [assumption|]. exists u. split; [now left|assumption].
      * right. split; [assumption|]. exists u'. split; [now right|assumption].
    + intros [Hv|[Hn (u' & [<-|Hu] & Hv)]]; [tauto|tauto|].
      right. split; [assumption|]. now exists u'.
Qed.

(** One turn of the loop keeps the invariant. *)
Lemma sp_level_inv L st :
  sp_inv L st ->
  exists nw,
    nx.sp_level adj (S L) (nx.sp_next st)
                (nx.mkSp (nx.sp_seen st) [] (nx.sp_out st))
    = nx.mkSp (nx.sp_seen st ++ nw) nw
              (nx.sp_out st ++ map (fun w => (w, S L)) nw)
    /\ sp_inv (S L)
              (nx.mkSp (nx.sp_seen st ++ nw) nw
                       (nx.sp_out st ++ map (fun w => (w, S L)) nw)).
Proof.
  intros [A ND Hall B C D].
  destruct (sp_level_spec (S L) (nx.sp_seen st) (nx.sp_out st)
                          (nx.sp_next st) [])
    as (nw & E & ND' & H).
  { now rewrite app_nil_r. }
  rewrite app_nil_r in E. cbn [map] in E. rewrite app_nil_r in E.
  exists nw. split; [exact E|].
  assert (Hnew : forall v, In v nw ->
                           ~ In v (nx.sp_seen st)
                           /\ walk (S L) source v
                           /\ forall j, j < S L -> ~ walk j source v).
  { intros v Hv. apply H in Hv. destruct Hv as [[]|[Hn (u & Hu & Hv)]].
    split; [assumption|]. apply D in Hu. apply B in Hu.
    destruct Hu as (_ & Hw & _). split.
    - apply hops_snoc. now exists u.
    - intros j Hj Hwj. apply Hn. apply (C v j); [lia|assumption]. }
  constructor; cbn [nx.sp_seen nx.sp_next nx.sp_out].
  - rewrite map_app, map_map. cbn [fst]. now rewrite map_id, A.
  - assumption.
  - intros v Hv. apply in_app_iff in Hv. destruct Hv as [Hv|Hv]; [auto|].
    apply Hnew in Hv. destruct Hv as (_ & Hw & _).
    now apply walk_in_all with (S L).
  - intros v d Hin. apply in_app_iff in Hin. destruct Hin as [Hin|Hin].
    + apply B in Hin. destruct Hin as (H1 & H2 & H3).
      split; [lia|]. now split.
    + apply in_map_iff in Hin. destruct Hin as (w & [= -> <-] & Hw).
      apply Hnew in Hw. destruct Hw as (_ & H2 & H3).
      split; [lia|]. now split.
  - intros v d Hd Hw. apply in_app_iff.
    destruct (in_dec string_dec v (nx.sp_seen st)) as [i|n]; [now left|].
    right. apply H. right. split; [assumption|].
    assert (d = S L).
    { destruct (Nat.eq_dec d (S L)) as [e|ne]; [assumption|].
      exfalso. apply n. apply (C v d); [lia|assumption]. }
    subst d. apply hops_snoc in Hw. destruct Hw as (u & Hu & Huv).
    exists u. split; [|assumption]. apply D.
    assert (Hus : In u (nx.sp_seen st)) by (apply (C u L); [lia|assumption]).
    rewrite <- A in Hus. apply in_map_iff in Hus.
    destruct Hus as ([u' j] & Eu & Hin). cbn [fst] in Eu. subst u'.
    destruct (B _ _ Hin) as (Hj & Hwj & _).
    destruct (Nat.eq_dec j L) as [->|ne]; [assumption|].
    exfalso. apply n. apply (C v (S j)); [lia|].
    apply hops_snoc. now exists u.
  - intros v. split.
    + intros Hv. apply in_app_iff. right. apply in_map_iff. now exists v.
    + intros Hin. apply in_app_iff in Hin. destruct Hin as [Hin|Hin].
      * apply B in Hin. lia.
      * apply in_map_iff in Hin. now destruct Hin as (w & [= ->] & Hw).
Qed.

Lemma sp_inv_final L st :
  sp_inv L st ->
  nx.sp_next st = [] \/ length (nx.sp_seen st) = length all ->
  sp_final (nx.sp_out st).
Proof.
  intros [A ND Hall B C D] Hend. unfold inv.sp_final. rewrite A.
  split; [assumption|]. split.
  - intros v d Hin. apply B in Hin. tauto.
  - destruct Hend as [Hnil|Hlen].
    + induction k as [k IH] using lt_wf_ind. intros Hw.
      destruct (Nat.le_gt_cases k L) as [Hk|Hk]; [now apply (C v k)|].
      destruct k as [|k]; [lia|].
      apply hops_snoc in Hw. destruct Hw as (u & Hu & Huv).
      assert (Hus : In u (nx.sp_seen st)).
      { revert Hu. generalize u. clear u Huv.
        intros u Hu.
        assert (G : forall k' v', k' < S k -> inv.walk adj k' source v' ->
                                  In v' (nx.sp_seen st)).
        { intros k' v' Hlt. revert v'.
          induction k' as [k' IH'] using lt_wf_ind. intros v' Hw'.
          destruct (Nat.le_gt_cases k' L) as [Hk'|Hk'];
            [now apply (C v' k')|].
          destruct k' as [|k']; [lia|].
          apply hops_snoc in Hw'. destruct Hw' as (u' & Hu' & Huv').
          assert (Hus' : In u' (nx.sp_seen st))
            by (apply (IH' k'); [lia|lia|assumption]).
          rewrite <- A in Hus'. apply in_map_iff in Hus'.
          destruct Hus' as ([u'' j] & Eu & Hin). cbn [fst] in Eu. subst u''.
          destruct (B _ _ Hin) as (Hj & Hwj & _).
          assert (j <> L).
          { intros ->. apply D in Hin. rewrite Hnil in Hin. contradiction. }
          apply (C v' (S j)); [lia|]. apply hops_snoc. now exists u'. }
        apply (G k u); [lia|assumption]. }
      rewrite <- A in Hus. apply in_map_iff in Hus.
      destruct Hus as ([u' j] & Eu & Hin). cbn [fst] in Eu. subst u'.
      destruct (B _ _ Hin) as (Hj & Hwj & _).
      assert (j <> L).
      { intros ->. apply D in Hin. rewrite Hnil in Hin. contradiction. }
      apply (C v (S j)); [lia|]. apply hops_snoc. now exists u.
    + intros v k Hw. apply walk_in_all in Hw.
      apply (@NoDup_length_incl _ (nx.sp_seen st) all ND);
        [lia|assumption|assumption].
Qed.

(** The loop ends within its bound, with the shortest lengths. *)
Lemma sp_while_spec : forall fuel L st,
  sp_inv L st ->
  1 + match nx.sp_next st with
      | [] => 0
      | _ :: _ => length all - length (nx.sp_seen st)
      end <= fuel ->
  exists out, nx.sp_while fuel adj (length all) L st = Some out
              /\ sp_final out.
Proof.
  induction fuel as [|fuel IH]; intros L st I Hf; [lia|].
  cbn [nx.sp_while]. destruct (nx.sp_next st) as [|x next] eqn:En.
  - exists (nx.sp_out st). split; [reflexivity|].
    apply (sp_inv_final I). now left.
  - cbv zeta. destruct (sp_level_inv I) as (nw & E & I').
    rewrite En in E. rewrite E. cbn [nx.sp_seen nx.sp_out].
    destruct (Nat.eqb_spec (length (nx.sp_seen st ++ nw)) (length all))
      as [Hl|Hl].
    + eexists. split; [reflexivity|].
      apply (sp_inv_final I'). now right.
    + apply IH; [assumption|]. cbn [nx.sp_next nx.sp_seen].
      assert (Hle : length (nx.sp_seen st ++ nw) <= length all).
      { apply NoDup_incl_length; [apply I'|apply I']. }
      rewrite length_app in *. destruct nw as [|w nw]; simpl in *; lia.
Qed.
End LevelFacts.

Section DepthFacts.
Import spec analyzer inv.

Lemma dict_of_pairs (out : list (string * nat)) :
  NoDup (map fst out) ->
  fold_left (fun d kv => dset d (fst kv) (snd kv)) out [] = out.
Proof.
  assert (G : forall out acc,
             NoDup (map fst (acc ++ out)) ->
             fold_left (fun d (kv : string * nat) => dset d (fst kv) (snd kv))
                       out acc
             = acc ++ out).
  { clear out. induction out as [|[k v] out IH]; intros acc ND;
      cbn [fold_left]; [now rewrite app_nil_r|].
    assert (E : dset acc k v = acc ++ [(k, v)]).
    { rewrite map_app in ND. cbn [map fst] in ND.
      apply NoDup_remove_2 in ND.
      assert (Hk : ~ In k (map fst acc))
        by (intros H; apply ND; apply in_app_iff; now left).
      clear - Hk. induction acc as [|[k0 v0] acc IHa]; [reflexivity|].
      cbn [dset]. destruct (String.eqb_spec k0 k) as [->|N].
      - exfalso. apply Hk. now left.
      - cbn [app]. f_equal. apply IHa. intros H. apply Hk. now right. }
    cbn [fst snd]. rewrite E, IH.
    - now rewrite <- app_assoc.
    - now rewrite <- app_assoc. }
  intros ND. apply (G out []). exact ND.
Qed.

Lemma list_max_In (l : list nat) : l <> [] -> In (list_max l) l.
Proof.
  induction l as [|x l IH]; [congruence|]. intros _.
  cbn [list_max fold_right]. fold (list_max l).
  destruct l as [|y l]; [left; simpl; lia|].
  destruct (Nat.max_spec x (list_max (y :: l))) as [[_ ->]|[_ ->]].
  - right. apply IH. discriminate.
  - now left.
Qed.

Lemma list_max_ge (l : list nat) x : In x l -> x <= list_max l.
Proof.
  intros H. pose proof (proj1 (list_max_le l (list_max l)) (Nat.le_refl _))
    as F.
  rewrite Forall_forall in F. now apply F.
Qed.

(** The search of [single_source_shortest_path_length] on a graph. *)
Lemma shortest_path_length_spec G s :
  wf G -> In s (nodes G) ->
  exists lengths,
    nx.single_source_shortest_path_length G s = Some (nx.SpLengths lengths)
    /\ sp_final (nx.neighbors G) s lengths.
Proof.
  intros W Hs. unfold nx.single_source_shortest_path_length.
  assert (Hn : nx.has_node G s = true) by now apply has_node_nodes.
  rewrite Hn. cbn [negb]. cbv zeta.
  assert (Hlen : length (nx.succ_ G) = length (nodes G))
    by (unfold nodes, dkeys; now rewrite length_map).
  rewrite Hlen.
  destruct (@sp_while_spec (nx.neighbors G) (nodes G) s) with
    (fuel := S (length (nodes G))) (L := 0)
    (st := nx.mkSp (set_of_list [s]) [s] (map (fun v => (v, 0)) [s]))
    as (out & E & F).
  - intros a b _ H. now apply (edge_nodes a b W H).
  - assumption.
  - constructor; cbn.
    + reflexivity.
    + repeat constructor. easy.
    + intros x [<-|[]]. assumption.
    + intros v d [E0|[]]. injection E0 as E1 E2. subst v d.
      split; [lia|]. split; [reflexivity|].
      intros j Hj. lia.
    + intros v d Hd Hw. assert (d = 0) by lia. subst d.
      unfold inv.walk in Hw. cbn [hops] in Hw. now left.
    + intros v. split; [intros [<-|[]]; now left|].
      intros [E0|[]]. injection E0 as ->. now left.
  - cbn. lia.
  - rewrite E. exists out. destruct F as (ND & F2 & F3).
    rewrite (dict_of_pairs out ND). split; [reflexivity|].
    split; [assumption|]. now split.
Qed.

(** X18. [get_dependency_depth] ends and returns the greatest distance from
    the module to one of the modules it depends on, directly or not,
    where the distance is the number of declarations on a shortest
    chain: every name reached by a chain is reached by one of at most
    that many declarations, and some name is at exactly that distance.
    It is zero exactly when the module declares no dependency but
    itself. *)
Theorem dependency_depth_spec (self : OdooModuleAnalyzer) (name : string) :
  graph_current self ->
  exists depth self',
    get_dependency_depth self name = Some (depth, self')
    /\ (forall x k, hops (depends_on (modules self)) k name x ->
                    exists j, j <= depth /\ j <= k
                              /\ hops (depends_on (modules self)) j name x)
    /\ (exists x, hops (depends_on (modules self)) depth name x
                  /\ forall j, j < depth ->
                               ~ hops (depends_on (modules self)) j name x)
    /\ (depth = 0 <-> forall x, depends_on (modules self) name x -> x = name).
Proof.
  intros H. destruct (ensure_graph_eq H) as (self' & E & _ & _).
  destruct (dependency_graph_spec (modules self)) as (I & _ & Ed).
  pose proof (ni_wf I) as W.
  assert (Hh : forall k u v,
             inv.walk (nx.neighbors (dependency_graph (modules self))) k u v
             <-> hops (depends_on (modules self)) k u v).
  { intros k u v. unfold inv.walk. apply hops_ext. intros a b. apply Ed. }
  assert (Main : exists depth,
             get_dependency_depth self name = Some (depth, self')
             /\ (forall x k, hops (depends_on (modules self)) k name x ->
                   exists j, j <= depth /\ j <= k
                             /\ hops (depends_on (modules self)) j name x)
             /\ (exists x, hops (depends_on (modules self)) depth name x
                   /\ forall j, j < depth ->
                        ~ hops (depends_on (modules self)) j name x)).
  { unfold get_dependency_depth. rewrite E.
    destruct (nx.has_node (dependency_graph (modules self)) name) eqn:Hn;
      cbn [negb].
    - apply has_node_nodes in Hn; [|assumption].
      destruct (@shortest_path_length_spec _ name W Hn) as (lengths & El & F).
      rewrite El. destruct F as (ND & F2 & F3).
      assert (Hne : map snd lengths <> []).
      { assert (Hin : In name (map fst lengths))
          by (apply (F3 name 0); reflexivity).
        destruct lengths; [contradiction|discriminate]. }
      exists (list_max (map snd lengths)).
      split; [destruct lengths; [now destruct Hne|reflexivity]|]. split.
      + intros x k Hk. apply Hh in Hk. pose proof (F3 x k Hk) as Hin.
        apply in_map_iff in Hin. destruct Hin as ([x' d] & Ex & Hin).
        cbn [fst] in Ex. subst x'. destruct (F2 _ _ Hin) as [Hw Hmin].
        exists d. split; [|split].
        * apply list_max_ge. apply in_map_iff. now exists (x, d).
        * destruct (Nat.le_gt_cases d k) as [L|L]; [assumption|].
          exfalso. now apply (Hmin k).
        * now apply Hh.
      + pose proof (list_max_In Hne) as Hin. apply in_map_iff in Hin.
        destruct Hin as ([x d] & Ex & Hin). cbn [snd] in Ex.
        rewrite <- Ex. destruct (F2 _ _ Hin) as [Hw Hmin].
        exists x. split; [now apply Hh|].
        intros j Hj Hwj. apply (Hmin j Hj). now apply Hh.
    - exists 0. split; [reflexivity|].
      assert (Hno : forall x, ~ depends_on (modules self) name x).
      { intros x Hx. apply Ed in Hx.
        destruct (edge_nodes name x W Hx) as [Hin _].
        apply has_node_nodes in Hin; [|assumption]. congruence. }
      split.
      + intros x k Hk. destruct k as [|k].
        * exists 0. split; [lia|]. split; [lia|assumption].
        * destruct Hk as (w & Hw & _). now apply Hno in Hw.
      + exists name. split; [reflexivity|]. intros j Hj. lia. }
  destruct Main as (depth & Eg & Hall & Hex).
  exists depth, self'. split; [assumption|]. split; [assumption|].
  split; [assumption|]. split.
  - intros -> x Hx.
    destruct (Hall x 1) as (j & Hj & _ & Hw).
    + exists x. now split.
    + assert (j = 0) by lia. subst j. simpl in Hw. now subst.
  - intros Hself. destruct Hex as (x & Hw & Hmin).
    destruct depth as [|d]; [reflexivity|]. exfalso.
    assert (G : forall k y, hops (depends_on (modules self)) k name y ->
                            y = name).
    { induction k as [|k IH]; intros y Hy.
      - simpl in Hy. now subst.
      - apply hops_snoc in Hy. destruct Hy as (w & Hw1 & Hw2).
        apply IH in Hw1. subst w. now apply Hself. }
    apply G in Hw. subst x. apply (Hmin 0); [lia|reflexivity].
Qed.

Lemma dependency_depth_spec_witness :
  graph_current (analyzer_of [("A", ["B"; "C"]); ("B", ["C"]); ("C", [])])
  /\ exists depth self',
      get_dependency_depth
        (analyzer_of [("A", ["B"; "C"]); ("B", ["C"]); ("C", [])]) "A"
      = Some (depth, self')
      /\ exists j, j <= depth
                   /\ hops (depends_on
                              (modules (analyzer_of
                                 [("A", ["B"; "C"]); ("B", ["C"]);
                                  ("C", [])])))
                           j "A" "C".
Proof.
  assert (Hc : graph_current
                 (analyzer_of [("A", ["B"; "C"]); ("B", ["C"]); ("C", [])]))
    by (now left).
  split; [assumption|].
  destruct (dependency_depth_spec "A" Hc) as (depth & self' & E & Hall & _).
  exists depth, self'. split; [assumption|].
  destruct (Hall "C" 2) as (j & Hj & _ & Hw).
  - exists "B". split.
    + exists (sample_module "A" ["B"; "C"]). simpl. auto.
    + exists "C". split; [|reflexivity].
      exists (sample_module "B" ["C"]). simpl. auto.
  - exists j. split; assumption.
Defined.
End DepthFacts.

(** ** Upgrade order, loading and relationships *)

Section UpgradeOrderFacts.
Import spec analyzer upgrade_analyzer.
Variable analyze_module : string -> dict OdooModel.

Lemma reverse_dependencies_state a b n :
  graph_current a -> graph_current b -> modules a = modules b ->
  fst (get_reverse_dependencies a n) = fst (get_reverse_dependencies b n)
  /\ graph_current (snd (get_reverse_dependencies a n))
  /\ modules (snd (get_reverse_dependencies a n)) = modules a.
Proof.
  intros Ha Hb E.
  destruct (ensure_graph_eq Ha) as (a' & Ea & Ma & Ca).
  destruct (ensure_graph_eq Hb) as (b' & Eb & Mb & Cb).
  unfold get_reverse_dependencies. rewrite Ea, Eb, E.
  destruct (negb (nx.has_node (dependency_graph (modules b)) n));
    cbn [fst snd]; (split; [reflexivity|]); (split; [assumption|]);
    congruence.
Qed.

Lemma collect_dependents_state direct : forall a b acc,
  graph_current a -> graph_current b -> modules a = modules b ->
  fst (collect_dependents a direct acc) = fst (collect_dependents b direct acc)
  /\ graph_current (snd (collect_dependents a direct acc))
  /\ modules (snd (collect_dependents a direct acc)) = modules a.
Proof.
  induction direct as [|dep direct IH]; intros a b acc Ha Hb E.
  - cbn. auto.
  - cbn [collect_dependents].
    destruct (reverse_dependencies_state dep Ha Hb E) as (E1 & C1 & M1).
    destruct (reverse_dependencies_state dep Hb Ha (eq_sym E))
      as (_ & C2 & M2).
    destruct (get_reverse_dependencies a dep) as [ra a1].
    destruct (get_reverse_dependencies b dep) as [rb b1].
    cbn [fst snd] in *. subst rb.
    destruct (IH a1 b1 (set_update (set_add dep acc) ra) C1 C2) as (F & C & M).
    { congruence. }
    split; [assumption|]. split; [assumption|]. congruence.
Qed.

Lemma assess_state self n a b :
  graph_current a -> graph_current b -> modules a = modules b ->
  fst (assess_upgrade_impact analyze_module self n a)
  = fst (assess_upgrade_impact analyze_module self n b)
  /\ graph_current (snd (assess_upgrade_impact analyze_module self n a))
  /\ modules (snd (assess_upgrade_impact analyze_module self n a))
     = modules a.
Proof.
  intros Ha Hb E. unfold assess_upgrade_impact. rewrite <- E.
  destruct (dget (modules a) n) as [m|]; [|cbn; auto].
  destruct (reverse_dependencies_state n Ha Hb E) as (E1 & C1 & M1).
  destruct (reverse_dependencies_state n Hb Ha (eq_sym E)) as (_ & C2 & M2).
  destruct (get_reverse_dependencies a n) as [ra a1].
  destruct (get_reverse_dependencies b n) as [rb b1].
  cbn [fst snd] in *. subst rb.
  destruct (@collect_dependents_state (sorted ra) a1 b1 [] C1 C2)
    as (F & C & M).
  { congruence. }
  destruct (collect_dependents a1 (sorted ra) []) as [alla a2].
  destruct (collect_dependents b1 (sorted ra) []) as [allb b2].
  cbn [fst snd] in *. subst allb.
  destruct (assess_risk n (length (sorted alla))
              (length (sorted (dkeys (analyze_module (path m))))))
    as [level factors].
  cbn [fst snd]. split; [reflexivity|]. split; [assumption|]. congruence.
Qed.

Lemma upgrade_steps_spec self a0 order : forall i a,
  graph_current a0 -> graph_current a -> modules a = modules a0 ->
  let steps := fst (upgrade_steps analyze_module self i order a) in
  map step_module steps = order
  /\ map step_order steps = seq (i + 1) (length order)
  /\ forall st, In st steps ->
       step_risk_level st
       = risk_level (fst (assess_upgrade_impact analyze_module self
                                                (step_module st) a0))
       /\ dependents_count st
          = length (all_dependents
                      (fst (assess_upgrade_impact analyze_module self
                                                  (step_module st) a0))).
Proof.
  induction order as [|m order IH]; intros i a H0 Ha E; cbv zeta.
  - cbn. split; [reflexivity|]. split; [reflexivity|]. intros st [].
  - cbn [upgrade_steps].
    destruct (assess_state self m Ha H0 E) as (F & C & M).
    destruct (assess_upgrade_impact analyze_module self m a) as [impact a1].
    cbn [fst snd] in F, C, M.
    specialize (IH (S i) a1 H0 C (eq_trans M E)). cbv zeta in IH.
    destruct (upgrade_steps analyze_module self (S i) order a1)
      as [steps a2].
    cbn [fst] in *. destruct IH as (I1 & I2 & I3).
    split; [cbn [map step_module]; now rewrite I1|]. split.
    + cbn [map step_order length seq]. rewrite I2. reflexivity.
    + intros st [<-|Hst]; [|now apply I3].
      cbn [step_module step_risk_level dependents_count].
      now rewrite F.
Qed.

(** X19. [get_upgrade_order] follows the install order of the named modules:
    one step per module of that order, numbered from one, with the risk
    level and the number of dependents [assess_upgrade_impact] gives
    for it.  A module of the order that was not scanned (an external
    dependency) is rated critical with no dependent. *)
Theorem upgrade_order_spec
        (self : UpgradeAnalyzer) (names : list string)
        (a : OdooModuleAnalyzer) :
  graph_current a ->
  exists steps a' order a1,
    get_upgrade_order analyze_module self names a = Some (Return steps, a')
    /\ get_install_order a (Some names) = Some (Return order, a1)
    /\ map step_module steps = order
    /\ map step_order steps = seq 1 (length order)
    /\ (forall st, In st steps ->
          step_risk_level st
          = risk_level (fst (assess_upgrade_impact analyze_module self
                                                   (step_module st) a))
          /\ dependents_count st
             = length (all_dependents
                         (fst (assess_upgrade_impact analyze_module self
                                                     (step_module st) a))))
    /\ (forall st, In st steps ->
          ~ In (step_module st) (dkeys (modules a)) ->
          step_risk_level st = "critical" /\ dependents_count st = 0).
Proof.
  intros H.
  destruct (install_order_cases (Some names) H)
    as (order & a1 & E & C1 & M1 & _).
  pose proof (@upgrade_steps_spec self a order 0 a1 H C1 M1) as S.
  cbv zeta in S. unfold get_upgrade_order. rewrite E.
  destruct (upgrade_steps analyze_module self 0 order a1) as [steps a2].
  cbn [fst] in S. destruct S as (S1 & S2 & S3).
  exists steps, a2, order, a1. split; [reflexivity|]. split; [reflexivity|].
  split; [assumption|]. split; [assumption|]. split; [assumption|].
  intros st Hst Hn. destruct (S3 st Hst) as [R D]. rewrite R, D.
  apply dget_None_keys in Hn. unfold assess_upgrade_impact. rewrite Hn.
  split; reflexivity.
Qed.

End UpgradeOrderFacts.

Section UpgradeOrderExamples.
Import spec analyzer upgrade_analyzer.

Lemma upgrade_order_spec_witness :
  graph_current (analyzer_of [("A", ["base"])])
  /\ exists steps a',
      get_upgrade_order no_models __init__ ["A"]
                        (analyzer_of [("A", ["base"])])
      = Some (Return steps, a')
      /\ map step_module steps = ["base"; "A"]
      /\ map step_order steps = [1; 2].
Proof.
  assert (Hc : graph_current (analyzer_of [("A", ["base"])])) by (now left).
  split; [assumption|].
  destruct (upgrade_order_spec no_models __init__ ["A"] Hc)
    as (steps & a' & order & a1 & E & Eo & S1 & S2 & _).
  exists steps, a'. split; [assumption|].
  assert (Ho : order = ["base"; "A"]).
  { vm_compute in Eo. now injection Eo as <- _. }
  rewrite Ho in S1, S2. split; assumption.
Defined.
End UpgradeOrderExamples.

Section LoadFacts.
Import spec analyzer upgrade_analyzer.
Variable root : fsnode.
Variable resolve : string -> Path.
Variable parser : string -> Path -> option Manifest.

(** X20. After [load_source] and [load_target] both sides are loaded with
    the modules scanned under their paths and the graph of these
    modules, so [compare_versions] returns a difference; loading both
    sides from the same paths gives the empty difference. *)
Theorem load_then_compare
        (self : UpgradeAnalyzer) (source_paths target_paths : list string) :
  let loaded :=
    load_target root resolve parser
                (load_source root resolve parser self source_paths)
                target_paths in
  (exists s t,
      source_analyzer loaded = Some s /\ target_analyzer loaded = Some t
      /\ modules s
         = fst (scan_modules root resolve parser
                             (analyzer.__init__ (Some source_paths)))
      /\ modules t
         = fst (scan_modules root resolve parser
                             (analyzer.__init__ (Some target_paths)))
      /\ graph s = Some (dependency_graph (modules s))
      /\ graph t = Some (dependency_graph (modules t)))
  /\ (exists diff, compare_versions loaded = Return diff)
  /\ (source_paths = target_paths ->
      compare_versions loaded = Return (mkVersionDiff [] [] [] [])).
Proof.
  cbv zeta. unfold load_target, load_source.
  cbn [source_analyzer target_analyzer models].
  split; [|split].
  - eexists _, _. split; [reflexivity|]. split; [reflexivity|].
    split; [reflexivity|]. split; [reflexivity|]. split; reflexivity.
  - unfold compare_versions. cbn [source_analyzer target_analyzer].
    eexists. reflexivity.
  - intros ->. now apply compare_same_modules.
Qed.
End LoadFacts.

Section RelationshipFacts.
Import spec upgrade_analyzer.

Lemma relations_of_cons f mf fs :
  relations_of ((f, mf) :: fs)
  = if truth (comodel_name mf)
    then mkRelationship f (field_type mf) (comodel_name mf)
         :: relations_of fs
    else relations_of fs.
Proof.
  unfold relations_of. cbn [filter snd].
  now destruct (truth (comodel_name mf)).
Qed.

Lemma add_relationships_get (name : string) fs : forall rel k,
  dget (fold_left
          (fun relationships (kf : string * ModelField) =>
             if truth (comodel_name (snd kf))
             then add_relationship relationships name
                    (mkRelationship (fst kf) (field_type (snd kf))
                                    (comodel_name (snd kf)))
             else relationships)
          fs rel) k
  = if String.eqb name k
    then match relations_of fs with
         | [] => dget rel name
         | r :: l => Some (match dget rel name with
                           | Some l0 => l0
                           | None => []
                           end ++ r :: l)
         end
    else dget rel k.
Proof.
  induction fs as [|[f mf] fs IH]; intros rel k; cbn [fold_left].
  - cbn. destruct (String.eqb_spec name k) as [->|N]; reflexivity.
  - rewrite relations_of_cons. cbn [fst snd].
    destruct (truth (comodel_name mf)) eqn:T; rewrite IH; [|reflexivity].
    unfold add_relationship. rewrite !dget_dset, String.eqb_refl.
    destruct (String.eqb name k); [|reflexivity].
    destruct (relations_of fs) as [|r l]; [reflexivity|].
    now rewrite <- app_assoc.
Qed.

(** X21. [get_model_relationships] has an entry exactly for the models with
    a field whose [comodel_name] is set; the entry lists these fields
    in order with their type and target. *)
Theorem model_relationships_spec (self : UpgradeAnalyzer) :
  NoDup (dkeys (models self)) ->
  forall name,
    dget (get_model_relationships self) name
    = match dget (models self) name with
      | Some model => match relations_of (fields model) with
                      | [] => None
                      | r :: l => Some (r :: l)
                      end
      | None => None
      end.
Proof.
  intros ND. unfold get_model_relationships.
  set (f := fun relationships (nm : string * OdooModel) =>
              fold_left
                (fun relationships (kf : string * ModelField) =>
                   if truth (comodel_name (snd kf))
                   then add_relationship relationships (fst nm)
                          (mkRelationship (fst kf) (field_type (snd kf))
                                          (comodel_name (snd kf)))
                   else relationships)
                (fields (snd nm)) relationships).
  set (P := fun (pre : dict OdooModel) (rel : dict (list Relationship)) =>
              forall name,
                dget rel name
                = match dget pre name with
                  | Some model => match relations_of (fields model) with
                                  | [] => None
                                  | r :: l => Some (r :: l)
                                  end
                  | None => None
                  end).
  change (P (models self) (fold_left f (models self) [])).
  apply fold_left_prefix_ind; unfold P, f; clear P f.
  - reflexivity.
  - intros pre [k m] suf acc E IH name. cbn [fst snd].
    rewrite add_relationships_get, dget_app. cbn [dget].
    assert (Hk : dget pre k = None).
    { apply dget_None_keys. intros Hin.
      rewrite E in ND. unfold dkeys in ND. rewrite map_app in ND.
      simpl in ND. apply NoDup_remove_2 in ND. apply ND.
      apply in_app_iff. now left. }
    destruct (String.eqb_spec k name) as [<-|N].
    + rewrite Hk, IH, Hk.
      now destruct (relations_of (fields m)).
    + rewrite IH. now destruct (dget pre name).
Qed.

Lemma model_relationships_spec_witness :
  dget (get_model_relationships
          (mkUpgradeAnalyzer None None
             [("sale.order",
               mkOdooModel (OConst (CStr "sale.order")) [] [] ""
                 [("partner_id",
                   mkModelField "partner_id" "Many2one"
                                (OConst (CStr "res.partner")) None None
                                true false false "");
                  ("note",
                   mkModelField "note" "Text" None_ None None
                                true false false "")]
                 [] "sale" "models/sale.py")]))
       "sale.order"
  = Some [mkRelationship "partner_id" "Many2one"
                         (OConst (CStr "res.partner"))].
Proof.
  rewrite model_relationships_spec.
  - reflexivity.
  - simpl. repeat constructor. easy.
Defined.
End RelationshipFacts.

(** ** The dependency tree and the node colours *)

Section TreeFacts.
Import spec analyzer inv visualizer.
Variable G : nx.DiGraph.
Hypothesis W : wf G.

Lemma string_append_assoc (a b c : string) :
  String.append a (String.append b c) = String.append (String.append a b) c.
Proof. induction a as [|ch a IH]; simpl; [reflexivity|now rewrite IH]. Qed.

(** The line of a child. *)
Lemma tree_line_entry prefix connector child :
  tree_entry
    (String.concat "" [prefix; connector; marker (node_attrs G child);
                       " "; child])
    child.
Proof.
  exists (String.append prefix
            (String.append connector (marker (node_attrs G child)))).
  cbn [String.concat]. cbn [String.append].
  now rewrite <- !string_append_assoc.
Qed.

(** The loop over the successors, from the index [i] on. *)
Local Abbreviation children d node pfx visited :=
  (fun '(i, lines) (child : string) =>
     (S i,
      _add_tree_nodes d G child
        (lines ++
           [String.concat ""
              [pfx%string;
               if Nat.eqb i (length (nx.neighbors G node) - 1)
               then "└── " else "├── ";
               marker (node_attrs G child); " "; child]])
        (String.append pfx
           (if Nat.eqb i (length (nx.neighbors G node) - 1)
            then "    " else "│   "))
        visited)).

Lemma add_tree_nodes_S d node lines prefix visited :
  _add_tree_nodes (S d) G node lines prefix visited
  = if mem node visited then lines
    else if negb (nx.has_node G node) then lines
         else snd (fold_left
                     (children d node prefix (set_add node visited))
                     (nx.neighbors G node) (0, lines)).
Proof. reflexivity. Qed.

Lemma children_app d node prefix vis :
  (forall node lines prefix visited,
      _add_tree_nodes d G node lines prefix visited
      = lines ++ _add_tree_nodes d G node [] prefix visited) ->
  forall l i lines,
    snd (fold_left (children d node prefix vis) l (i, lines))
    = lines ++ snd (fold_left (children d node prefix vis) l (i, [])).
Proof.
  intros IHd. induction l as [|c l IHl]; intros i lines.
  - cbn. now rewrite app_nil_r.
  - cbn [fold_left]. rewrite IHl.
    rewrite (IHl (S i) (_add_tree_nodes _ _ _ ([] ++ _) _ _)).
    rewrite (IHd c (lines ++ _)), (IHd c ([] ++ _)).
    now rewrite <- !app_assoc.
Qed.

(** The calls append to [lines]; what they append does not depend on
    it. *)
Lemma add_tree_nodes_app : forall d node lines prefix visited,
  _add_tree_nodes d G node lines prefix visited
  = lines ++ _add_tree_nodes d G node [] prefix visited.
Proof.
  induction d as [|d IH]; intros node lines prefix visited.
  - cbn. now rewrite app_nil_r.
  - rewrite !add_tree_nodes_S.
    destruct (mem node visited); [now rewrite app_nil_r|].
    destruct (negb (nx.has_node G node)); [now rewrite app_nil_r|].
    now apply children_app.
Qed.

Lemma children_cons d node prefix vis c l i :
  snd (fold_left (children d node prefix vis) (c :: l) (i, []))
  = String.concat ""
      [prefix;
       if Nat.eqb i (length (nx.neighbors G node) - 1)
       then "└── " else "├── ";
       marker (node_attrs G c); " "; c]
    :: _add_tree_nodes d G c []
         (String.append prefix
            (if Nat.eqb i (length (nx.neighbors G node) - 1)
             then "    " else "│   "))
         vis
    ++ snd (fold_left (children d node prefix vis) l (S i, [])).
Proof.
  cbn [fold_left].
  rewrite (@children_app d node prefix vis (add_tree_nodes_app d)).
  rewrite add_tree_nodes_app. cbn [app]. reflexivity.
Qed.

(** Soundness: every line shows a node reached from the root. *)
Lemma add_tree_nodes_sound : forall d node prefix visited line,
  In line (_add_tree_nodes d G node [] prefix visited) ->
  exists v, tree_entry line v /\ reaches G node v.
Proof.
  induction d as [|d IH]; intros node prefix visited line; [intros []|].
  rewrite add_tree_nodes_S.
  destruct (mem node visited); [intros []|].
  destruct (negb (nx.has_node G node)); [intros []|].
  generalize (set_add node visited) as vis. intros vis.
  assert (F : forall l i,
             incl l (nx.neighbors G node) ->
             In line (snd (fold_left (children d node prefix vis) l (i, [])))
             -> exists v, tree_entry line v /\ reaches G node v).
  { induction l as [|c l IHl]; intros i Hl; [intros []|].
    rewrite children_cons. intros [<-|Hin].
    - exists c. split; [apply tree_line_entry|].
      apply t_step. apply Hl. now left.
    - apply in_app_iff in Hin. destruct Hin as [Hin|Hin].
      + apply IH in Hin. destruct Hin as (v & Hv & Hr).
        exists v. split; [assumption|].
        apply t_trans with c; [|assumption].
        apply t_step. apply Hl. now left.
      + apply (IHl (S i)); [|assumption].
        intros x Hx. apply Hl. now right. }
  apply F. apply incl_refl.
Qed.

Lemma children_has d node prefix vis c : forall l i,
  In c l ->
  exists connector prefix',
    let R := snd (fold_left (children d node prefix vis) l (i, [])) in
    In (String.concat ""
          [prefix; connector; marker (node_attrs G c); " "; c]) R
    /\ incl (_add_tree_nodes d G c [] prefix' vis) R.
Proof.
  induction l as [|c' l IHl]; intros i Hin; [contradiction|].
  cbv zeta. rewrite children_cons.
  destruct (string_dec c' c) as [->|N].
  - eexists _, _. split; [now left|].
    intros x Hx. right. apply in_app_iff. left. exact Hx.
  - destruct Hin as [E|Hin]; [congruence|].
    destruct (IHl (S i) Hin) as (connector & prefix' & H1 & H2).
    exists connector, prefix'. split.
    + right. apply in_app_iff. now right.
    + intros x Hx. right. apply in_app_iff. right. now apply H2.
Qed.

(** Completeness: the last node of a walk from the root is shown when
    the walk has at most [d] edges and, its last node apart, visits no
    node twice and no visited node. *)
Lemma add_tree_nodes_complete : forall d node prefix visited mid v,
  length mid < d ->
  chain G (node :: mid ++ [v]) -> NoDup (node :: mid) ->
  (forall x, In x (node :: mid) -> ~ In x visited) ->
  exists line, In line (_add_tree_nodes d G node [] prefix visited)
               /\ tree_entry line v.
Proof.
  induction d as [|d IH]; intros node prefix visited mid v Hl Hc ND Hv;
    [lia|].
  rewrite add_tree_nodes_S.
  assert (Hm : mem node visited = false).
  { apply mem_false. apply Hv. now left. }
  rewrite Hm.
  assert (He : edge G node (hd "" (mid ++ [v]))).
  { apply chain_cons in Hc. destruct Hc as [[Hc|Hc] _]; [|assumption].
    destruct mid; discriminate. }
  assert (Hn : nx.has_node G node = true).
  { apply has_node_nodes; [assumption|].
    now apply (wf_succ_dom W node (hd "" (mid ++ [v]))). }
  rewrite Hn. cbn [negb].
  destruct (@children_has d node prefix (set_add node visited)
              (hd "" (mid ++ [v])) (nx.neighbors G node) 0 He)
    as (connector & prefix' & H1 & H2).
  cbv zeta in H1, H2.
  destruct mid as [|x mid].
  - cbn [app hd] in *. eexists. split; [exact H1|].
    apply tree_line_entry.
  - cbn [app hd] in *.
    destruct (IH x prefix' (set_add node visited) mid v) as (line & Hin & Ht).
    + simpl in Hl. lia.
    + apply chain_cons in Hc. tauto.
    + now inversion ND.
    + intros y Hy. rewrite set_add_In. intros [->|Hy'].
      * inversion ND as [|? ? Hnot _]; subst. now apply Hnot.
      * apply (Hv y); [now right|assumption].
    + exists line. split; [now apply H2|assumption].
Qed.

(** A walk can be cut down to one that repeats no node but its last. *)
Lemma chain_simple : forall n mid x y,
  length mid <= n -> chain G (x :: mid ++ [y]) ->
  exists mid', length mid' <= length mid
               /\ chain G (x :: mid' ++ [y]) /\ NoDup (x :: mid').
Proof.
  induction n as [|n IH]; intros mid x y Hl Hc.
  - destruct mid; [|simpl in Hl; lia]. exists [].
    split; [lia|]. split; [assumption|]. repeat constructor. easy.
  - destruct (ListDec.NoDup_dec string_dec (x :: mid)) as [ND|ND].
    + exists mid. auto.
    + apply not_nodup_split in ND.
      destruct ND as (z & l1 & l2 & l3 & E).
      assert (Hc' : chain G ((l1 ++ z :: l3) ++ [y])).
      { change (x :: mid ++ [y]) with ((x :: mid) ++ [y]) in Hc.
        rewrite E in Hc.
        replace ((l1 ++ z :: l2 ++ z :: l3) ++ [y])
          with ((l1 ++ z :: l2) ++ (z :: l3 ++ [y])) in Hc
          by (rewrite <- !app_assoc; simpl; now rewrite <- !app_assoc).
        replace ((l1 ++ z :: l3) ++ [y]) with (l1 ++ (z :: l3 ++ [y]))
          by (rewrite <- !app_assoc; reflexivity).
        apply chain_app.
        - replace ((l1 ++ z :: l2) ++ z :: l3 ++ [y])
            with (l1 ++ (z :: l2 ++ z :: l3 ++ [y])) in Hc
            by (rewrite <- !app_assoc; reflexivity).
          now apply chain_app_l in Hc.
        - now apply chain_app_r in Hc.
        - intros N1 _. cbn [hd].
          replace ((l1 ++ z :: l2) ++ z :: l3 ++ [y])
            with (l1 ++ (z :: l2 ++ z :: l3 ++ [y])) in Hc
            by (rewrite <- !app_assoc; reflexivity).
          apply (@chain_app_edge G l1 (z :: l2 ++ z :: l3 ++ [y]));
            [assumption|assumption|discriminate]. }
      assert (Hx : exists mid0, l1 ++ z :: l3 = x :: mid0
                                /\ length mid0 < length mid).
      { apply (f_equal (@length string)) in E as El.
        cbn [length] in El. rewrite length_app in El. cbn [length] in El.
        rewrite length_app in El. cbn [length] in El.
        destruct l1 as [|a l1].
        - cbn [app] in *. injection E as -> _. exists l3. split; [reflexivity|].
          lia.
        - cbn [app length] in *. injection E as -> _.
          exists (l1 ++ z :: l3).
          split; [reflexivity|]. rewrite length_app. cbn [length]. lia. }
      destruct Hx as (mid0 & E0 & L0). rewrite E0 in Hc'.
      destruct (IH mid0 x y) as (mid' & L' & C' & N'); [lia|exact Hc'|].
      exists mid'. split; [lia|]. now split.
Qed.

Lemma hops_chain : forall k x y,
  hops (edge G) (S k) x y ->
  exists mid, length mid = k /\ chain G (x :: mid ++ [y]).
Proof.
  induction k as [|k IH]; intros x y (w & H1 & H2).
  - cbn [hops] in H2. subst w. exists []. split; [reflexivity|].
    cbn. tauto.
  - apply IH in H2. destruct H2 as (mid & L & C).
    exists (w :: mid). split; [simpl; lia|].
    cbn [app]. apply chain_cons. split; [now right|assumption].
Qed.

(** The lines of the tree below the header: each shows a node reached
    from the root, and every node within [max_depth] edges of the root
    is shown. *)
Lemma tree_lines_spec (root : string) (max_depth : Z) :
  exists below,
    tree_lines G root max_depth = String.append "📦 " root :: below
    /\ (forall line, In line below ->
                     exists v, tree_entry line v /\ reaches G root v)
    /\ (forall v k, 1 <= k <= Z.to_nat max_depth ->
                    hops (edge G) k root v ->
                    exists line, In line below /\ tree_entry line v)
    /\ ((max_depth <= 0)%Z \/ nx.neighbors G root = [] -> below = []).
Proof.
  exists (_add_tree_nodes (Z.to_nat max_depth) G root [] "" []).
  split; [|split; [|split]].
  - unfold tree_lines. now rewrite add_tree_nodes_app.
  - intros line. apply add_tree_nodes_sound.
  - intros v k [Hk1 Hk2] Hw. destruct k as [|k]; [lia|].
    apply hops_chain in Hw. destruct Hw as (mid & L & C).
    destruct (@chain_simple (length mid) mid root v (Nat.le_refl _) C)
      as (mid' & L' & C' & N').
    apply add_tree_nodes_complete with (mid := mid');
      [lia|assumption|assumption|].
    intros x _ [].
  - intros [Hd|Hn].
    + replace (Z.to_nat max_depth) with 0 by lia. reflexivity.
    + destruct (Z.to_nat max_depth) as [|d]; [reflexivity|].
      rewrite add_tree_nodes_S. cbn [mem existsb].
      destruct (negb (nx.has_node G root)); [reflexivity|].
      now rewrite Hn.
Qed.
End TreeFacts.

Section TreeTheorem.
Import spec analyzer visualizer.

(** X22. [generate_module_tree] joins with newlines the header of the module
    and one line per dependency shown: every line shows a name the
    module depends on, directly or not, and every name reached by a
    chain of at most [max_depth] declarations is shown.  With a
    [max_depth] of zero or less, or a module without dependencies, the
    tree is the header alone. *)
Theorem module_tree_spec
        (self : OdooModuleAnalyzer) (name : string) (max_depth : Z) :
  graph_current self ->
  exists below,
    fst (generate_module_tree self name max_depth)
    = String.concat (String (ascii_of_nat 10) "")
                    (String.append "📦 " name :: below)
    /\ (forall line, In line below ->
          exists v, tree_entry line v
                    /\ depends_transitively (modules self) name v)
    /\ (forall v k, 1 <= k <= Z.to_nat max_depth ->
          hops (depends_on (modules self)) k name v ->
          exists line, In line below /\ tree_entry line v)
    /\ ((max_depth <= 0)%Z
        \/ (forall v, ~ depends_on (modules self) name v) ->
        below = []).
Proof.
  intros H. destruct (ensure_graph_eq H) as (self' & E & _ & _).
  destruct (dependency_graph_spec (modules self)) as (I & _ & Ed).
  pose proof (ni_wf I) as W.
  destruct (tree_lines_spec W name max_depth) as (below & T & S & C & Z0).
  exists below. unfold generate_module_tree. rewrite E. cbn [fst].
  rewrite T. split; [reflexivity|]. split; [|split].
  - intros line Hl. destruct (S line Hl) as (v & Hv & Hr).
    exists v. split; [assumption|]. now apply reaches_depends.
  - intros v k Hk Hw. apply (C v k Hk).
    apply (hops_ext _ _ (fun a b => iff_sym (Ed a b)) k name v). exact Hw.
  - intros [Hd|Hn]; apply Z0; [now left|right].
    destruct (nx.neighbors (dependency_graph (modules self)) name)
      as [|v l] eqn:En; [reflexivity|].
    exfalso. apply (Hn v). apply Ed. unfold edge. rewrite En. now left.
Qed.

Lemma module_tree_spec_witness :
  graph_current (analyzer_of [("A", ["B"]); ("B", ["C"])])
  /\ exists below,
      fst (generate_module_tree
             (analyzer_of [("A", ["B"]); ("B", ["C"])]) "A" 5)
      = String.concat (String (ascii_of_nat 10) "")
                      (String.append "📦 " "A" :: below)
      /\ exists line, In line below /\ tree_entry line "C".
Proof.
  assert (Hc : graph_current (analyzer_of [("A", ["B"]); ("B", ["C"])]))
    by (now left).
  split; [assumption|].
  destruct (module_tree_spec "A" 5 Hc) as (below & E & _ & C & _).
  exists below. split; [assumption|].
  apply (C "C" 2).
  - cbn. lia.
  - exists "B". split.
    + exists (sample_module "A" ["B"]). simpl. auto.
    + exists "C". split; [|reflexivity].
      exists (sample_module "B" ["C"]). simpl. auto.
Defined.
End TreeTheorem.

Section ColorFacts.
Import spec analyzer visualizer.

(** X23. The colour and the tree marker of a node of the dependency graph.
    A name that was not scanned is grey whether it is a core module or
    not, while its marker tells the core modules apart; a scanned
    module is blue when core, else orange when not installable, else
    red when an application, else green. *)
Theorem node_color_spec (mods : dict OdooModule) (x : string) :
  nx.has_node (dependency_graph mods) x = true ->
  let attrs := node_attrs (dependency_graph mods) x in
  (~ In x (dkeys mods) ->
   _get_node_color x attrs = "#95a5a6"
   /\ marker attrs = if mem x CORE_MODULES then "🔵" else "⚪")
  /\ (In x (dkeys mods) ->
      exists m, In (x, m) mods
        /\ _get_node_color x attrs
           = (if mem x CORE_MODULES then "#3498db"
              else if negb (installable m) then "#f39c12"
              else if application m then "#e74c3c"
              else "#2ecc71")
        /\ marker attrs
           = (if mem x CORE_MODULES then "🔵"
              else if application m then "🔴"
              else "🟢")).
Proof.
  intros Hn. cbv zeta.
  destruct (dependency_graph_spec mods) as (I & _ & _).
  pose proof (ni_wf I) as W.
  apply has_node_nodes in Hn; [|assumption].
  unfold node_attrs. split.
  - intros Hx. rewrite (ni_external I x Hn Hx).
    unfold _get_node_color, marker, attr, external_attrs. cbn [dget].
    cbn. now destruct (mem x CORE_MODULES).
  - intros Hx. destruct (ni_scanned I x Hx Hn) as (m & Hm & E).
    exists m. split; [assumption|]. rewrite E.
    unfold _get_node_color, marker, attr, module_attrs. cbn.
    destruct (mem x CORE_MODULES); [split; reflexivity|].
    destruct (installable m); destruct (application m); split; reflexivity.
Qed.

Lemma node_color_spec_witness :
  nx.has_node (dependency_graph (modules (analyzer_of [("A", ["base"])])))
              "base" = true
  /\ _get_node_color
       "base"
       (node_attrs (dependency_graph (modules (analyzer_of [("A", ["base"])])))
                   "base")
     = "#95a5a6".
Proof.
  assert (Hn : nx.has_node
                 (dependency_graph (modules (analyzer_of [("A", ["base"])])))
                 "base" = true) by reflexivity.
  split; [assumption|].
  destruct (node_color_spec (modules (analyzer_of [("A", ["base"])])) "base" Hn)
    as [E _].
  apply E. simpl. intuition discriminate.
Defined.
End ColorFacts.

(** ** Field definitions and the lists of an assessment *)

Section FieldFacts.
Import spec upgrade_analyzer.

(** X25. [_parse_field] accepts exactly the calls of an attribute whose name
    is a field type, whatever object the attribute belongs to.  The
    field has the given name and that type; for a relational type a
    constant first positional argument is the related model, whatever
    the keywords say. *)
Theorem parse_field_spec (name : string) (node : expr) :
  (forall f, _parse_field name node = Some f ->
      exists value ftype args keywords,
        node = Call (Attribute value ftype) args keywords
        /\ In ftype FIELD_TYPES
        /\ f_name f = name /\ field_type f = ftype
        /\ (In ftype ["Many2one"; "One2many"; "Many2many"] ->
            forall c rest, args = Constant c :: rest ->
                           comodel_name f = OConst c))
  /\ (forall value ftype args keywords,
         node = Call (Attribute value ftype) args keywords ->
         In ftype FIELD_TYPES -> _parse_field name node <> None).
Proof.
  split.
  - intros f. unfold _parse_field.
    destruct node as [| | |func args keywords| | | |]; try discriminate.
    destruct func as [| |value ftype| | | | |]; try discriminate.
    destruct (mem ftype FIELD_TYPES) eqn:M; [|discriminate].
    apply mem_In in M. cbn [negb].
    destruct (parse_keywords_keep keywords
                (mkModelField name ftype None_ None None true false false ""))
      as [E1 E2].
    cbn [f_name field_type] in E1, E2. intros Hf.
    exists value, ftype, args, keywords.
    split; [reflexivity|]. split; [assumption|].
    destruct (mem ftype ["Many2one"; "One2many"; "Many2many"]) eqn:R.
    + destruct args as [|[] args]; injection Hf as <-;
        cbn [f_name field_type comodel_name];
        rewrite ?E1, ?E2; (split; [reflexivity|]); (split; [reflexivity|]);
        intros _ c rest; try discriminate.
      now intros [= <- _].
    + injection Hf as <-. split; [assumption|]. split; [assumption|].
      intros Hr. apply mem_In in Hr. congruence.
  - intros value ftype args keywords -> Hin. unfold _parse_field.
    apply mem_In in Hin. rewrite Hin. cbn [negb]. discriminate.
Qed.
End FieldFacts.

Section ImpactLists.
Import spec analyzer upgrade_analyzer.
Variable analyze_module : string -> dict OdooModel.

(** X26. The lists of an assessment are in ascending order; the dependents
    are listed without repetition, every direct dependent is among all
    dependents, and the recommendations are those of the risk level,
    never empty. *)
Theorem impact_lists_sorted
        (self : UpgradeAnalyzer) (name : string) (a : OdooModuleAnalyzer)
        (module : OdooModule) :
  graph_current a -> dget (modules a) name = Some module ->
  let impact := fst (assess_upgrade_impact analyze_module self name a) in
  ascending (direct_dependents impact) /\ NoDup (direct_dependents impact)
  /\ ascending (all_dependents impact) /\ NoDup (all_dependents impact)
  /\ incl (direct_dependents impact) (all_dependents impact)
  /\ ascending (affected_models impact)
  /\ recommendations impact = recommend (risk_level impact)
  /\ recommendations impact <> [].
Proof.
  intros H Hg. cbv zeta. unfold assess_upgrade_impact. rewrite Hg.
  destruct (get_reverse_dependencies_spec name H)
    as (rdeps & a1 & E1 & H1 & M1 & ND1 & R1).
  rewrite E1.
  destruct (@collect_dependents_spec analyze_module (sorted rdeps) a1 [] H1)
    as (all & a2 & E2 & _ & _ & ND2 & A2).
  rewrite E2.
  destruct (assess_risk name (length (sorted all))
              (length (sorted (dkeys (analyze_module (path module))))))
    as [level factors].
  cbn [fst direct_dependents all_dependents affected_models
       recommendations risk_level].
  split; [apply sorted_ascending|]. split; [now apply sorted_nodup|].
  split; [apply sorted_ascending|].
  split; [apply sorted_nodup, ND2; constructor|]. split.
  - intros x Hx. apply sorted_In. apply A2. right.
    exists x. split; [assumption|now left].
  - split; [apply sorted_ascending|]. split; [reflexivity|].
    unfold recommend.
    destruct (String.eqb level "critical"); [discriminate|].
    destruct (String.eqb level "high"); [discriminate|].
    destruct (String.eqb level "medium"); discriminate.
Qed.
End ImpactLists.

Section ImpactListsExample.
Import spec analyzer upgrade_analyzer.

Lemma impact_lists_sorted_witness :
  graph_current (analyzer_of [("A", ["C"]); ("B", ["C"]); ("C", [])])
  /\ incl (direct_dependents
             (fst (assess_upgrade_impact no_models __init__ "C"
                     (analyzer_of [("A", ["C"]); ("B", ["C"]); ("C", [])]))))
          (all_dependents
             (fst (assess_upgrade_impact no_models __init__ "C"
                     (analyzer_of [("A", ["C"]); ("B", ["C"]); ("C", [])])))).
Proof.
  assert (Hc : graph_current
                 (analyzer_of [("A", ["C"]); ("B", ["C"]); ("C", [])]))
    by (now left).
  split; [assumption|].
  destruct (@impact_lists_sorted no_models __init__ "C"
              (analyzer_of [("A", ["C"]); ("B", ["C"]); ("C", [])])
              (sample_module "C" []) Hc eq_refl)
    as (_ & _ & _ & _ & I & _).
  exact I.
Defined.
End ImpactListsExample.

(** ** Modules without dependencies come first *)

Section LeavesFirst.
Import spec analyzer.

(** The order the generations return starts with what was gathered. *)
Lemma generations_prefix G : forall fuel (imap : dict Z) zero order l,
  nx.generations fuel G imap zero order = Some (Return l) ->
  exists rest, l = order ++ zero ++ rest.
Proof.
  induction fuel as [|fuel IH]; intros imap zero order l; [discriminate|].
  destruct zero as [|n ns].
  - cbn [nx.generations]. destruct imap; [|discriminate].
    intros [= <-]. exists []. now rewrite !app_nil_r.
  - rewrite generations_step.
    destruct (nx.for_each (nx.visit_node G) (n :: ns) (imap, []))
      as [[imap' zero']|e]; [|discriminate].
    intros H. apply IH in H. destruct H as (rest & ->).
    exists (zero' ++ rest). now rewrite <- !app_assoc.
Qed.

Lemma topological_sort_sources G l :
  wf G -> nx.topological_sort G = Some (Return l) ->
  exists first rest,
    l = first ++ rest
    /\ forall v, In v first <-> In v (nodes G) /\ nx.predecessors G v = [].
Proof.
  intros W. unfold nx.topological_sort. intros H.
  apply generations_prefix in H. destruct H as (rest & ->).
  eexists _, rest. split; [reflexivity|].
  intros v. unfold nx.in_degree. fold (nodes G).
  rewrite in_map_iff. split.
  - intros ([v' d] & Ev & Hin). cbn [fst] in Ev. subst v'.
    apply filter_In in Hin.
    destruct Hin as [Hin Hz]. apply in_map_iff in Hin.
    destruct Hin as (v'' & Ev & Hv). injection Ev as -> <-.
    cbn [fst snd] in *.
    split; [assumption|]. apply Z.eqb_eq in Hz.
    destruct (nx.predecessors G v); [reflexivity|simpl in Hz; lia].
  - intros [Hv Hp]. exists (v, 0%Z). split; [reflexivity|].
    apply filter_In. split; [|reflexivity].
    apply in_map_iff. exists v. split; [|assumption]. now rewrite Hp.
Qed.

(** X27. In every install order the names without declared dependency,
    scanned or not, stand before every module that declares one. *)
Theorem install_order_leaves_first
        (self : OdooModuleAnalyzer) (module_names : option (list string))
        (order : list string) (self' : OdooModuleAnalyzer) (x y d : string) :
  graph_current self ->
  get_install_order self module_names = Some (Return order, self') ->
  In x order -> In y order ->
  (forall z, ~ depends_on (modules self) x z) ->
  depends_on (modules self) y d ->
  before order x y.
Proof.
  intros H E Hx Hy Hleaf Hdep.
  destruct (ensure_graph_eq H) as (self1 & E1 & Em & Hc).
  destruct (dependency_graph_spec (modules self)) as (I & N & Ed).
  pose proof (ni_wf I) as W.
  destruct (reverse_spec W) as (WR & NR & ER).
  revert E. unfold get_install_order. rewrite E1.
  destruct (nx.topological_sort (nx.reverse (dependency_graph (modules self))))
    as [[l|e]|] eqn:Es; [| |discriminate].
  2: { destruct e; try discriminate. intros [= <- _]. contradiction. }
  assert (Hl : forall (keep : string -> bool),
             In x (filter keep l) -> In y (filter keep l) ->
             before (filter keep l) x y).
  { intros keep Hx' Hy'.
    destruct (topological_sort_sources WR Es) as (first & rest & -> & F).
    destruct (topological_sort_acyclic WR) as (l' & Es' & _ & Hn & _).
    { intros v Hv. apply (reaches_reverse _ _ W) in Hv.
      apply reaches_depends in Hv.
      now apply (@sorted_acyclic _ _ Es v). }
    assert (l' = first ++ rest) by congruence. subst l'.
    apply filter_In in Hx'. apply filter_In in Hy'.
    destruct Hx' as [Hx' Kx]. destruct Hy' as [Hy' Ky].
    rewrite filter_app.
    assert (Fx : In x first).
    { apply F. split.
      - now apply Hn.
      - destruct (nx.predecessors
                    (nx.reverse (dependency_graph (modules self))) x)
          as [|u ps] eqn:Ep; [reflexivity|].
        exfalso. apply (Hleaf u). apply Ed. apply ER.
        apply (wf_sym WR). rewrite Ep. now left. }
    assert (Fy : ~ In y first).
    { intros Fy. apply F in Fy. destruct Fy as [_ Fy].
      assert (Hin : In d (nx.predecessors
                            (nx.reverse (dependency_graph (modules self))) y)).
      { apply (wf_sym WR). apply ER. now apply Ed. }
      rewrite Fy in Hin. contradiction. }
    apply in_app_iff in Hy'. destruct Hy' as [Hy'|Hy']; [contradiction|].
    apply before_new; apply filter_In; tauto. }
  destruct module_names as [[|n ns]|].
  - intros [= <- _]. rewrite <- (filter_true l). apply Hl.
    + now rewrite filter_true.
    + now rewrite filter_true.
  - destruct (required_modules self1 (n :: ns) []) as [required self2].
    intros [= <- _]. now apply Hl.
  - intros [= <- _]. rewrite <- (filter_true l). apply Hl.
    + now rewrite filter_true.
    + now rewrite filter_true.
Qed.
End LeavesFirst.

Section LeavesFirstExample.
Import spec analyzer.

Lemma install_order_leaves_first_witness :
  graph_current (analyzer_of [("A", ["B"]); ("B", []); ("C", [])])
  /\ before ["B"; "C"; "A"] "C" "A".
Proof.
  assert (Hc : graph_current
                 (analyzer_of [("A", ["B"]); ("B", []); ("C", [])]))
    by (now left).
  split; [assumption|].
  apply (@install_order_leaves_first
           (analyzer_of [("A", ["B"]); ("B", []); ("C", [])]) None
           ["B"; "C"; "A"]
           (snd (ensure_graph
                   (analyzer_of [("A", ["B"]); ("B", []); ("C", [])])))
           "C" "A" "B" Hc).
  - reflexivity.
  - simpl. auto.
  - simpl. auto.
  - intros z (m & [E|[E|[E|[]]]] & Hz); inversion E; subst;
      simpl in Hz; contradiction.
  - exists (sample_module "A" ["B"]). simpl. auto.
Defined.
End LeavesFirstExample.
